(** * A shallow embedding of the git filesystem adapters

    [worker/agents/git/fs-adapter.ts] (the SQLite-backed [SqliteFS]),
    [worker/agents/git/memfs.ts] (the in-memory [MemFS]), the decoding
    helpers of [worker/utils/encoding.ts], and the name checks of the
    screenshots controller.

    Conventions of the embedding:
    - a JavaScript string is a [string]; only the code units below 256 are
      represented, which covers every path separator, the base64 alphabet
      and the binary strings produced by [atob];
    - a [Uint8Array] / [ArrayBuffer] is a [list byte];
    - JavaScript numbers that hold lengths, indexes and timestamps are [Z]
      (all of them stay far below 2^53, where the arithmetic is exact);
    - a method that can throw returns a [result];
    - [Date.now()] is an explicit argument [now]. *)

From Stdlib Require Import ZArith List Strings.String Strings.Ascii Strings.Byte
  Lia Bool Sorting.Sorted.
From stdpp Require Import base option list gmap strings.
Import ListNotations.

Open Scope string_scope.
Open Scope list_scope.
Open Scope Z_scope.

(** ** JavaScript string helpers *)

Module JsString.

(** [s.replace(/^\/+/, '')] *)
Fixpoint strip_leading_slashes (s : string) : string :=
  match s with
  | String c rest => if Ascii.eqb c "/" then strip_leading_slashes rest else s
  | EmptyString => EmptyString
  end.

(** [s.replace(/^\.\//, '')] *)
Definition strip_dot_slash (s : string) : string :=
  match s with
  | String c1 (String c2 rest) =>
      if Ascii.eqb c1 "." && Ascii.eqb c2 "/" then rest else s
  | _ => s
  end.

(** [s.replace(/\/+$/g, '')] *)
Fixpoint strip_trailing_slashes (s : string) : string :=
  match s with
  | EmptyString => EmptyString
  | String c rest =>
      let r := strip_trailing_slashes rest in
      if Ascii.eqb c "/" && bool_decide (r = EmptyString)
      then EmptyString else String c r
  end.

(** [s.startsWith(p)] *)
Fixpoint startsWith (s p : string) {struct p} : bool :=
  match p, s with
  | EmptyString, _ => true
  | String a p', String b s' => Ascii.eqb a b && startsWith s' p'
  | String _ _, EmptyString => false
  end.

(** [s.split('/')]: never the empty list, [''.split('/')] is [['']]. *)
Fixpoint split_slash (s : string) : list string :=
  match s with
  | EmptyString => [EmptyString]
  | String c rest =>
      if Ascii.eqb c "/" then EmptyString :: split_slash rest
      else match split_slash rest with
           | h :: t => String c h :: t
           | [] => [String c EmptyString]
           end
  end.

(** [parts.join('/')] *)
Fixpoint join_slash (parts : list string) : string :=
  match parts with
  | [] => EmptyString
  | [x] => x
  | x :: rest => String.append x (String "/" (join_slash rest))
  end.

(** [(s.match(/=+$/) || [''])[0].length]: the number of trailing ['=']. *)
Fixpoint trailing_equals (s : string) : Z :=
  match s with
  | EmptyString => 0
  | String c rest =>
      let n := trailing_equals rest in
      if Ascii.eqb c "=" && Z.eqb n (Z.of_nat (String.length rest))
      then n + 1 else n
  end.

(** [s.slice(n)] and [s.substring(n)] for [0 <= n]: the string from
    position [n] on. *)
Fixpoint slice_from (n : nat) (s : string) : string :=
  match n, s with
  | O, _ => s
  | S n', String _ rest => slice_from n' rest
  | S _, EmptyString => EmptyString
  end.

(** [s.includes(sub)] *)
Fixpoint includes (s sub : string) : bool :=
  startsWith s sub
  || match s with
     | String _ rest => includes rest sub
     | EmptyString => false
     end.

(** [s.lastIndexOf(c)] for a single character [c]: [-1] when absent. *)
Fixpoint lastIndexOf (s : string) (c : ascii) : Z :=
  match s with
  | EmptyString => -1
  | String a rest =>
      let i := lastIndexOf rest c in
      if 0 <=? i then i + 1 else if Ascii.eqb a c then 0 else -1
  end.

(** [s.toLowerCase()] on code units below 256: the ASCII capitals and
    the Latin-1 capitals U+00C0..U+00DE without U+00D7. *)
Definition lower_char (c : ascii) : ascii :=
  let n := N_of_ascii c in
  if ((N.leb 65 n && N.leb n 90)
      || (N.leb 192 n && N.leb n 222 && negb (N.eqb n 215)))%bool
  then ascii_of_N (n + 32) else c.

Fixpoint toLowerCase (s : string) : string :=
  match s with
  | EmptyString => EmptyString
  | String c rest => String (lower_char c) (toLowerCase rest)
  end.

End JsString.

Import JsString.

(** ** Path normalisation *)

(** [normalizePath] of fs-adapter.ts. *)
Definition normalizePath (path : string) : string :=
  let stripped := strip_leading_slashes path in
  if bool_decide (stripped = "." \/ stripped = "./") then ""
  else strip_dot_slash stripped.

(** The normalisation that [mkdir], [rmdir] and [readdir] apply:
    [normalizePath(path).replace(/\/+$/g, '')]. *)
Definition normalizeDirPath (path : string) : string :=
  strip_trailing_slashes (normalizePath path).

Module MemPath.
(** [normalize] of memfs.ts. *)
Definition normalize (p : string) : string := strip_leading_slashes p.
End MemPath.


(** ** Errors and results *)

Inductive ErrCode := ENOENT | EISDIR | ENOTDIR | EEXIST | EPERM | ENOTEMPTY.

(** The values the code throws.  [makeErrno] builds an [Error] carrying
    [code], [errno] and [path]; memfs.ts sets [code] only; the two root
    guards throw a bare [Error]; [atob] throws a [DOMException]; the SQL
    executor throws on a primary-key conflict of a plain [INSERT]. *)
Inductive JsError :=
  | ErrnoException (message : string) (code : ErrCode)
                   (errno : option Z) (path : option string)
  | PlainError (message : string)
  | InvalidCharacterError
  | SqlConstraintError.

Inductive result (A : Type) : Type :=
  | Ok (a : A)
  | Throw (e : JsError).
Arguments Ok {A} a.
Arguments Throw {A} e.

Definition bind {A B} (r : result A) (k : A -> result B) : result B :=
  match r with
  | Ok a => k a
  | Throw e => Throw e
  end.

Notation "'let*' x ':=' c 'in' k" := (bind c (fun x => k))
  (at level 10, x name, c at level 100, k at level 200).

(** A [for (const x of xs)] loop whose body may throw. *)
Fixpoint for_each {S X} (body : S -> X -> result S) (xs : list X) (s : S)
  : result S :=
  match xs with
  | [] => Ok s
  | x :: xs' => let* s' := body s x in for_each body xs' s'
  end.

(** [xs.map(f)] where [f] may throw. *)
Fixpoint map_result {X Y} (f : X -> result Y) (xs : list X)
  : result (list Y) :=
  match xs with
  | [] => Ok []
  | x :: xs' =>
      let* y := f x in
      let* ys := map_result f xs' in
      Ok (y :: ys)
  end.

(** The [code] an outcome carries, if it is a throw with a code. *)
Definition thrown_code {A} (r : result A) : option ErrCode :=
  match r with
  | Throw (ErrnoException _ c _ _) => Some c
  | _ => None
  end.

Definition makeErrno (message : string) (code : ErrCode) (errno : Z)
  (path : string) : JsError :=
  ErrnoException message code (Some errno) (Some path).

Definition quoted (prefix path : string) : string :=
  String.append prefix (String.append path "'").

(** ** worker/utils/encoding.ts *)

Module Encoding.

(** The platform's [atob], after the WHATWG forgiving-base64 decoding
    algorithm that defines it. *)

Definition is_ascii_whitespace (c : ascii) : bool :=
  let n := N_of_ascii c in
  (N.eqb n 9 || N.eqb n 10 || N.eqb n 12 || N.eqb n 13 || N.eqb n 32)%bool.

(** Position of a code unit in the base64 alphabet [A-Za-z0-9+/]. *)
Definition b64_value (c : ascii) : option N :=
  let n := N_of_ascii c in
  if (N.leb 65 n && N.leb n 90)%bool then Some (n - 65)%N
  else if (N.leb 97 n && N.leb n 122)%bool then Some (n - 71)%N
  else if (N.leb 48 n && N.leb n 57)%bool then Some (n + 4)%N
  else if N.eqb n 43 then Some 62%N
  else if N.eqb n 47 then Some 63%N
  else None.

Fixpoint b64_values (cs : list ascii) : option (list N) :=
  match cs with
  | [] => Some []
  | c :: cs' =>
      match b64_value c, b64_values cs' with
      | Some v, Some vs => Some (v :: vs)
      | _, _ => None
      end
  end.

Definition char_of (n : N) : ascii := ascii_of_N (n mod 256)%N.

(** Four sextets give three bytes; a tail of two gives one byte (the low
    four bits are dropped), a tail of three gives two bytes (the low two
    bits are dropped). *)
Fixpoint decode_sextets (vs : list N) : list ascii :=
  match vs with
  | a :: b :: c :: d :: rest =>
      let n := (a * 262144 + b * 4096 + c * 64 + d)%N in
      char_of (n / 65536) :: char_of (n / 256) :: char_of n
        :: decode_sextets rest
  | [a; b; c] =>
      let n := ((a * 4096 + b * 64 + c) / 4)%N in
      [char_of (n / 256); char_of n]
  | [a; b] =>
      let n := ((a * 64 + b) / 16)%N in
      [char_of n]
  | _ => []
  end.

(** Step 2 of the algorithm: with a length divisible by four, one or two
    trailing ['='] are removed. *)
Definition strip_padding (cs : list ascii) : list ascii :=
  if (Z.of_nat (length cs) mod 4 =? 0)
  then match rev cs with
       | c1 :: c2 :: r =>
           if Ascii.eqb c1 "=" then
             if Ascii.eqb c2 "=" then rev r else rev (c2 :: r)
           else cs
       | _ => cs
       end
  else cs.

Definition atob (s : string) : result string :=
  let d := List.filter (fun c => negb (is_ascii_whitespace c))
                       (list_ascii_of_string s) in
  let d := strip_padding d in
  if (Z.of_nat (length d) mod 4 =? 1) then Throw InvalidCharacterError
  else match b64_values d with
       | None => Throw InvalidCharacterError
       | Some vs => Ok (string_of_list_ascii (decode_sextets vs))
       end.

(** [base64ToUint8Array]: [bytes[i] = binary.charCodeAt(i)]. *)
Definition base64ToUint8Array (base64 : string) : result (list byte) :=
  let* binary := atob base64 in
  Ok (List.map byte_of_ascii (list_ascii_of_string binary)).

(** A value of the [data] column: [ArrayBuffer | string | null]. *)
Inductive SqlData :=
  | SqlNull
  | SqlBlob (b : list byte)
  | SqlText (s : string).

Definition rowDataToBytes (data : SqlData) : result (list byte) :=
  match data with
  | SqlBlob b => Ok b
  | SqlText s =>
      if (0 <? Z.of_nat (String.length s)) then base64ToUint8Array s
      else Ok []
  | SqlNull => Ok []
  end.

Definition concatBuffers (chunks : list (list byte)) : list byte :=
  match chunks with
  | [] => []
  | [c] => c
  | _ => List.concat chunks
  end.

(** [toBuffer] re-wraps the same bytes as an [ArrayBuffer]. *)
Definition toBuffer (bytes : list byte) : list byte := bytes.

(** [bytes.slice(start, end)] for [0 <= start] and [0 <= end]. *)
Definition slice (bytes : list byte) (start stop : Z) : list byte :=
  firstn (Z.to_nat (stop - start)) (skipn (Z.to_nat start) bytes).

(** [new TextEncoder().encode(s)] on code units below 256: one byte
    below 128, otherwise the two-byte UTF-8 form. *)
Definition utf8_of_char (c : ascii) : list byte :=
  let n := N_of_ascii c in
  if (n <? 128)%N then [byte_of_ascii c]
  else [byte_of_ascii (ascii_of_N (192 + n / 64));
        byte_of_ascii (ascii_of_N (128 + n mod 64))].

Definition TextEncoder_encode (s : string) : list byte :=
  List.concat (List.map utf8_of_char (list_ascii_of_string s)).

(** [new TextDecoder().decode(bytes)], the inverse of the encoder above,
    where the embedding has a string for the result: on the bytes that
    encode U+0000..U+00FF, one byte below 128 or a two-byte sequence led
    by 0xC2 or 0xC3.  On any other input the decoder yields U+FFFD or
    code units of 256 and more, or strips a byte-order mark; such a
    result is not represented, and the model gives [None]. *)
Fixpoint TextDecoder_decode (bytes : list byte) : option string :=
  match bytes with
  | [] => Some EmptyString
  | b :: rest =>
      let n := N_of_ascii (ascii_of_byte b) in
      if (n <? 128)%N then
        option_map (String (ascii_of_byte b)) (TextDecoder_decode rest)
      else if ((n =? 194) || (n =? 195))%N then
        match rest with
        | b2 :: rest' =>
            let m := N_of_ascii (ascii_of_byte b2) in
            if ((128 <=? m) && (m <? 192))%N then
              option_map (String (ascii_of_N ((n - 192) * 64 + (m - 128))))
                (TextDecoder_decode rest')
            else None
        | [] => None
        end
      else None
  end.

End Encoding.

Import Encoding.

(** ** The [git_objects] table and the SQL statements issued on it *)

Module Sql.

Record Row := mkRow {
  path : string;
  chunk_index : Z;
  parent_path : string;
  data : SqlData;
  is_dir : Z;
  size : Z;
  mtime : Z;
}.

(** A table is the list of its rows in insertion order.  The primary key
    [(path, chunk_index)] is enforced by the three insert statements. *)
Abbreviation Table := (list Row).

Definition has_key (p : string) (i : Z) (r : Row) : Prop :=
  path r = p /\ chunk_index r = i.

#[export] Instance has_key_dec p i r : Decision (has_key p i r).
Proof. unfold has_key. apply _. Defined.

(** [SELECT .. WHERE path = p AND chunk_index = 0] *)
Definition select_chunk0 (t : Table) (p : string) : list Row :=
  filter (has_key p 0) t.

(** [ORDER BY chunk_index] (ascending, stable). *)
Fixpoint insert_by_chunk (r : Row) (l : list Row) : list Row :=
  match l with
  | [] => [r]
  | x :: l' =>
      if chunk_index r <=? chunk_index x then r :: l
      else x :: insert_by_chunk r l'
  end.

Definition order_by_chunk (l : list Row) : list Row :=
  foldr insert_by_chunk [] l.

(** [SELECT .. WHERE path = p ORDER BY chunk_index] *)
Definition select_path (t : Table) (p : string) : list Row :=
  order_by_chunk (filter (fun r => path r = p) t).

(** [SELECT path .. WHERE parent_path = p AND chunk_index = 0] *)
Definition select_children (t : Table) (p : string) : list Row :=
  filter (fun r => parent_path r = p /\ chunk_index r = 0) t.

Definition key_present (t : Table) (r : Row) : bool :=
  bool_decide (Exists (has_key (path r) (chunk_index r)) t).

(** [INSERT INTO ..]: a primary-key conflict is an error. *)
Definition insert (t : Table) (r : Row) : result Table :=
  if key_present t r then Throw SqlConstraintError else Ok (t ++ [r]).

(** [INSERT OR IGNORE INTO ..] *)
Definition insert_or_ignore (t : Table) (r : Row) : Table :=
  if key_present t r then t else t ++ [r].

(** [INSERT OR REPLACE INTO ..] *)
Definition insert_or_replace (t : Table) (r : Row) : Table :=
  filter (fun x => ~ has_key (path r) (chunk_index r) x) t ++ [r].

(** [DELETE .. WHERE path = p] *)
Definition delete_path (t : Table) (p : string) : Table :=
  filter (fun r => path r <> p) t.

(** A directory row as the three [INSERT OR IGNORE] statements write it:
    [data] is [NULL] and [size] takes its column default 0. *)
Definition dir_row (p parent : string) (now : Z) : Row :=
  {| path := p; chunk_index := 0; parent_path := parent; data := SqlNull;
     is_dir := 1; size := 0; mtime := now |}.

(** Modelled from the spec: the v1 schema, whose [CREATE TABLE] is not in
    the sources: the same table with no [chunk_index] column and at most
    one row per [path].  Only the columns the migration reads are kept. *)
Record V1Row := mkV1Row {
  v1_path : string;
  v1_parent_path : string;
  v1_data : SqlData;
  v1_is_dir : Z;
  v1_mtime : Z;
}.

(** What [PRAGMA table_info(git_objects)] distinguishes. *)
Inductive Database :=
  | NoTable
  | V1Table (rows : list V1Row)
  | V2Table (rows : Table).

(** [p LIKE 'prefix%'] for a [prefix] without wildcards: SQLite's [LIKE]
    ignores the case of the ASCII letters and of no other character. *)
Definition like_fold (c : ascii) : ascii :=
  let n := N_of_ascii c in
  if (N.leb 65 n && N.leb n 90)%bool then ascii_of_N (n + 32) else c.

Fixpoint like_prefix (s prefix : string) {struct prefix} : bool :=
  match prefix, s with
  | EmptyString, _ => true
  | String a prefix', String b s' =>
      Ascii.eqb (like_fold a) (like_fold b) && like_prefix s' prefix'
  | String _ _, EmptyString => false
  end.

(** [ORDER BY path, chunk_index]: texts compare code unit by code unit
    (the order of their UTF-8 bytes), then the indexes. *)
Definition row_leb (a b : Row) : bool :=
  match String.compare (path a) (path b) with
  | Lt => true
  | Eq => chunk_index a <=? chunk_index b
  | Gt => false
  end.

Fixpoint insert_by_path_chunk (r : Row) (l : list Row) : list Row :=
  match l with
  | [] => [r]
  | x :: l' =>
      if row_leb r x then r :: l else x :: insert_by_path_chunk r l'
  end.

Definition order_by_path_chunk (l : list Row) : list Row :=
  foldr insert_by_path_chunk [] l.

(** The order in which a scan of the index on [(parent_path, path)]
    returns the rows of one [parent_path]: by [path], rows of the same
    path in insertion order. *)
Fixpoint insert_by_path (r : Row) (l : list Row) : list Row :=
  match l with
  | [] => [r]
  | x :: l' =>
      match String.compare (path r) (path x) with
      | Gt => x :: insert_by_path r l'
      | _ => r :: l
      end
  end.

Definition order_by_path (l : list Row) : list Row :=
  foldr insert_by_path [] l.

(** [LENGTH(data)]: the bytes of a blob, the characters of a text before
    its first NUL, [NULL] for [NULL]. *)
Fixpoint text_length (s : string) : Z :=
  match s with
  | EmptyString => 0
  | String c rest =>
      if Ascii.eqb c "000" then 0 else 1 + text_length rest
  end.

Definition sql_length (d : SqlData) : option Z :=
  match d with
  | SqlNull => None
  | SqlBlob b => Some (Z.of_nat (length b))
  | SqlText s => Some (text_length s)
  end.

End Sql.

Import Sql.

(** ** SqliteFS *)

Module SqliteFS.

Definition CHUNK_SIZE : Z := 1800 * 1024.

(** [Math.ceil(a / b)] for [0 <= a] and [0 < b]. *)
Definition ceil_div (a b : Z) : Z :=
  if a mod b =? 0 then a / b else a / b + 1.

Inductive FileType := TFile | TDir.

Record Stats := mkStats {
  type : FileType;
  mode : Z;
  st_size : Z;
  mtimeMs : Z;
  dev : Z;
  ino : Z;
  uid : Z;
  gid : Z;
  ctimeMs : Z;
  isSymbolicLink : bool;
}.

Definition isFile (s : Stats) : bool :=
  match type s with TFile => true | TDir => false end.
Definition isDirectory (s : Stats) : bool :=
  match type s with TDir => true | TFile => false end.

(** [parts.length > 1 ? parts.slice(0, -1).join('/') : ''] *)
Definition parent_of_parts (parts : list string) : string :=
  if 1 <? Z.of_nat (length parts) then join_slash (removelast parts) else "".

Definition parent_of (normalized : string) : string :=
  parent_of_parts (split_slash normalized).

(** *** Schema and migration *)

Definition createSchema (now : Z) : Table :=
  insert_or_ignore [] (dir_row "" "" now).

Definition migrate_row (r : V1Row) : Row :=
  {| path := v1_path r; chunk_index := 0; parent_path := v1_parent_path r;
     data := v1_data r; is_dir := v1_is_dir r; size := 0;
     mtime := v1_mtime r |}.

Definition migrateV1toV2 (rows : list V1Row) (now : Z) : result Table :=
  let* v2 := for_each (fun t r => insert t (migrate_row r)) rows [] in
  Ok (insert_or_ignore v2 (dir_row "" "" now)).

Definition init (db : Database) (now : Z) : result Table :=
  match db with
  | NoTable => Ok (createSchema now)
  | V1Table rows => migrateV1toV2 rows now
  | V2Table t => Ok t
  end.

(** *** Read *)

(** [readFile] without the [encoding] option; with [encoding: 'utf8'] the
    caller gets the platform's [TextDecoder] applied to this result. *)
Definition readFile (t : Table) (path : string) : result (list byte) :=
  let normalized := normalizePath path in
  match select_chunk0 t normalized with
  | [] =>
      Throw (makeErrno
        (quoted "ENOENT: no such file or directory, open '" path)
        ENOENT (-2) path)
  | meta :: _ =>
      if negb (is_dir meta =? 0) then
        Throw (makeErrno
          (quoted "EISDIR: illegal operation on a directory, read '" path)
          EISDIR (-21) path)
      else
        let rows := select_path t normalized in
        let* chunks := map_result (fun r => rowDataToBytes (data r)) rows in
        Ok (concatBuffers chunks)
  end.

(** *** Write *)

Inductive WriteData :=
  | Bytes (b : list byte)
  | Text (s : string).

(** The loop that inserts a directory row for every proper ancestor. *)
Definition ensure_parents (t : Table) (parts : list string) (now : Z)
  : Table :=
  fold_left
    (fun t i =>
       let dirPath := join_slash (firstn (i + 1) parts) in
       let dirParent :=
         if Nat.eqb i 0 then "" else join_slash (firstn i parts) in
       insert_or_ignore t (dir_row dirPath dirParent now))
    (seq 0 (length parts - 1)) t.

Definition chunk_row (normalized parentPath : string) (bytes : list byte)
  (now : Z) (i : Z) : Row :=
  let totalSize := Z.of_nat (length bytes) in
  let start := i * CHUNK_SIZE in
  let stop := Z.min (start + CHUNK_SIZE) totalSize in
  let chunkBuf := toBuffer (slice bytes start stop) in
  {| path := normalized; chunk_index := i;
     parent_path := if i =? 0 then parentPath else "";
     data := SqlBlob chunkBuf; is_dir := 0;
     size := if i =? 0 then totalSize else 0; mtime := now |}.

Definition chunk_count (totalSize : Z) : Z :=
  Z.max 1 (ceil_div totalSize CHUNK_SIZE).

Definition chunk_indexes (totalSize : Z) : list Z :=
  List.map Z.of_nat (seq 0 (Z.to_nat (chunk_count totalSize))).

(** [now_dirs] and [now] are the two readings of [Date.now()]: the first
    stamps the ancestor rows, the second the chunks. *)
Definition writeFile (t : Table) (path : string) (data : WriteData)
  (now_dirs now : Z) : result Table :=
  let normalized := normalizePath path in
  if bool_decide (normalized = "")
  then Throw (PlainError "Cannot write to root")
  else
    let bytes :=
      match data with Text s => TextEncoder_encode s | Bytes b => b end in
    let existing := select_chunk0 t normalized in
    if match existing with r :: _ => is_dir r =? 1 | [] => false end then
      Throw (makeErrno
        (quoted "EISDIR: illegal operation on a directory, open '" path)
        EISDIR (-21) path)
    else
      let parts := split_slash normalized in
      let parentPath := parent_of_parts parts in
      let t1 :=
        if 1 <? Z.of_nat (length parts) then ensure_parents t parts now_dirs
        else t in
      let t2 := delete_path t1 normalized in
      let totalSize := Z.of_nat (length bytes) in
      for_each
        (fun t i => insert t (chunk_row normalized parentPath bytes now i))
        (chunk_indexes totalSize) t2.

(** *** Delete *)

Definition unlink (t : Table) (path : string) : result Table :=
  let normalized := normalizePath path in
  match select_chunk0 t normalized with
  | [] =>
      Throw (makeErrno
        (quoted "ENOENT: no such file or directory, unlink '" path)
        ENOENT (-2) path)
  | existing :: _ =>
      if is_dir existing =? 1 then
        Throw (makeErrno
          (quoted "EPERM: operation not permitted, unlink '" path)
          EPERM (-1) path)
      else Ok (delete_path t normalized)
  end.

(** *** Directory operations *)

Definition mkdir (t : Table) (path : string) (now : Z) : result Table :=
  let normalized := normalizeDirPath path in
  if bool_decide (normalized = "") then Ok t
  else
    let parts := split_slash normalized in
    let parent_missing :=
      if 1 <? Z.of_nat (length parts) then
        let parentPath := join_slash (removelast parts) in
        match select_chunk0 t parentPath with
        | [] => true
        | parent :: _ => negb (is_dir parent =? 1)
        end
      else false in
    if parent_missing then
      Throw (makeErrno
        (quoted "ENOENT: no such file or directory, mkdir '" path)
        ENOENT (-2) path)
    else
      match select_chunk0 t normalized with
      | existing :: _ =>
          if is_dir existing =? 1 then Ok t
          else
            Throw (makeErrno
              (quoted "EEXIST: file already exists, mkdir '" path)
              EEXIST (-17) path)
      | [] =>
          let parentPath := parent_of_parts parts in
          Ok (insert_or_ignore t (dir_row normalized parentPath now))
      end.

Definition rmdir (t : Table) (path : string) : result Table :=
  let normalized := normalizeDirPath path in
  if bool_decide (normalized = "") then
    Throw (PlainError "Cannot remove root directory")
  else
    match select_chunk0 t normalized with
    | [] =>
        Throw (makeErrno
          (quoted "ENOENT: no such file or directory, rmdir '" path)
          ENOENT (-2) path)
    | existing :: _ =>
        if negb (is_dir existing =? 1) then
          Throw (makeErrno
            (quoted "ENOTDIR: not a directory, rmdir '" path)
            ENOTDIR (-20) path)
        else
          match select_children t normalized with
          | _ :: _ =>
              Throw (makeErrno
                (quoted "ENOTEMPTY: directory not empty, rmdir '" path)
                ENOTEMPTY (-39) path)
          | [] => Ok (delete_path t normalized)
          end
    end.

(** *** Stat *)

Definition stat (t : Table) (path : string) : result Stats :=
  let normalized := normalizePath path in
  match select_chunk0 t normalized with
  | [] =>
      Throw (makeErrno
        (quoted "ENOENT: no such file or directory, stat '" path)
        ENOENT (-2) path)
  | row :: _ =>
      let isDir := is_dir row =? 1 in
      let size :=
        if negb isDir && (size row =? 0) then
          match data row with
          | SqlBlob b => Z.of_nat (length b)
          | SqlText s =>
              let padding := trailing_equals s in
              (Z.of_nat (String.length s) * 3) / 4 - padding
          | SqlNull => size row
          end
        else size row in
      Ok {| type := if isDir then TDir else TFile;
            mode := if isDir then 16877 else 33188;
            st_size := size;
            mtimeMs := mtime row;
            dev := 0; ino := 0; uid := 0; gid := 0;
            ctimeMs := mtime row;
            isSymbolicLink := false |}
  end.

(** *** Rename *)

Definition rename (t : Table) (oldPath newPath : string) : result Table :=
  let oldNorm := normalizePath oldPath in
  let newNorm := normalizePath newPath in
  let newParts := split_slash newNorm in
  let newParent := parent_of_parts newParts in
  let rows := select_path t oldNorm in
  match rows with
  | [] =>
      Throw (makeErrno
        (String.append "ENOENT: no such file or directory, rename '"
           (String.append oldPath (String.append "' -> '" (quoted "" newPath))))
        ENOENT (-2) oldPath)
  | _ :: _ =>
      let t1 :=
        fold_left
          (fun t row =>
             let parentPath :=
               if chunk_index row =? 0 then newParent else parent_path row in
             insert_or_replace t
               {| path := newNorm; chunk_index := chunk_index row;
                  parent_path := parentPath; data := data row;
                  is_dir := is_dir row; size := size row;
                  mtime := mtime row |})
          rows t in
      Ok (delete_path t1 oldNorm)
  end.

(** *** Directory listing *)

(** [segments[segments.length - 1]] of [p.split('/')]. *)
Definition last_segment (p : string) : string :=
  List.last (split_slash p) "".

(** The second query of [readdir] has no [ORDER BY]; SQLite answers it
    from the index [idx_git_objects_parent] on [(parent_path, path)], so
    its rows come ordered by [path]. *)
Definition readdir (t : Table) (path : string) : result (list string) :=
  let normalized := normalizeDirPath path in
  match select_chunk0 t normalized with
  | [] =>
      Throw (makeErrno
        (quoted "ENOENT: no such file or directory, scandir '" path)
        ENOENT (-2) path)
  | dirCheck :: _ =>
      if is_dir dirCheck =? 0 then
        Throw (makeErrno
          (quoted "ENOTDIR: not a directory, scandir '" path)
          ENOTDIR (-20) path)
      else
        let rows :=
          order_by_path
            (filter (fun r => parent_path r = normalized
                             /\ Sql.path r <> normalized
                             /\ chunk_index r = 0) t) in
        Ok (List.map (fun row => last_segment (Sql.path row)) rows)
  end.

(** *** lstat, symlink, chmod, exists, write *)

Definition lstat (t : Table) (path : string) : result Stats := stat t path.

Definition symlink (t : Table) (target path : string) (now_dirs now : Z)
  : result Table :=
  writeFile t path (Text target) now_dirs now.

(** A no-op: the table is left as it is. *)
Definition chmod (t : Table) (_path : string) (_mode : Z) : result Table :=
  Ok t.

(** [exists] ([exists] is a keyword of Rocq): [ENOENT] becomes [false],
    any other error is thrown again. *)
Definition exists_ (t : Table) (path : string) : result bool :=
  match stat t path with
  | Ok _ => Ok true
  | Throw (ErrnoException _ ENOENT _ _) => Ok false
  | Throw err => Throw err
  end.

Definition write (t : Table) (path : string) (data : WriteData)
  (now_dirs now : Z) : result Table :=
  writeFile t path data now_dirs now.

(** [readFile] with [{ encoding: 'utf8' }], and [readlink], which is
    that call. *)
Definition readFile_utf8 (t : Table) (path : string)
  : result (option string) :=
  let* result := readFile t path in
  Ok (TextDecoder_decode result).

Definition readlink (t : Table) (path : string) : result (option string) :=
  readFile_utf8 t path.

(** *** Export *)

(** The variables of the loop of [exportGitObjects]. *)
Record ExportLoop := mkExportLoop {
  exported : list (string * list byte);
  currentPath : string;
  currentChunks : list (list byte);
}.

(** [if (currentPath && currentChunks.length > 0) exported.push(..)] *)
Definition flush (st : ExportLoop) : list (string * list byte) :=
  if negb (bool_decide (currentPath st = ""))
     && (0 <? Z.of_nat (length (currentChunks st)))
  then exported st ++ [(currentPath st, concatBuffers (currentChunks st))]
  else exported st.

Definition export_row (st : ExportLoop) (row : Row) : result ExportLoop :=
  let st :=
    if bool_decide (Sql.path row <> currentPath st)
    then {| exported := flush st; currentPath := Sql.path row;
            currentChunks := [] |}
    else st in
  let* bytes := rowDataToBytes (data row) in
  Ok {| exported := exported st; currentPath := currentPath st;
        currentChunks := currentChunks st ++ [bytes] |}.

Definition exportGitObjects (t : Table)
  : result (list (string * list byte)) :=
  let rows :=
    order_by_path_chunk
      (filter (fun r => like_prefix (Sql.path r) ".git/" = true
                        /\ is_dir r = 0) t) in
  let* st :=
    for_each export_row rows
      {| exported := []; currentPath := ""; currentChunks := [] |} in
  Ok (flush st).

(** *** Observability *)

(** The two totals of [getStorageStats], from its first query:
    [COUNT(DISTINCT path)] and [COALESCE(SUM(LENGTH(data)), 0)] over the
    rows with [is_dir = 0].  [SUM] skips the [NULL]s.  The third field,
    [largestObject], comes from a [LIMIT 1] whose choice among equal sums
    SQL leaves open; it is not modelled. *)
Definition totalObjects (t : Table) : Z :=
  Z.of_nat (base.size (list_to_set (C := gset string)
                    (Sql.path <$> filter (fun r => is_dir r = 0) t))).

Definition totalBytes (t : Table) : Z :=
  foldr Z.add 0
    (omap (fun r => sql_length (data r)) (filter (fun r => is_dir r = 0) t)).

End SqliteFS.

Import SqliteFS.

(** ** MemFS *)

Module MemFS.

Import SqliteFS.

Record State := mkState {
  files : gmap string (list byte);
  symlinks : gmap string string;
}.

(** The file system as the constructor leaves it. *)
Definition empty : State := {| files := ∅; symlinks := ∅ |}.

Definition enoent (message : string) : JsError :=
  ErrnoException message ENOENT None None.

Definition makeStat (now : Z) (ty : FileType) (mode size : Z)
  (isSymlink : bool) : Stats :=
  {| type := ty; mode := mode; st_size := size; mtimeMs := now;
     dev := 0; ino := 0; uid := 0; gid := 0; ctimeMs := now;
     isSymbolicLink := isSymlink |}.

(** [this.files.keys()] and [this.symlinks.keys()] *)
Definition keys {V} (m : gmap string V) : list string := (map_to_list m).*1.

Definition writeFile (fs : State) (path : string) (data : WriteData)
  : result State :=
  let bytes :=
    match data with Text s => TextEncoder_encode s | Bytes b => b end in
  let normalized := MemPath.normalize path in
  Ok {| files := <[normalized := bytes]> (files fs);
        symlinks := symlinks fs |}.

Definition readFile (fs : State) (path : string) : result (list byte) :=
  let normalized := MemPath.normalize path in
  match files fs !! normalized with
  | None =>
      Throw (enoent (quoted "ENOENT: no such file or directory, open '" path))
  | Some data => Ok data
  end.

Definition stat (fs : State) (path : string) (now : Z) : result Stats :=
  let normalized := MemPath.normalize path in
  match symlinks fs !! normalized with
  | Some target =>
      let size :=
        match files fs !! MemPath.normalize target with
        | Some targetData => Z.of_nat (length targetData)
        | None => 0
        end in
      Ok (makeStat now TFile 33188 size false)
  | None =>
      match files fs !! normalized with
      | Some data =>
          Ok (makeStat now TFile 33188 (Z.of_nat (length data)) false)
      | None =>
          let prefix :=
            if bool_decide (normalized = "") then ""
            else String.append normalized "/" in
          if existsb (fun filePath => startsWith filePath prefix)
               (keys (files fs))
          then Ok (makeStat now TDir 16877 0 false)
          else if existsb (fun linkPath => startsWith linkPath prefix)
                    (keys (symlinks fs))
          then Ok (makeStat now TDir 16877 0 false)
          else
            Throw (enoent
              (quoted "ENOENT: no such file or directory, stat '" path))
      end
  end.

Definition symlink (fs : State) (target path : string) : result State :=
  let normalized := MemPath.normalize path in
  Ok {| files := files fs;
        symlinks := <[normalized := target]> (symlinks fs) |}.

Definition unlink (fs : State) (path : string) : result State :=
  let normalized := MemPath.normalize path in
  Ok {| files := delete normalized (files fs);
        symlinks := delete normalized (symlinks fs) |}.

(** [readFile] with [{ encoding: 'utf8' }]. *)
Definition readFile_utf8 (fs : State) (path : string)
  : result (option string) :=
  let* data := readFile fs path in
  Ok (TextDecoder_decode data).

(** [lstat] does not follow a link: mode [0o120000], size 0. *)
Definition lstat (fs : State) (path : string) (now : Z) : result Stats :=
  let normalized := MemPath.normalize path in
  match symlinks fs !! normalized with
  | Some _ => Ok (makeStat now TFile 40960 0 true)
  | None => stat fs path now
  end.

(** [results.add(x)] on a [Set], kept as the list of its elements in
    insertion order. *)
Definition set_add (x : string) (results : list string) : list string :=
  if bool_decide (x ∈ results) then results else results ++ [x].

(** [relative.split('/')[0]] *)
Definition first_part (relative : string) : string :=
  hd "" (split_slash relative).

(** [readdir].  [keys] enumerates a map in the order of [gmap], not in
    the insertion order of a JavaScript [Map]: the names are the ones the
    code returns, their order in the array is not represented. *)
Definition readdir (fs : State) (dirPath : string) : result (list string) :=
  let normalized := MemPath.normalize dirPath in
  let prefix :=
    if bool_decide (normalized = "") then ""
    else String.append normalized "/" in
  let visit results p :=
    if startsWith p prefix then
      let relative := slice_from (String.length prefix) p in
      let firstPart := first_part relative in
      if bool_decide (firstPart = "") then results
      else set_add firstPart results
    else results in
  let results := fold_left visit (keys (files fs)) [] in
  let results := fold_left visit (keys (symlinks fs)) results in
  Ok results.

(** No-ops: directories are implicit in the paths, modes are not kept. *)
Definition mkdir (fs : State) (_path : string) : result State := Ok fs.
Definition rmdir (fs : State) (_path : string) : result State := Ok fs.
Definition chmod (fs : State) (_path : string) (_mode : Z) : result State :=
  Ok fs.

Definition rename (fs : State) (oldPath newPath : string) : result State :=
  let oldNormalized := MemPath.normalize oldPath in
  let newNormalized := MemPath.normalize newPath in
  match files fs !! oldNormalized with
  | Some data =>
      Ok {| files := delete oldNormalized (<[newNormalized := data]> (files fs));
            symlinks := symlinks fs |}
  | None => Ok fs
  end.

(** [if (!target)]: a missing link and a link to the empty string both
    throw. *)
Definition readlink (fs : State) (path : string) : result string :=
  let normalized := MemPath.normalize path in
  match symlinks fs !! normalized with
  | Some target =>
      if bool_decide (target = "") then
        Throw (enoent
          (quoted "ENOENT: no such file or directory, readlink '" path))
      else Ok target
  | None =>
      Throw (enoent
        (quoted "ENOENT: no such file or directory, readlink '" path))
  end.

(** [getWorkingTreeFiles]; the order of the array is that of [keys]. *)
Definition getWorkingTreeFiles (fs : State) : list string :=
  List.filter
    (fun p => negb (bool_decide (p = ""))
              && negb (startsWith p ".git/")
              && negb (bool_decide (p = ".git")))
    (List.map MemPath.normalize (keys (files fs))).

End MemFS.

(** ** The helpers of the screenshots controller *)

Module Screenshots.

Definition is_alnum (c : ascii) : bool :=
  let n := N_of_ascii c in
  ((N.leb 65 n && N.leb n 90) || (N.leb 97 n && N.leb n 122)
   || (N.leb 48 n && N.leb n 57))%bool.

(** [/^[A-Za-z0-9_-]{1,128}$/.test(id)] *)
Definition isValidAppId (id : string) : bool :=
  forallb (fun c => is_alnum c || Ascii.eqb c "_" || Ascii.eqb c "-")
    (list_ascii_of_string id)
  && (1 <=? Z.of_nat (String.length id))
  && (Z.of_nat (String.length id) <=? 128).

(** [/^[A-Za-z0-9._-]{1,128}$/.test(file)] *)
Definition simple_filename (file : string) : bool :=
  forallb (fun c => is_alnum c || Ascii.eqb c "." || Ascii.eqb c "_"
                    || Ascii.eqb c "-")
    (list_ascii_of_string file)
  && (1 <=? Z.of_nat (String.length file))
  && (Z.of_nat (String.length file) <=? 128).

(** [new Set(['png', 'jpg', 'jpeg', 'webp']).has(ext)] *)
Definition allowed (ext : string) : bool :=
  bool_decide (ext = "png" \/ ext = "jpg" \/ ext = "jpeg" \/ ext = "webp").

(** [null] is [None]. *)
Definition validateFileName (file : string) : option string :=
  if includes file ".." || includes file "/" || includes file "\"
     || includes file (String "000" EmptyString)
  then None
  else if negb (simple_filename file) then None
  else if startsWith file "." then None
  else
    let extIndex := lastIndexOf file "." in
    if (extIndex <=? 0) || (extIndex =? Z.of_nat (String.length file) - 1)
    then None
    else
      let ext := toLowerCase (slice_from (Z.to_nat (extIndex + 1)) file) in
      if negb (allowed ext) then None else Some file.

(** [undefined] is [None]. *)
Definition getMimeByExtension (file : string) : option string :=
  let ext :=
    toLowerCase (slice_from (Z.to_nat (lastIndexOf file "." + 1)) file) in
  if bool_decide (ext = "png") then Some "image/png"
  else if bool_decide (ext = "jpg") then Some "image/jpeg"
  else if bool_decide (ext = "jpeg") then Some "image/jpeg"
  else if bool_decide (ext = "webp") then Some "image/webp"
  else None.

(** The key under which [serveScreenshot] looks the object up:
    [`screenshots/${appId}/${validatedFile}`]. *)
Definition screenshot_key (appId validatedFile : string) : string :=
  String.append "screenshots/"
    (String.append appId (String.append "/" validatedFile)).

End Screenshots.

(** * Vocabulary of the properties *)

(** ** Paths *)

(** A string that [normalizePath] leaves alone: no leading ['/'], not
    ['.'], no leading ['./']. *)
Definition canonical_b (r : string) : bool :=
  negb (startsWith r "/") && negb (bool_decide (r = "."))
  && negb (startsWith r "./").

(** The inputs on which a second [normalizePath] still changes the path:
    after the leading slashes comes ['./'] and then a rest that is not
    canonical. *)
Definition second_pass_changes (p : string) : bool :=
  match strip_leading_slashes p with
  | String c1 (String c2 rest) =>
      Ascii.eqb c1 "." && Ascii.eqb c2 "/" && negb (canonical_b rest)
  | _ => false
  end.

(** [parts.length] of a normalised path. *)
Definition depth (n : string) : Z := Z.of_nat (length (split_slash n)).

(** The paths of the proper ancestors, as the loop of [writeFile] builds
    them. *)
Definition ancestors (n : string) : list string :=
  (fun i => join_slash (firstn (i + 1) (split_slash n)))
    <$> seq 0 (length (split_slash n) - 1).



(** ** Tables *)

Definition key (r : Row) : string * Z := (path r, chunk_index r).

(** No two rows share [(path, chunk_index)]. *)
Definition primary_key_ok (t : Table) : Prop := NoDup (key <$> t).

(** No row of [t] is stored under path [p]. *)
Definition path_absent (t : Table) (p : string) : Prop :=
  Forall (fun r => path r <> p) t.

(** The chunk-0 row of [n], as the code reads it: [rows[0]] of the
    chunk-0 query. *)
Definition chunk0 (t : Table) (n : string) : option Row :=
  head (select_chunk0 t n).

(** [n] is stored as a directory. *)
Definition is_directory (t : Table) (n : string) : Prop :=
  exists r, chunk0 t n = Some r /\ is_dir r = 1.

(** Whether [writeFile]'s guard finds a directory at [n]. *)
Definition directory_at (t : Table) (n : string) : bool :=
  match select_chunk0 t n with
  | r :: _ => is_dir r =? 1
  | [] => false
  end.

(** What it means for [p] to read as [bytes]: [readFile] returns them and
    [stat] reports a file of their length. *)
Definition reads_as (t : Table) (p : string) (bytes : list byte) : Prop :=
  readFile t p = Ok bytes
  /\ exists st, stat t p = Ok st
                /\ st_size st = Z.of_nat (length bytes)
                /\ isFile st = true.

(** ** What the operations write *)

Definition bytes_of (data : WriteData) : list byte :=
  match data with Text s => TextEncoder_encode s | Bytes b => b end.

(** The rows a successful [writeFile] appends for the file itself. *)
Definition file_rows (n : string) (bytes : list byte) (now : Z) : list Row :=
  chunk_row n (parent_of n) bytes now
    <$> chunk_indexes (Z.of_nat (length bytes)).

(** The table just before the chunks of the file are inserted: the
    ancestors are ensured and the previous rows of [n] are deleted. *)
Definition before_chunks (t : Table) (n : string) (now : Z) : Table :=
  let parts := split_slash n in
  delete_path
    (if 1 <? Z.of_nat (length parts) then ensure_parents t parts now else t)
    n.

Definition ancestor_row (parts : list string) (now : Z) (i : nat) : Row :=
  dir_row (join_slash (firstn (i + 1) parts))
    (if Nat.eqb i 0 then "" else join_slash (firstn i parts)) now.

(** The row that [rename] writes for a source row. *)
Definition moved_row (newNorm newParent : string) (row : Row) : Row :=
  {| path := newNorm; chunk_index := chunk_index row;
     parent_path :=
       if chunk_index row =? 0 then newParent else parent_path row;
     data := data row; is_dir := is_dir row; size := size row;
     mtime := mtime row |}.

(** ** Base64 text *)

(** A string over the base64 alphabet and the padding character. *)
Definition base64_text (s : string) : Prop :=
  Forall (fun c => is_Some (b64_value c) \/ c = "="%char)
    (list_ascii_of_string s).

(** The number of bytes that [n] sextets decode to. *)
Definition decoded_length (n : Z) : Z :=
  3 * (n / 4) + (if n mod 4 =? 2 then 1 else if n mod 4 =? 3 then 2 else 0).

(** The character of a sextet: the inverse of [b64_value]. *)
Definition b64_char (v : N) : ascii :=
  if (v <? 26)%N then ascii_of_N (v + 65)
  else if (v <? 52)%N then ascii_of_N (v + 71)
  else if (v <? 62)%N then ascii_of_N (v - 4)
  else if (v =? 62)%N then "+"%char else "/"%char.

(** The sextets of a byte sequence, three bytes to four sextets. *)
Fixpoint sextets_of (ns : list N) : list N :=
  (match ns with
   | x :: y :: z :: rest =>
       x / 4 :: (x mod 4) * 16 + y / 16 :: (y mod 16) * 4 + z / 64
         :: z mod 64 :: sextets_of rest
   | [x; y] => [x / 4; (x mod 4) * 16 + y / 16; (y mod 16) * 4]
   | [x] => [x / 4; (x mod 4) * 16]
   | [] => []
   end)%N.

Definition padding_of (n : nat) : nat :=
  match (n mod 3)%nat with
  | 1%nat => 2%nat
  | 2%nat => 1%nat
  | _ => 0%nat
  end.

(** The standard base64 encoding with padding, as [btoa] produces it:
    the text that [atob] is defined to decode. *)
Definition base64_encode (bytes : list byte) : string :=
  string_of_list_ascii
    (List.map b64_char
       (sextets_of (List.map (fun b => N_of_ascii (ascii_of_byte b)) bytes))
     ++ repeat "="%char (padding_of (length bytes))).

(** ** Sample data and scenarios *)

(** The bytes of ['hello']. *)
Definition hello : list byte := [x68; x65; x6c; x6c; x6f].


(** An in-memory file system holding one two-byte file. *)
Definition one_file : MemFS.State :=
  {| MemFS.files := {[ "README.md" := [x68; x69] ]}; MemFS.symlinks := ∅ |}.

(** A v1 table with one legacy row: ['readme'] holding the base64 text of
    ['hello']. *)
Definition legacy_readme : V1Row :=
  {| v1_path := "readme"; v1_parent_path := ""; v1_data := SqlText "aGVsbG8=";
     v1_is_dir := 0; v1_mtime := 1000 |}.

(** The table after [mkdir('x')] on a fresh schema. *)
Definition dir_x : Table := createSchema 1000 ++ [dir_row "x" "" 2000].

(** The table after [writeFile('d/f', '1')] on a fresh schema. *)
Definition file_in_d : Table :=
  createSchema 1000
  ++ [dir_row "d" "" 3000;
      {| path := "d/f"; chunk_index := 0; parent_path := "d";
         data := SqlBlob [x31]; is_dir := 0; size := 1; mtime := 3000 |}].

(** [writeFile("a", "x")], then [writeFile("a/b", "y")], on a fresh
    schema: the row that says what the ancestor ['a'] is. *)
Definition file_below_file : result (list Z * list byte) :=
  let* t1 := writeFile (createSchema 1000) "a" (Text "x") 2000 2000 in
  let* t2 := writeFile t1 "a/b" (Text "y") 3000 3000 in
  let* b := readFile t2 "a/b" in
  Ok (is_dir <$> select_chunk0 t2 "a", b).

(** A file of [CHUNK_SIZE + 1] bytes 0xAB at ['b'] (two chunks), a one
    byte file at ['a'], then [rename('a', 'b')]: what [readFile('b')]
    and [stat('b').size] give, and what [readFile('a')] throws. *)
Definition rename_over_longer : result (list byte * Z * option ErrCode) :=
  let* t1 :=
    writeFile (createSchema 1000) "b"
      (Bytes (repeat xab (Z.to_nat (CHUNK_SIZE + 1)))) 2000 2000 in
  let* t2 := writeFile t1 "a" (Bytes [x01]) 3000 3000 in
  let* t3 := rename t2 "a" "b" in
  let* b := readFile t3 "b" in
  let* s := stat t3 "b" in
  Ok (b, st_size s, thrown_code (readFile t3 "a")).

(** ** Rows, orders and listings *)

(** The rows stored under the path [q]. *)
Definition rows_of (t : Table) (q : string) : list Row :=
  filter (fun r => path r = q) t.

(** The order of [ORDER BY path, chunk_index]. *)
Definition row_le (a b : Row) : Prop := row_leb a b = true.

(** The strict order of the paths. *)
Definition path_lt (a b : string) : Prop := String.compare a b = Lt.

(** [prefix] in [readdir] and [stat] of memfs.ts. *)
Definition dir_prefix (d : string) : string :=
  if bool_decide (MemPath.normalize d = "") then ""
  else String.append (MemPath.normalize d) "/".

(** The name under which [readdir] lists the key [k] below [prefix]. *)
Definition child_name (prefix k : string) : string :=
  MemFS.first_part (slice_from (String.length prefix) k).

(** The body of the two loops of [readdir]. *)
Definition readdir_visit (prefix : string) (results : list string)
  (p : string) : list string :=
  if startsWith p prefix then
    if bool_decide (child_name prefix p = "") then results
    else MemFS.set_add (child_name prefix p) results
  else results.

(** A repository with a loose object below ['.git/'], a ref below
    ['.GIT/'], and a file of the working tree. *)
Definition sample_repo : result Table :=
  let* t1 :=
    writeFile (createSchema 1000) ".git/objects/ab/cdef" (Bytes hello)
      2000 2000 in
  let* t2 := writeFile t1 ".GIT/HEAD" (Text "ref: refs/heads/main") 3000 3000 in
  writeFile t2 "src/a.ts" (Text "x") 4000 4000.

(** * Properties *)

#[local] Arguments Ascii.eqb : simpl never.

(** ** Path normalisation *)

Lemma strip_leading_slashes_length s :
  (String.length (strip_leading_slashes s) <= String.length s)%nat.
Proof.
  induction s as [|c s IH]; simpl; [lia|].
  destruct (Ascii.eqb c "/"); simpl; lia.
Qed.

Lemma strip_leading_slashes_head s :
  startsWith (strip_leading_slashes s) "/" = false.
Proof.
  induction s as [|c s IH]; simpl; [reflexivity|].
  destruct (Ascii.eqb c "/") eqn:E; [exact IH|].
  simpl. rewrite Ascii.eqb_sym, E. reflexivity.
Qed.

Lemma strip_leading_slashes_id s :
  startsWith s "/" = false -> strip_leading_slashes s = s.
Proof.
  destruct s as [|c s]; simpl; [reflexivity|].
  rewrite Ascii.eqb_sym. destruct (Ascii.eqb c "/"); simpl; [|reflexivity].
  destruct s; discriminate.
Qed.

Lemma strip_dot_slash_length s :
  (String.length (strip_dot_slash s) <= String.length s)%nat.
Proof.
  destruct s as [|c1 [|c2 s]]; simpl; try lia.
  destruct (Ascii.eqb c1 "." && Ascii.eqb c2 "/"); simpl; lia.
Qed.

Lemma strip_dot_slash_id s :
  startsWith s "./" = false -> strip_dot_slash s = s.
Proof.
  destruct s as [|c1 [|c2 s]]; simpl; try reflexivity.
  rewrite (Ascii.eqb_sym "." c1), (Ascii.eqb_sym "/" c2).
  destruct (Ascii.eqb c1 "."), (Ascii.eqb c2 "/"); simpl; try reflexivity.
  destruct s; discriminate.
Qed.

Lemma normalizePath_canonical r :
  canonical_b r = true -> normalizePath r = r.
Proof.
  unfold canonical_b, normalizePath. intros H.
  apply andb_prop in H as [H H3]. apply andb_prop in H as [H1 H2].
  apply negb_true_iff in H1, H2, H3.
  rewrite strip_leading_slashes_id by exact H1.
  apply bool_decide_eq_false in H2.
  rewrite bool_decide_eq_false_2.
  - apply strip_dot_slash_id, H3.
  - intros [E|E]; [contradiction|]. subst r. discriminate.
Qed.

Lemma normalizePath_length r :
  (String.length (normalizePath r)
   <= String.length (strip_leading_slashes r))%nat.
Proof.
  unfold normalizePath. case_bool_decide; simpl; [lia|].
  apply strip_dot_slash_length.
Qed.

Lemma length_neq (s t : string) :
  (String.length s < String.length t)%nat -> s <> t.
Proof. intros H E. subst. lia. Qed.

Lemma normalizePath_fixpoint r :
  normalizePath r = r <-> canonical_b r = true.
Proof.
  split; [|apply normalizePath_canonical].
  intros H. unfold canonical_b.
  destruct (startsWith r "/") eqn:E1; cbn [negb andb].
  { exfalso. revert H. apply length_neq.
    pose proof (normalizePath_length r) as L.
    destruct r as [|c r]; [discriminate|]. simpl in E1, L.
    rewrite Ascii.eqb_sym, andb_true_r in E1. rewrite E1 in L.
    pose proof (strip_leading_slashes_length r). simpl. lia. }
  case_bool_decide as E2; cbn [negb andb].
  { subst r. discriminate. }
  destruct (startsWith r "./") eqn:E3; [|reflexivity]. exfalso.
  destruct r as [|c1 [|c2 r]]; simpl in E3;
    [discriminate | rewrite andb_false_r in E3; discriminate |].
  rewrite (Ascii.eqb_sym "." c1), (Ascii.eqb_sym "/" c2) in E3.
  destruct (Ascii.eqb c1 ".") eqn:F1; [|discriminate].
  destruct (Ascii.eqb c2 "/") eqn:F2; [|discriminate].
  apply Ascii.eqb_eq in F1, F2. subst c1 c2.
  revert H. unfold normalizePath. simpl strip_leading_slashes.
  change (Ascii.eqb "." "/") with false. cbv iota.
  case_bool_decide; [discriminate|].
  simpl. change (Ascii.eqb "." "." && Ascii.eqb "/" "/") with true. cbv iota.
  apply length_neq. simpl. lia.
Qed.

Lemma normalizePath_twice p :
  normalizePath (normalizePath p) = normalizePath p
  <-> second_pass_changes p = false.
Proof.
  rewrite normalizePath_fixpoint.
  unfold second_pass_changes, normalizePath.
  pose proof (strip_leading_slashes_head p) as H.
  destruct (strip_leading_slashes p) as [|c1 [|c2 rest]].
  - simpl. split; reflexivity.
  - simpl in H. rewrite Ascii.eqb_sym in H.
    case_bool_decide as E.
    + split; reflexivity.
    + simpl. split; [reflexivity|]. intros _. unfold canonical_b. simpl.
      rewrite (Ascii.eqb_sym "/" c1), H. simpl.
      rewrite bool_decide_eq_false_2; [|intros E'; apply E; left; exact E'].
      simpl. rewrite andb_false_r. reflexivity.
  - simpl in H. rewrite Ascii.eqb_sym in H.
    case_bool_decide as E.
    + destruct E as [E|E]; [discriminate|]. injection E as -> -> ->.
      split; reflexivity.
    + unfold strip_dot_slash.
      destruct (Ascii.eqb c1 "." && Ascii.eqb c2 "/") eqn:F; simpl.
      * rewrite negb_false_iff. reflexivity.
      * split; [reflexivity|]. intros _. unfold canonical_b. simpl.
        rewrite (Ascii.eqb_sym "/" c1), H. simpl.
        rewrite bool_decide_eq_false_2 by discriminate. simpl.
        rewrite (Ascii.eqb_sym "." c1), (Ascii.eqb_sym "/" c2), andb_true_r, F.
        reflexivity.
Qed.

Lemma mem_normalize_idempotent p :
  MemPath.normalize (MemPath.normalize p) = MemPath.normalize p.
Proof.
  unfold MemPath.normalize.
  apply strip_leading_slashes_id, strip_leading_slashes_head.
Qed.

(** C5, as the specification states it, fails: the second pass over
    ['././a'] removes another ['./'], and the [normalize] of the in-memory
    file system does not touch ['./a']. *)
Lemma normalizePath_not_idempotent :
  normalizePath "././a" = "./a"
  /\ normalizePath (normalizePath "././a") = "a"
  /\ MemPath.normalize "./a" = "./a".
Proof. repeat split. Qed.

(** C5 (amended).  [normalizePath] maps ['/a'], ['a'] and ['./a'] to
    ['a'], and applying it twice gives the same as applying it once exactly
    on the inputs where, after the leading slashes, a leading ['./'] is
    not followed by a ['/'], a ['./'] or a lone ['.'].  The [normalize] of
    the in-memory file system, which strips leading slashes only, is
    idempotent on every input and leaves ['./a'] as it is. *)
Theorem normalizePath_idempotent_iff :
  (forall p,
     normalizePath (normalizePath p) = normalizePath p
     <-> second_pass_changes p = false)
  /\ normalizePath "/a" = "a"
  /\ normalizePath "a" = "a"
  /\ normalizePath "./a" = "a"
  /\ (forall p,
        MemPath.normalize (MemPath.normalize p) = MemPath.normalize p)
  /\ MemPath.normalize "/a" = "a"
  /\ MemPath.normalize "a" = "a"
  /\ MemPath.normalize "./a" = "./a".
Proof.
  split; [exact normalizePath_twice|].
  repeat split; try reflexivity.
  exact mem_normalize_idempotent.
Qed.

(** A path with one ['./'] behind its leading slashes is stable. *)
Lemma normalizePath_idempotent_iff_witness :
  normalizePath (normalizePath "//./src/a.ts") = normalizePath "//./src/a.ts".
Proof.
  apply (proj1 normalizePath_idempotent_iff "//./src/a.ts"). reflexivity.
Defined.

(** ** Segments of a path *)

Lemma split_slash_nonempty s : split_slash s <> [].
Proof.
  destruct s as [|c s]; simpl; [discriminate|].
  destruct (Ascii.eqb c "/"); [discriminate|].
  destruct (split_slash s); discriminate.
Qed.

Lemma join_slash_cons x y rest :
  join_slash (x :: y :: rest)
  = String.append x (String "/" (join_slash (y :: rest))).
Proof. reflexivity. Qed.

Lemma join_split s : join_slash (split_slash s) = s.
Proof.
  induction s as [|c s IH]; [reflexivity|].
  simpl. destruct (Ascii.eqb c "/") eqn:E.
  - apply Ascii.eqb_eq in E. subst c.
    pose proof (split_slash_nonempty s) as Hne.
    destruct (split_slash s) as [|y rest]; [contradiction|].
    rewrite join_slash_cons, IH. reflexivity.
  - pose proof (split_slash_nonempty s) as Hne.
    destruct (split_slash s) as [|y rest]; [contradiction|].
    destruct rest as [|z rest].
    + simpl in *. congruence.
    + rewrite join_slash_cons in *. rewrite <- IH. reflexivity.
Qed.

Lemma append_length a b :
  String.length (String.append a b) = (String.length a + String.length b)%nat.
Proof.
  induction a as [|c a IH]; simpl; [reflexivity | rewrite IH; reflexivity].
Qed.

(** Joining fewer segments gives a shorter string. *)
Lemma join_firstn_shorter parts : forall k,
  (1 <= k < length parts)%nat ->
  (String.length (join_slash (firstn k parts))
   < String.length (join_slash parts))%nat.
Proof.
  induction parts as [|x parts IH]; intros k Hk; [simpl in Hk; lia|].
  destruct parts as [|y rest]; [simpl in Hk; lia|].
  rewrite join_slash_cons, append_length. cbn [String.length].
  destruct k as [|[|k]]; [lia | simpl; lia |].
  specialize (IH (S k) ltac:(simpl in *; lia)).
  change (firstn (S (S k)) (x :: y :: rest))
    with (x :: firstn (S k) (y :: rest)).
  destruct (firstn (S k) (y :: rest)) as [|z l] eqn:E; [discriminate|].
  rewrite join_slash_cons, append_length. cbn [String.length]. lia.
Qed.

Lemma ancestor_neq n a : a ∈ ancestors n -> a <> n.
Proof.
  unfold ancestors. intros Ha.
  apply list_elem_of_fmap in Ha as (i & -> & Hi).
  apply elem_of_seq in Hi. intros E.
  pose proof (join_firstn_shorter (split_slash n) (i + 1) ltac:(lia)) as H.
  rewrite E, join_split in H. lia.
Qed.

(** ** Loops that may throw *)

Lemma for_each_fmap {S X Y} (body : S -> Y -> result S) (f : X -> Y) xs :
  forall s,
    for_each (fun s x => body s (f x)) xs s = for_each body (f <$> xs) s.
Proof.
  induction xs as [|x xs IH]; intros s; simpl; [reflexivity|].
  destruct (body s (f x)); simpl; [apply IH | reflexivity].
Qed.

Lemma fold_left_fmap {S X Y} (f : S -> Y -> S) (g : X -> Y) xs : forall s,
  fold_left (fun s x => f s (g x)) xs s = fold_left f (g <$> xs) s.
Proof.
  induction xs as [|x xs IH]; intros s; [reflexivity|]. simpl. apply IH.
Qed.

Lemma map_result_ok {X Y} (f : X -> result Y) (g : X -> Y) xs :
  Forall (fun x => f x = Ok (g x)) xs -> map_result f xs = Ok (g <$> xs).
Proof.
  induction 1 as [|x xs Hx _ IH]; simpl; [reflexivity|].
  rewrite Hx, IH. reflexivity.
Qed.

Lemma map_result_fmap {X Y W} (f : Y -> result W) (g : X -> Y) xs :
  map_result f (g <$> xs) = map_result (fun x => f (g x)) xs.
Proof.
  induction xs as [|x xs IH]; [reflexivity|].
  rewrite fmap_cons. cbn [map_result]. rewrite IH. reflexivity.
Qed.

(** ** Queries and statements on the table *)

Section Filter.
  Context {A : Type} (P : A -> Prop) `{!forall x, Decision (P x)}.

Lemma filter_none (l : list A) : Forall (fun x => ~ P x) l -> filter P l = [].
  Proof.
    induction 1 as [|x l Hx _ IH]; [reflexivity|].
    rewrite filter_cons_False by exact Hx. exact IH.
  Qed.

Lemma filter_all (l : list A) : Forall P l -> filter P l = l.
  Proof.
    induction 1 as [|x l Hx _ IH]; [reflexivity|].
    rewrite filter_cons_True by exact Hx. f_equal. exact IH.
  Qed.
End Filter.

Lemma filter_iff_elem {A} (P Q : A -> Prop)
  `{!forall x, Decision (P x)} `{!forall x, Decision (Q x)} (l : list A) :
  (forall x, x ∈ l -> P x <-> Q x) -> filter P l = filter Q l.
Proof.
  intros Hext. induction l as [|x l IH]; [reflexivity|].
  rewrite !filter_cons.
  rewrite IH by (intros y Hy; apply Hext; right; exact Hy).
  destruct (decide (P x)) as [HP|HP], (decide (Q x)) as [HQ|HQ];
    try reflexivity; exfalso;
    pose proof (Hext x ltac:(left)); tauto.
Qed.

Lemma delete_path_absent t p : path_absent (delete_path t p) p.
Proof.
  apply Forall_forall. intros r Hr.
  apply list_elem_of_filter in Hr. tauto.
Qed.

Lemma path_absent_select_path t p :
  path_absent t p -> filter (fun r => path r = p) t = [].
Proof. intros H. apply filter_none. exact H. Qed.

Lemma path_absent_select_chunk0 t p :
  path_absent t p -> select_chunk0 t p = [].
Proof.
  intros H. apply filter_none. eapply Forall_impl; [exact H|].
  intros r Hr [E _]. contradiction.
Qed.

Lemma select_chunk0_delete_other t p q :
  q <> p -> select_chunk0 (delete_path t p) q = select_chunk0 t q.
Proof.
  intros Hq. unfold select_chunk0, delete_path.
  rewrite list_filter_filter.
  apply list_filter_iff. intros r. unfold has_key. split.
  - tauto.
  - intros [E1 E2]. repeat split; congruence.
Qed.

Lemma chunk0_None t n : chunk0 t n = None <-> select_chunk0 t n = [].
Proof.
  unfold chunk0. destruct (select_chunk0 t n); simpl; split; congruence.
Qed.

Lemma chunk0_Some t n r :
  chunk0 t n = Some r <-> exists rest, select_chunk0 t n = r :: rest.
Proof.
  unfold chunk0. destruct (select_chunk0 t n) as [|x rest]; simpl; split.
  - discriminate.
  - intros [? ?]. discriminate.
  - intros [= ->]. eauto.
  - intros [? [= -> _]]. reflexivity.
Qed.

Lemma chunk0_delete_path t n : chunk0 (delete_path t n) n = None.
Proof.
  apply chunk0_None, path_absent_select_chunk0, delete_path_absent.
Qed.

Lemma key_present_false t r :
  Forall (fun x => path x = path r -> chunk_index x <> chunk_index r) t ->
  key_present t r = false.
Proof.
  intros H. unfold key_present. apply bool_decide_eq_false.
  rewrite Exists_exists. intros (x & Hx & E1 & E2).
  rewrite Forall_forall in H. exact (H x Hx E1 E2).
Qed.

Lemma key_absent_chunk0 t r :
  chunk_index r = 0 -> select_chunk0 t (path r) = [] ->
  key_present t r = false.
Proof.
  intros Hi Hsel. unfold key_present. apply bool_decide_eq_false.
  rewrite Exists_exists. intros (x & Hx & Hk).
  rewrite Hi in Hk.
  exact (filter_nil_not_elem_of _ _ x Hsel Hk Hx).
Qed.

(** A run of plain [INSERT]s of rows of one path with distinct chunk
    indexes, none of them stored yet, succeeds and appends the rows. *)
Lemma insert_fresh_rows p rows : forall t,
  Forall (fun r => path r = p) rows ->
  NoDup (chunk_index <$> rows) ->
  Forall (fun x => path x = p -> chunk_index x ∉ chunk_index <$> rows) t ->
  for_each insert rows t = Ok (t ++ rows).
Proof.
  induction rows as [|r rows IH]; intros t Hp Hnd Ht.
  - simpl. rewrite app_nil_r. reflexivity.
  - inversion Hp as [|? ? Hr Hp']; subst.
    rewrite fmap_cons in Hnd. apply NoDup_cons in Hnd as [Hnotin Hnd].
    simpl. unfold insert at 1. rewrite key_present_false.
    + simpl.
      rewrite IH; [rewrite <- app_assoc; reflexivity | exact Hp' | exact Hnd |].
      apply Forall_app. split.
      * eapply Forall_impl; [exact Ht|]. intros x Hx E Hin.
        apply (Hx E). rewrite fmap_cons. right. exact Hin.
      * apply Forall_singleton. intros _. exact Hnotin.
    + eapply Forall_impl; [exact Ht|]. intros x Hx E1 E2.
      apply (Hx E1). rewrite fmap_cons, E2. left.
  Qed.

(** ** The primary key *)

Lemma has_key_key p i r : has_key p i r <-> key r = (p, i).
Proof.
  unfold has_key, key. split; [intros [-> ->]; reflexivity|].
  intros [= -> ->]. auto.
Qed.

Lemma key_present_iff t r : key_present t r = true <-> key r ∈ key <$> t.
Proof.
  unfold key_present. rewrite bool_decide_eq_true, Exists_exists.
  rewrite list_elem_of_fmap. split.
  - intros (x & Hx & Hk). apply has_key_key in Hk. eauto.
  - intros (x & Hk & Hx). exists x. split; [exact Hx|].
    apply has_key_key. symmetry. exact Hk.
Qed.

Lemma key_present_app t x r :
  key_present t r = true -> key_present (t ++ x) r = true.
Proof.
  rewrite !key_present_iff, fmap_app, elem_of_app. auto.
Qed.

Lemma key_present_insert_or_ignore t r :
  key_present (insert_or_ignore t r) r = true.
Proof.
  unfold insert_or_ignore. destruct (key_present t r) eqn:E; [exact E|].
  apply key_present_iff. rewrite fmap_app, elem_of_app. right. left.
Qed.

Lemma primary_key_snoc t r :
  primary_key_ok t -> key_present t r = false -> primary_key_ok (t ++ [r]).
Proof.
  unfold primary_key_ok. intros Ht Hr. rewrite fmap_app.
  apply NoDup_app. split; [exact Ht|]. split.
  - intros k Hk Hk'. apply list_elem_of_singleton in Hk'. subst k.
    apply key_present_iff in Hk. congruence.
  - apply NoDup_singleton.
Qed.

Lemma insert_inv t r t' :
  insert t r = Ok t' -> t' = t ++ [r] /\ key_present t r = false.
Proof.
  unfold insert. destruct (key_present t r); [discriminate|].
  intros [= <-]. auto.
Qed.

Lemma insert_primary_key t r t' :
  primary_key_ok t -> insert t r = Ok t' -> primary_key_ok t'.
Proof.
  intros Ht H. apply insert_inv in H as [-> Hr].
  apply primary_key_snoc; assumption.
Qed.

Lemma insert_or_ignore_primary_key t r :
  primary_key_ok t -> primary_key_ok (insert_or_ignore t r).
Proof.
  intros Ht. unfold insert_or_ignore.
  destruct (key_present t r) eqn:E; [exact Ht|].
  apply primary_key_snoc; assumption.
Qed.

Lemma insert_or_ignore_elem t r x : x ∈ t -> x ∈ insert_or_ignore t r.
Proof.
  intros Hx. unfold insert_or_ignore.
  destruct (key_present t r); [exact Hx|]. apply elem_of_app. auto.
Qed.

Lemma for_each_insert_inv rs : forall t t',
  primary_key_ok t -> for_each insert rs t = Ok t' ->
  t' = t ++ rs /\ primary_key_ok t'.
Proof.
  induction rs as [|r rs IH]; intros t t' Ht; simpl.
  - intros [= <-]. rewrite app_nil_r. auto.
  - destruct (insert t r) as [t1|] eqn:E; [|discriminate]. simpl.
    intros H. pose proof (insert_primary_key _ _ _ Ht E) as Ht1.
    apply insert_inv in E as [-> _].
    destruct (IH _ _ Ht1 H) as [-> Hpk].
    split; [rewrite <- app_assoc; reflexivity | exact Hpk].
Qed.

Lemma for_each_insert_fresh rs : forall t,
  primary_key_ok (t ++ rs) -> for_each insert rs t = Ok (t ++ rs).
Proof.
  induction rs as [|r rs IH]; intros t Hpk; simpl.
  - rewrite app_nil_r. reflexivity.
  - assert (key_present t r = false) as Hr.
    { destruct (key_present t r) eqn:E; [|reflexivity].
      apply key_present_iff in E. exfalso.
      unfold primary_key_ok in Hpk. rewrite fmap_app, fmap_cons in Hpk.
      apply NoDup_app in Hpk as (_ & Hdisj & _).
      apply (Hdisj _ E). left. }
    unfold insert at 1. rewrite Hr. simpl.
    rewrite (app_assoc t [r] rs : t ++ r :: rs = (t ++ [r]) ++ rs) in Hpk |- *.
    apply IH, Hpk.
Qed.

(** Under the primary key a stored row is the only answer to the query
    for its key. *)
Lemma select_by_key t r :
  primary_key_ok t -> r ∈ t ->
  filter (has_key (path r) (chunk_index r)) t = [r].
Proof.
  unfold primary_key_ok. induction t as [|x t IH]; intros Hnd Hr.
  - inversion Hr.
  - rewrite fmap_cons in Hnd. apply NoDup_cons in Hnd as [Hx Hnd].
    assert (forall y, y ∈ t -> key y <> key x) as Hother.
    { intros y Hy E. apply Hx. rewrite <- E.
      apply list_elem_of_fmap. eauto. }
    apply elem_of_cons in Hr as [-> | Hr].
    + rewrite filter_cons_True by (split; reflexivity). f_equal.
      apply filter_none, Forall_forall. intros y Hy Hk.
      apply has_key_key in Hk. exact (Hother y Hy Hk).
    + rewrite filter_cons_False; [exact (IH Hnd Hr)|].
      intros Hk. apply has_key_key in Hk. exact (Hother r Hr (eq_sym Hk)).
Qed.

Lemma primary_key_path_indexes t p :
  primary_key_ok t -> NoDup (chunk_index <$> filter (fun r => path r = p) t).
Proof.
  unfold primary_key_ok. intros H.
  apply (NoDup_fmap_1 (fun i => (p, i))).
  rewrite <- list_fmap_compose.
  assert ((fun i => (p, i)) ∘ chunk_index <$> filter (fun r => path r = p) t
          = key <$> filter (fun r => path r = p) t) as ->.
  { apply list_fmap_ext. intros i x Hx. unfold key. simpl.
    apply list_elem_of_lookup_2, list_elem_of_filter in Hx as [<- _].
    reflexivity. }
  apply (sublist_NoDup _ (key <$> t) H).
  apply fmap_sublist, sublist_filter.
Qed.

(** A run of [INSERT OR IGNORE]s appends some of its rows, and afterwards
    the key of each of them is stored. *)
Lemma insert_or_ignore_run rows : forall t,
  exists extra,
    fold_left insert_or_ignore rows t = t ++ extra
    /\ Forall (fun x => x ∈ rows) extra
    /\ Forall (fun r => key_present (t ++ extra) r = true) rows.
Proof.
  induction rows as [|r rows IH]; intros t.
  - exists []. rewrite app_nil_r. repeat split; constructor.
  - destruct (IH (insert_or_ignore t r)) as (extra & E & Hin & Hkeys).
    assert (exists e1, insert_or_ignore t r = t ++ e1
                       /\ Forall (fun x => x = r) e1) as (e1 & E1 & He1).
    { unfold insert_or_ignore. destruct (key_present t r).
      - exists []. rewrite app_nil_r. split; [reflexivity|constructor].
      - exists [r]. split; [reflexivity|]. repeat constructor. }
    exists (e1 ++ extra). simpl. rewrite E, E1, <- app_assoc.
    split; [reflexivity|]. split.
    + apply Forall_app. split.
      * eapply Forall_impl; [exact He1|]. intros x ->. left.
      * eapply Forall_impl; [exact Hin|]. intros x Hx. right. exact Hx.
    + rewrite E1, <- app_assoc in Hkeys. constructor; [|exact Hkeys].
      rewrite app_assoc, <- E1. apply key_present_app.
      apply key_present_insert_or_ignore.
Qed.

(** A run of [INSERT OR REPLACE]s of rows of one path with distinct chunk
    indexes removes the stored rows of these keys and appends the rows. *)
Lemma insert_or_replace_run nb rows : forall t,
  Forall (fun r => path r = nb) rows ->
  NoDup (chunk_index <$> rows) ->
  fold_left insert_or_replace rows t
  = filter (fun x => ~ (path x = nb
                        /\ chunk_index x ∈ chunk_index <$> rows)) t
    ++ rows.
Proof.
  induction rows as [|r rows IH]; intros t Hp Hnd.
  - simpl. rewrite app_nil_r. symmetry. apply filter_all, Forall_forall.
    intros x _ [_ H]. inversion H.
  - inversion Hp as [|? ? Hr Hp']; subst.
    rewrite fmap_cons in Hnd. apply NoDup_cons in Hnd as [Hnotin Hnd].
    simpl. rewrite (IH _ Hp' Hnd). unfold insert_or_replace.
    rewrite filter_app, list_filter_filter.
    rewrite (filter_all _ [r]).
    + rewrite <- app_assoc. f_equal.
      apply filter_iff_elem. intros x _. unfold has_key. cbv beta.
      rewrite elem_of_cons.
      split; [intros [H1 H2] [E [H|H]]; tauto|].
      intros H. split; intros [E H']; apply H; tauto.
    + apply Forall_singleton. intros [_ H]. contradiction.
Qed.

(** ** ORDER BY chunk_index *)

Lemma insert_by_chunk_perm r l : insert_by_chunk r l ≡ₚ r :: l.
Proof.
  induction l as [|x l IH]; [reflexivity|]. simpl.
  destruct (chunk_index r <=? chunk_index x); [reflexivity|].
  rewrite IH. apply Permutation_swap.
Qed.

Lemma order_by_chunk_perm l : order_by_chunk l ≡ₚ l.
Proof.
  induction l as [|x l IH]; [reflexivity|].
  unfold order_by_chunk in *. simpl.
  rewrite insert_by_chunk_perm, IH. reflexivity.
Qed.

Lemma insert_by_chunk_sorted r l :
  StronglySorted (fun a b => chunk_index a <= chunk_index b) l ->
  StronglySorted (fun a b => chunk_index a <= chunk_index b)
    (insert_by_chunk r l).
Proof.
  induction 1 as [|x l Hs IH Hx]; simpl.
  - repeat constructor.
  - destruct (chunk_index r <=? chunk_index x) eqn:E.
    + apply Z.leb_le in E. constructor; [constructor; assumption|].
      constructor; [exact E|].
      eapply Forall_impl; [exact Hx|]. intros y Hy. simpl in *. lia.
    + apply Z.leb_gt in E. constructor; [exact IH|].
      rewrite (insert_by_chunk_perm r l).
      constructor; [lia | exact Hx].
Qed.

Lemma order_by_chunk_ordered l :
  StronglySorted (fun a b => chunk_index a <= chunk_index b)
    (order_by_chunk l).
Proof.
  induction l as [|x l IH]; [constructor|].
  apply insert_by_chunk_sorted, IH.
Qed.

Lemma order_by_chunk_sorted l :
  StronglySorted (fun a b => chunk_index a <= chunk_index b) l ->
  order_by_chunk l = l.
Proof.
  induction 1 as [|x l Hs IH Hx]; [reflexivity|].
  unfold order_by_chunk in *. simpl. rewrite IH.
  destruct l as [|y l']; [reflexivity|]. simpl.
  inversion Hx as [|? ? Hxy _]; subst.
  apply Z.leb_le in Hxy. rewrite Hxy. reflexivity.
Qed.

(** ** Chunking *)

Lemma CHUNK_SIZE_eq : CHUNK_SIZE = 1843200.
Proof. reflexivity. Qed.

(** [ceil_div a b] is the least [n] with [a <= n * b]. *)
Lemma ceil_div_least a b :
  0 <= a -> 0 < b ->
  a <= ceil_div a b * b /\ forall n, a <= n * b -> ceil_div a b <= n.
Proof.
  intros Ha Hb. unfold ceil_div.
  pose proof (Z.div_mod a b ltac:(lia)) as E.
  pose proof (Z.mod_pos_bound a b Hb) as B.
  destruct (a mod b =? 0) eqn:M.
  - apply Z.eqb_eq in M. split; [nia|]. intros n Hn. nia.
  - apply Z.eqb_neq in M. split; [nia|]. intros n Hn. nia.
Qed.

Lemma chunk_count_pos s : 1 <= chunk_count s.
Proof. unfold chunk_count. lia. Qed.

Lemma chunk_count_covers s : 0 <= s -> s <= chunk_count s * CHUNK_SIZE.
Proof.
  intros Hs. unfold chunk_count.
  destruct (ceil_div_least s CHUNK_SIZE Hs ltac:(reflexivity)) as [H _].
  rewrite CHUNK_SIZE_eq in *. lia.
Qed.


Lemma chunk_count_small s : 0 <= s <= CHUNK_SIZE -> chunk_count s = 1.
Proof.
  intros Hs. unfold chunk_count.
  destruct (ceil_div_least s CHUNK_SIZE ltac:(lia) ltac:(reflexivity))
    as [_ H].
  specialize (H 1 ltac:(lia)). lia.
Qed.

Lemma elem_of_chunk_indexes s i :
  i ∈ chunk_indexes s <-> 0 <= i < chunk_count s.
Proof.
  unfold chunk_indexes. pose proof (chunk_count_pos s).
  rewrite list_elem_of_fmap. split.
  - intros (k & -> & Hk). apply elem_of_seq in Hk. lia.
  - intros Hi. exists (Z.to_nat i). split; [lia|]. apply elem_of_seq. lia.
Qed.


Lemma of_nat_seq_sorted a k :
  StronglySorted Z.le (List.map Z.of_nat (seq a k)).
Proof.
  revert a. induction k as [|k IH]; intros a; simpl; constructor.
  - apply IH.
  - apply Forall_forall. intros z Hz.
    apply list_elem_of_fmap in Hz as (j & -> & Hj).
    apply elem_of_seq in Hj. lia.
Qed.

Lemma of_nat_seq_NoDup a k : NoDup (List.map Z.of_nat (seq a k)).
Proof.
  apply (NoDup_fmap_2 Z.of_nat). apply NoDup_seq.
Qed.

Lemma chunk_indexes_head s :
  exists rest, chunk_indexes s = 0 :: rest /\ Forall (fun i => 0 < i) rest.
Proof.
  unfold chunk_indexes. pose proof (chunk_count_pos s).
  destruct (Z.to_nat (chunk_count s)) as [|k] eqn:E; [lia|].
  simpl. eexists. split; [reflexivity|].
  apply Forall_forall. intros z Hz.
  apply list_elem_of_fmap in Hz as (j & -> & Hj).
  apply elem_of_seq in Hj. lia.
Qed.

Lemma file_rows_indexes n bytes now :
  chunk_index <$> file_rows n bytes now
  = chunk_indexes (Z.of_nat (length bytes)).
Proof.
  unfold file_rows. rewrite <- list_fmap_compose.
  rewrite <- (list_fmap_id (chunk_indexes _)) at 2.
  apply list_fmap_ext. intros i z _. reflexivity.
Qed.

Lemma file_rows_path n bytes now :
  Forall (fun r => path r = n) (file_rows n bytes now).
Proof.
  unfold file_rows. apply Forall_fmap, Forall_forall. intros; reflexivity.
Qed.

Lemma file_rows_sorted n bytes now :
  StronglySorted (fun a b => chunk_index a <= chunk_index b)
    (file_rows n bytes now).
Proof.
  pose proof (of_nat_seq_sorted 0
    (Z.to_nat (chunk_count (Z.of_nat (length bytes))))) as H.
  unfold file_rows, chunk_indexes.
  induction H as [|i l _ IH Hi]; simpl; constructor; [exact IH|].
  apply Forall_fmap. exact Hi.
Qed.



(** The rows of a freshly written file: chunk 0, then the later chunks. *)
Lemma file_rows_cons n bytes now :
  exists rest,
    file_rows n bytes now = chunk_row n (parent_of n) bytes now 0 :: rest
    /\ Forall (fun r => path r = n /\ 0 < chunk_index r
                        /\ parent_path r = "" /\ size r = 0) rest.
Proof.
  unfold file_rows.
  destruct (chunk_indexes_head (Z.of_nat (length bytes))) as (idx & -> & H).
  rewrite fmap_cons. eexists. split; [reflexivity|].
  apply Forall_fmap. eapply Forall_impl; [exact H|].
  intros i Hi. unfold chunk_row. simpl.
  destruct (i =? 0) eqn:E; [apply Z.eqb_eq in E; exfalso; simpl in Hi; lia|].
  simpl in Hi. auto.
Qed.

(** The slices of the chunks, put back together, are the bytes. *)
Lemma slices_prefix (bytes : list byte) (k : nat) :
  List.concat
    (List.map (fun i => slice bytes (i * CHUNK_SIZE)
                  (Z.min (i * CHUNK_SIZE + CHUNK_SIZE)
                         (Z.of_nat (length bytes))))
       (List.map Z.of_nat (seq 0 k)))
  = take (k * Z.to_nat CHUNK_SIZE) bytes.
Proof.
  induction k as [|k IH]; [reflexivity|].
  rewrite seq_S, !List.map_app, concat_app, IH.
  cbn [List.map List.concat Nat.add]. rewrite app_nil_r. unfold slice.
  replace (Z.to_nat (Z.of_nat k * CHUNK_SIZE))
    with (k * Z.to_nat CHUNK_SIZE)%nat by (rewrite CHUNK_SIZE_eq; lia).
  rewrite take_take_drop.
  destruct (Z_le_gt_dec (Z.of_nat k * CHUNK_SIZE + CHUNK_SIZE)
              (Z.of_nat (length bytes))) as [Hle|Hgt].
  - f_equal. rewrite CHUNK_SIZE_eq in *. lia.
  - rewrite !take_ge; [reflexivity| |]; rewrite CHUNK_SIZE_eq in *; lia.
Qed.

Lemma slices_all (bytes : list byte) :
  List.concat
    (List.map (fun i => slice bytes (i * CHUNK_SIZE)
                  (Z.min (i * CHUNK_SIZE + CHUNK_SIZE)
                         (Z.of_nat (length bytes))))
       (chunk_indexes (Z.of_nat (length bytes))))
  = bytes.
Proof.
  unfold chunk_indexes. rewrite slices_prefix.
  apply take_ge.
  pose proof (chunk_count_covers (Z.of_nat (length bytes)) ltac:(lia)).
  pose proof (chunk_count_pos (Z.of_nat (length bytes))).
  rewrite CHUNK_SIZE_eq in *. nia.
Qed.

Lemma concatBuffers_concat chunks : concatBuffers chunks = List.concat chunks.
Proof.
  destruct chunks as [|c [|c' l]]; simpl; try reflexivity.
  rewrite app_nil_r. reflexivity.
Qed.

(** ** writeFile, then readFile and stat *)

Lemma before_chunks_absent t n now : path_absent (before_chunks t n now) n.
Proof. apply delete_path_absent. Qed.

Lemma insert_file_rows t n bytes now :
  path_absent t n ->
  for_each insert (file_rows n bytes now) t = Ok (t ++ file_rows n bytes now).
Proof.
  intros Ht. apply (insert_fresh_rows n).
  - apply file_rows_path.
  - rewrite file_rows_indexes. apply of_nat_seq_NoDup.
  - eapply Forall_impl; [exact Ht|]. intros x Hx E. contradiction.
Qed.

(** What [writeFile] returns, case by case. *)
Lemma writeFile_eq t p data nd now :
  writeFile t p data nd now =
    let n := normalizePath p in
    if bool_decide (n = "") then Throw (PlainError "Cannot write to root")
    else if directory_at t n then
      Throw (makeErrno
        (quoted "EISDIR: illegal operation on a directory, open '" p)
        EISDIR (-21) p)
    else Ok (before_chunks t n nd ++ file_rows n (bytes_of data) now).
Proof.
  unfold writeFile, directory_at. cbv zeta.
  case_bool_decide; [reflexivity|].
  destruct (match select_chunk0 t (normalizePath p) with
            | [] => false | r :: _ => is_dir r =? 1 end); [reflexivity|].
  rewrite for_each_fmap.
  apply (insert_file_rows _ _ (bytes_of data)), before_chunks_absent.
Qed.

Lemma writeFile_inv t p data nd now t' :
  writeFile t p data nd now = Ok t' ->
  normalizePath p <> ""
  /\ directory_at t (normalizePath p) = false
  /\ t' = before_chunks t (normalizePath p) nd
          ++ file_rows (normalizePath p) (bytes_of data) now.
Proof.
  rewrite writeFile_eq. cbv zeta.
  case_bool_decide; [discriminate|].
  destruct (directory_at t (normalizePath p)); [discriminate|].
  intros [= <-]. auto.
Qed.

(** [writeFile] returns whenever the path is not the root and no
    directory is stored at it. *)
Lemma writeFile_succeeds t p data nd now :
  normalizePath p <> "" ->
  directory_at t (normalizePath p) = false ->
  exists t', writeFile t p data nd now = Ok t'.
Proof.
  intros Hn Hd. rewrite writeFile_eq. cbv zeta.
  rewrite bool_decide_eq_false_2 by exact Hn. rewrite Hd. eauto.
Qed.

Lemma select_chunk0_written t n bytes now :
  path_absent t n ->
  select_chunk0 (t ++ file_rows n bytes now) n
  = [chunk_row n (parent_of n) bytes now 0].
Proof.
  intros Ht. unfold select_chunk0. rewrite filter_app.
  fold (select_chunk0 t n). rewrite path_absent_select_chunk0 by exact Ht.
  destruct (file_rows_cons n bytes now) as (rest & -> & Hrest).
  rewrite filter_cons_True by (split; reflexivity).
  rewrite filter_none; [reflexivity|].
  eapply Forall_impl; [exact Hrest|]. intros r (_ & Hr & _) [_ E]. lia.
Qed.

Lemma select_path_written t n bytes now :
  path_absent t n ->
  select_path (t ++ file_rows n bytes now) n = file_rows n bytes now.
Proof.
  intros Ht. unfold select_path. rewrite filter_app.
  rewrite path_absent_select_path by exact Ht.
  rewrite filter_all by apply file_rows_path.
  apply order_by_chunk_sorted, file_rows_sorted.
Qed.


Lemma readFile_written t p bytes now :
  path_absent t (normalizePath p) ->
  readFile (t ++ file_rows (normalizePath p) bytes now) p = Ok bytes.
Proof.
  intros Ht. unfold readFile. cbv zeta.
  rewrite select_chunk0_written by exact Ht.
  cbn [is_dir chunk_row Z.eqb negb].
  rewrite select_path_written by exact Ht.
  unfold file_rows.
  rewrite (map_result_ok _
    (fun r => match data r with SqlBlob b => b | _ => [] end)).
  - cbn [bind]. rewrite concatBuffers_concat, <- list_fmap_compose.
    f_equal. apply slices_all.
  - apply Forall_fmap, Forall_forall. intros i _. reflexivity.
Qed.

Lemma stat_written t p bytes now :
  path_absent t (normalizePath p) ->
  exists s,
    stat (t ++ file_rows (normalizePath p) bytes now) p = Ok s
    /\ st_size s = Z.of_nat (length bytes)
    /\ isFile s = true
    /\ mtimeMs s = now.
Proof.
  intros Ht. unfold stat. cbv zeta.
  rewrite select_chunk0_written by exact Ht.
  eexists. split; [reflexivity|].
  cbn [st_size is_dir size data chunk_row Z.eqb negb andb isFile type
       mtimeMs mtime].
  split; [|split; reflexivity].
  destruct (Z.of_nat (length bytes) =? 0) eqn:E; [|reflexivity].
  apply Z.eqb_eq in E. destruct bytes; [reflexivity|simpl in E; lia].
Qed.

(** C1.  After a successful [writeFile] of the bytes [b] to [p],
    [readFile] on [p] returns exactly [b] (also when [b] is empty) and
    [stat] reports a file of size [length b]. *)
Theorem write_then_read t p b nd now t' :
  writeFile t p (Bytes b) nd now = Ok t' ->
  readFile t' p = Ok b
  /\ exists s, stat t' p = Ok s
               /\ st_size s = Z.of_nat (length b) /\ isFile s = true.
Proof.
  intros H. apply writeFile_inv in H as (_ & _ & ->). simpl bytes_of.
  split.
  - apply readFile_written, before_chunks_absent.
  - destruct (stat_written (before_chunks t (normalizePath p) nd) p b now
                (before_chunks_absent _ _ _)) as (s & Hs & Hsize & Hfile & _).
    exists s. auto.
Qed.

(** Scenario: ['hello'] written to ['a/b/c.txt'] on a fresh schema. *)
Lemma write_then_read_witness :
  exists t',
    writeFile (createSchema 1000) "a/b/c.txt" (Bytes hello) 2000 2000 = Ok t'
    /\ readFile t' "a/b/c.txt" = Ok hello
    /\ exists s, stat t' "a/b/c.txt" = Ok s
                 /\ st_size s = 5 /\ isFile s = true.
Proof.
  eexists. split; [vm_compute; reflexivity|].
  apply (write_then_read (createSchema 1000) "a/b/c.txt" hello 2000 2000).
  vm_compute. reflexivity.
Defined.






(** ** The ancestor loop of writeFile *)

Lemma ensure_parents_fold t parts now :
  ensure_parents t parts now
  = fold_left insert_or_ignore
      (ancestor_row parts now <$> seq 0 (length parts - 1)) t.
Proof.
  unfold ensure_parents. generalize (seq 0 (length parts - 1)) as l.
  intros l. revert t. induction l as [|i l IH]; intros t; [reflexivity|].
  simpl. apply IH.
Qed.

Lemma ensure_parents_chunk0 t parts now i :
  (i < length parts - 1)%nat ->
  exists r,
    chunk0 (ensure_parents t parts now) (join_slash (firstn (i + 1) parts))
      = Some r
    /\ (chunk0 t (join_slash (firstn (i + 1) parts)) = None ->
        is_dir r = 1 /\ data r = SqlNull)
    /\ (forall r0, chunk0 t (join_slash (firstn (i + 1) parts)) = Some r0 ->
        r = r0).
Proof.
  intros Hi. rewrite ensure_parents_fold.
  set (rows := ancestor_row parts now <$> seq 0 (length parts - 1)).
  destruct (insert_or_ignore_run rows t) as (extra & -> & Hin & Hkeys).
  set (a := join_slash (firstn (i + 1) parts)).
  assert (ancestor_row parts now i ∈ rows) as Hrow.
  { apply list_elem_of_fmap. exists i. split; [reflexivity|].
    apply elem_of_seq. lia. }
  rewrite Forall_forall in Hkeys. specialize (Hkeys _ Hrow).
  unfold key_present in Hkeys. apply bool_decide_eq_true in Hkeys.
  apply Exists_exists in Hkeys as (x & Hx & Hk).
  change (has_key a 0 x) in Hk.
  assert (x ∈ select_chunk0 (t ++ extra) a) as Hsel
    by (apply list_elem_of_filter; auto).
  unfold chunk0, select_chunk0 in *. rewrite filter_app in *.
  destruct (filter (has_key a 0) t) as [|r0 rest] eqn:Et.
  - simpl in *. destruct (filter (has_key a 0) extra) as [|r rest] eqn:Ee;
      [inversion Hsel|].
    exists r. split; [reflexivity|]. split; [|discriminate].
    intros _.
    assert (r ∈ extra) as Hr.
    { assert (r ∈ filter (has_key a 0) extra) as H by (rewrite Ee; left).
      apply list_elem_of_filter in H. tauto. }
    rewrite Forall_forall in Hin. specialize (Hin r Hr).
    apply list_elem_of_fmap in Hin as (j & -> & _). auto.
  - exists r0. split; [reflexivity|]. split; [discriminate|].
    intros ? [= <-]. reflexivity.
Qed.

(** What [writeFile] leaves at the proper ancestors of the path: each has
    a chunk-0 row; the row is a directory row when the ancestor had none
    before, and the row it had before otherwise. *)
Lemma writeFile_ancestors t p wdata nd now t' a :
  writeFile t p wdata nd now = Ok t' ->
  a ∈ ancestors (normalizePath p) ->
  exists r,
    chunk0 t' a = Some r
    /\ (chunk0 t a = None -> is_dir r = 1 /\ data r = SqlNull)
    /\ (forall r0, chunk0 t a = Some r0 -> r = r0).
Proof.
  intros H Ha. apply writeFile_inv in H as (_ & _ & ->).
  set (n := normalizePath p) in *.
  pose proof (ancestor_neq n a Ha) as Hneq.
  assert (chunk0 (before_chunks t n nd ++ file_rows n (bytes_of wdata) now) a
          = chunk0 (before_chunks t n nd) a) as ->.
  { unfold chunk0, select_chunk0. rewrite filter_app.
    rewrite (filter_none _ (file_rows _ _ _));
      [rewrite app_nil_r; reflexivity|].
    eapply Forall_impl; [apply file_rows_path|].
    intros r Hr [E _]. congruence. }
  unfold before_chunks, chunk0.
  rewrite select_chunk0_delete_other by exact Hneq.
  unfold ancestors in Ha.
  apply list_elem_of_fmap in Ha as (i & -> & Hi). apply elem_of_seq in Hi.
  destruct (1 <? Z.of_nat (length (split_slash n))) eqn:Hd;
    [|apply Z.ltb_ge in Hd; lia].
  apply ensure_parents_chunk0. lia.
Qed.

(** C6 at its failing input: the second write succeeds, the file is
    readable, and its ancestor ['a'] is still the file row ([is_dir] 0)
    that the [INSERT OR IGNORE] skipped over. *)
Theorem writeFile_below_a_file : file_below_file = Ok ([0], [x79]).
Proof. vm_compute. reflexivity. Qed.

(** ** unlink, rmdir and mkdir *)

Lemma unlink_cases t p :
  unlink t p =
    match chunk0 t (normalizePath p) with
    | None =>
        Throw (makeErrno
          (quoted "ENOENT: no such file or directory, unlink '" p)
          ENOENT (-2) p)
    | Some r =>
        if is_dir r =? 1 then
          Throw (makeErrno
            (quoted "EPERM: operation not permitted, unlink '" p)
            EPERM (-1) p)
        else Ok (delete_path t (normalizePath p))
    end.
Proof.
  unfold unlink, chunk0.
  destruct (select_chunk0 t (normalizePath p)); reflexivity.
Qed.

Lemma rmdir_cases t p :
  rmdir t p =
    if bool_decide (normalizeDirPath p = "") then
      Throw (PlainError "Cannot remove root directory")
    else
      match chunk0 t (normalizeDirPath p) with
      | None =>
          Throw (makeErrno
            (quoted "ENOENT: no such file or directory, rmdir '" p)
            ENOENT (-2) p)
      | Some r =>
          if negb (is_dir r =? 1) then
            Throw (makeErrno
              (quoted "ENOTDIR: not a directory, rmdir '" p)
              ENOTDIR (-20) p)
          else if bool_decide (select_children t (normalizeDirPath p) = [])
          then Ok (delete_path t (normalizeDirPath p))
          else
            Throw (makeErrno
              (quoted "ENOTEMPTY: directory not empty, rmdir '" p)
              ENOTEMPTY (-39) p)
      end.
Proof.
  unfold rmdir, chunk0. cbv zeta.
  case_bool_decide; [reflexivity|].
  destruct (select_chunk0 t (normalizeDirPath p)) as [|r rest];
    [reflexivity|]. simpl.
  destruct (negb (is_dir r =? 1)); [reflexivity|].
  destruct (select_children t (normalizeDirPath p)); reflexivity.
Qed.

(** C7, as the specification states it, fails on the root: the root row
    is a directory, with the directory ['d'] as a child in the second
    table, and [rmdir] answers with the uncoded error of its guard,
    neither with [ENOTEMPTY] nor by deleting the row. *)
Lemma rmdir_root_guard :
  is_dir <$> chunk0 (createSchema 1000) (normalizeDirPath "/") = Some 1
  /\ rmdir (createSchema 1000) "/"
     = Throw (PlainError "Cannot remove root directory")
  /\ thrown_code (rmdir (createSchema 1000) "/") = None
  /\ is_dir <$> chunk0 file_in_d (normalizeDirPath "/") = Some 1
  /\ path <$> select_children file_in_d (normalizeDirPath "/") = [""; "d"]
  /\ rmdir file_in_d "/" = Throw (PlainError "Cannot remove root directory").
Proof. repeat split. Qed.

(** C7 (amended).  [unlink] throws [ENOENT] on an absent path and [EPERM]
    on a directory.  [rmdir] on a path that does not normalise to the root
    throws [ENOENT] when the path is absent, [ENOTDIR] when it is not a
    directory, [ENOTEMPTY] when a chunk-0 row names it as [parent_path],
    and otherwise deletes the rows of the path, after which a second
    [rmdir] throws [ENOENT].  On the root [rmdir] throws the uncoded
    error "Cannot remove root directory". *)
Theorem unlink_rmdir_errors t p :
  (chunk0 t (normalizePath p) = None ->
     thrown_code (unlink t p) = Some ENOENT)
  /\ (forall r, chunk0 t (normalizePath p) = Some r -> is_dir r = 1 ->
        thrown_code (unlink t p) = Some EPERM)
  /\ (normalizeDirPath p = "" ->
        rmdir t p = Throw (PlainError "Cannot remove root directory"))
  /\ (normalizeDirPath p <> "" ->
      (chunk0 t (normalizeDirPath p) = None ->
         thrown_code (rmdir t p) = Some ENOENT)
      /\ (forall r, chunk0 t (normalizeDirPath p) = Some r ->
            is_dir r <> 1 -> thrown_code (rmdir t p) = Some ENOTDIR)
      /\ (forall r, chunk0 t (normalizeDirPath p) = Some r ->
            is_dir r = 1 -> select_children t (normalizeDirPath p) <> [] ->
            thrown_code (rmdir t p) = Some ENOTEMPTY)
      /\ (forall r, chunk0 t (normalizeDirPath p) = Some r ->
            is_dir r = 1 -> select_children t (normalizeDirPath p) = [] ->
            rmdir t p = Ok (delete_path t (normalizeDirPath p))
            /\ thrown_code (rmdir (delete_path t (normalizeDirPath p)) p)
               = Some ENOENT)).
Proof.
  split; [|split; [|split]].
  - intros H. rewrite unlink_cases, H. reflexivity.
  - intros r H Hd. rewrite unlink_cases, H, Hd. reflexivity.
  - intros H. rewrite rmdir_cases, bool_decide_eq_true_2 by exact H.
    reflexivity.
  - intros Hn.
    assert (forall t', rmdir t' p =
      match chunk0 t' (normalizeDirPath p) with
      | None =>
          Throw (makeErrno
            (quoted "ENOENT: no such file or directory, rmdir '" p)
            ENOENT (-2) p)
      | Some r =>
          if negb (is_dir r =? 1) then
            Throw (makeErrno
              (quoted "ENOTDIR: not a directory, rmdir '" p)
              ENOTDIR (-20) p)
          else if bool_decide (select_children t' (normalizeDirPath p) = [])
          then Ok (delete_path t' (normalizeDirPath p))
          else
            Throw (makeErrno
              (quoted "ENOTEMPTY: directory not empty, rmdir '" p)
              ENOTEMPTY (-39) p)
      end) as E.
    { intros t'. rewrite rmdir_cases, bool_decide_eq_false_2 by exact Hn.
      reflexivity. }
    split; [|split; [|split]].
    + intros H. rewrite E, H. reflexivity.
    + intros r H Hd. rewrite E, H.
      apply Z.eqb_neq in Hd. rewrite Hd. reflexivity.
    + intros r H Hd Hc. rewrite E, H, Hd.
      rewrite bool_decide_eq_false_2 by exact Hc. reflexivity.
    + intros r H Hd Hc. split.
      * rewrite E, H, Hd. rewrite bool_decide_eq_true_2 by exact Hc.
        reflexivity.
      * rewrite E, chunk0_delete_path. reflexivity.
Qed.

(** Scenarios: [mkdir('x')], [unlink('x')], [rmdir('x')] twice; and
    [rmdir] of a directory that holds a file, and of that file. *)
Lemma unlink_rmdir_errors_witness :
  mkdir (createSchema 1000) "x" 2000 = Ok dir_x
  /\ thrown_code (unlink dir_x "x") = Some EPERM
  /\ thrown_code (unlink dir_x "y") = Some ENOENT
  /\ rmdir dir_x "x" = Ok (createSchema 1000)
  /\ thrown_code (rmdir (createSchema 1000) "x") = Some ENOENT
  /\ writeFile (createSchema 1000) "d/f" (Text "1") 3000 3000 = Ok file_in_d
  /\ thrown_code (rmdir file_in_d "d") = Some ENOTEMPTY
  /\ thrown_code (rmdir file_in_d "d/f") = Some ENOTDIR.
Proof.
  destruct (unlink_rmdir_errors dir_x "x") as (_ & Hperm & _ & Hrm).
  destruct (Hrm ltac:(discriminate)) as (_ & _ & _ & Hdel).
  destruct (Hdel (dir_row "x" "" 2000) eq_refl eq_refl eq_refl)
    as [Hok Hagain].
  destruct (unlink_rmdir_errors dir_x "y") as (Hnoent & _).
  destruct (unlink_rmdir_errors file_in_d "d") as (_ & _ & _ & Hd).
  destruct (Hd ltac:(discriminate)) as (_ & _ & Hnotempty & _).
  destruct (unlink_rmdir_errors file_in_d "d/f") as (_ & _ & _ & Hf).
  destruct (Hf ltac:(discriminate)) as (_ & Hnotdir & _).
  split; [reflexivity|].
  split; [exact (Hperm (dir_row "x" "" 2000) eq_refl eq_refl)|].
  split; [exact (Hnoent eq_refl)|].
  split; [exact Hok|].
  split; [exact Hagain|].
  split; [vm_compute; reflexivity|].
  split;
    [apply (Hnotempty (dir_row "d" "" 3000)); [reflexivity..|discriminate]|].
  eapply Hnotdir; [reflexivity|discriminate].
Defined.

Lemma mkdir_cases t p now :
  mkdir t p now =
    let n := normalizeDirPath p in
    if bool_decide (n = "") then Ok t
    else if (1 <? Z.of_nat (length (split_slash n)))
            && match chunk0 t (join_slash (removelast (split_slash n))) with
               | None => true
               | Some parent => negb (is_dir parent =? 1)
               end
    then
      Throw (makeErrno
        (quoted "ENOENT: no such file or directory, mkdir '" p)
        ENOENT (-2) p)
    else
      match chunk0 t n with
      | Some existing =>
          if is_dir existing =? 1 then Ok t
          else
            Throw (makeErrno
              (quoted "EEXIST: file already exists, mkdir '" p)
              EEXIST (-17) p)
      | None => Ok (t ++ [dir_row n (parent_of n) now])
      end.
Proof.
  unfold mkdir, chunk0. cbv zeta.
  case_bool_decide; [reflexivity|].
  set (n := normalizeDirPath p).
  assert (match select_chunk0 t n with
          | [] =>
              Ok (insert_or_ignore t
                    (dir_row n (parent_of_parts (split_slash n)) now))
          | existing :: _ =>
              if is_dir existing =? 1 then Ok t
              else Throw (makeErrno
                     (quoted "EEXIST: file already exists, mkdir '" p)
                     EEXIST (-17) p)
          end =
          match head (select_chunk0 t n) with
          | Some existing =>
              if is_dir existing =? 1 then Ok t
              else Throw (makeErrno
                     (quoted "EEXIST: file already exists, mkdir '" p)
                     EEXIST (-17) p)
          | None => Ok (t ++ [dir_row n (parent_of n) now])
          end) as Htail.
  { destruct (select_chunk0 t n) eqn:Hsel; [|reflexivity].
    cbn [head]. unfold insert_or_ignore.
    rewrite key_absent_chunk0; [reflexivity..|exact Hsel]. }
  destruct (1 <? Z.of_nat (length (split_slash n))); cbn [andb];
    [|exact Htail].
  destruct (select_chunk0 t (join_slash (removelast (split_slash n))))
    as [|parent ?]; cbn [head]; [reflexivity|].
  destruct (negb (is_dir parent =? 1)); [reflexivity|exact Htail].
Qed.

(** C8.  [mkdir] returns without a change when the normalised path is
    empty; otherwise it throws [ENOENT] when the path has more than one
    segment and its parent is not stored as a directory; otherwise it
    returns without a change when the path is stored as a directory and
    throws [EEXIST] when it is stored as anything else; otherwise it
    appends exactly one chunk-0 directory row, for the path itself. *)
Theorem mkdir_outcomes t p now :
  (normalizeDirPath p = "" -> mkdir t p now = Ok t)
  /\ (normalizeDirPath p <> "" ->
      (1 < depth (normalizeDirPath p) ->
       ~ is_directory t (parent_of (normalizeDirPath p)) ->
       thrown_code (mkdir t p now) = Some ENOENT)
      /\ (depth (normalizeDirPath p) <= 1
          \/ is_directory t (parent_of (normalizeDirPath p)) ->
          (is_directory t (normalizeDirPath p) -> mkdir t p now = Ok t)
          /\ (forall r, chunk0 t (normalizeDirPath p) = Some r ->
                is_dir r <> 1 ->
                thrown_code (mkdir t p now) = Some EEXIST)
          /\ (chunk0 t (normalizeDirPath p) = None ->
                mkdir t p now =
                  Ok (t ++ [dir_row (normalizeDirPath p)
                              (parent_of (normalizeDirPath p)) now])))).
Proof.
  rewrite mkdir_cases. cbv zeta.
  set (n := normalizeDirPath p). split.
  - intros ->. reflexivity.
  - intros Hn. rewrite bool_decide_eq_false_2 by exact Hn.
    unfold is_directory, depth, parent_of, parent_of_parts.
    destruct (1 <? Z.of_nat (length (split_slash n))) eqn:Hd.
    + apply Z.ltb_lt in Hd. cbn [andb]. split.
      * intros _ Hp.
        destruct (chunk0 t (join_slash (removelast (split_slash n))))
          as [parent|]; [|reflexivity].
        destruct (is_dir parent =? 1) eqn:E; [|reflexivity].
        apply Z.eqb_eq in E. exfalso. apply Hp. eauto.
      * intros [Hle|(parent & Hp & Hpd)]; [lia|].
        rewrite Hp, Hpd. cbn [Z.eqb Pos.eqb negb].
        split; [|split].
        -- intros (r & -> & ->). reflexivity.
        -- intros r -> Hr. apply Z.eqb_neq in Hr. rewrite Hr. reflexivity.
        -- intros ->. reflexivity.
    + apply Z.ltb_ge in Hd. cbn [andb]. split; [lia|].
      intros _. split; [|split].
      * intros (r & -> & ->). reflexivity.
      * intros r -> Hr. apply Z.eqb_neq in Hr. rewrite Hr. reflexivity.
      * intros ->. reflexivity.
Qed.

(** One input for each outcome of [mkdir]. *)
Lemma mkdir_outcomes_witness :
  mkdir (createSchema 1000) "/" 2000 = Ok (createSchema 1000)
  /\ thrown_code (mkdir (createSchema 1000) "a/b" 2000) = Some ENOENT
  /\ mkdir dir_x "x/" 3000 = Ok dir_x
  /\ thrown_code (mkdir file_in_d "d/f" 4000) = Some EEXIST
  /\ mkdir dir_x "x/y" 3000 = Ok (dir_x ++ [dir_row "x/y" "x" 3000]).
Proof.
  split; [exact (proj1 (mkdir_outcomes (createSchema 1000) "/" 2000) eq_refl)|].
  split.
  { destruct (proj2 (mkdir_outcomes (createSchema 1000) "a/b" 2000)
                ltac:(discriminate)) as [Hmiss _].
    apply Hmiss; [reflexivity|]. intros (r & Hr & _). discriminate. }
  split.
  { destruct (proj2 (mkdir_outcomes dir_x "x/" 3000) ltac:(discriminate))
      as [_ Hrest].
    destruct (Hrest ltac:(left; vm_compute; discriminate)) as [Hdir _].
    apply Hdir. eexists. split; reflexivity. }
  split.
  { destruct (proj2 (mkdir_outcomes file_in_d "d/f" 4000) ltac:(discriminate))
      as [_ Hrest].
    destruct (Hrest ltac:(right; eexists; split; reflexivity))
      as (_ & Hfile & _).
    eapply Hfile; [reflexivity|discriminate]. }
  destruct (proj2 (mkdir_outcomes dir_x "x/y" 3000) ltac:(discriminate))
    as [_ Hrest].
  destruct (Hrest ltac:(right; eexists; split; reflexivity))
    as (_ & _ & Hnew).
  exact (Hnew eq_refl).
Defined.

(** ** rename *)

Lemma rename_eq t a b :
  rename t a b =
    match select_path t (normalizePath a) with
    | [] =>
        Throw (makeErrno
          (String.append "ENOENT: no such file or directory, rename '"
             (String.append a (String.append "' -> '" (quoted "" b))))
          ENOENT (-2) a)
    | rows =>
        Ok (delete_path
              (fold_left
                 (fun t row =>
                    insert_or_replace t
                      (moved_row (normalizePath b)
                         (parent_of (normalizePath b)) row))
                 rows t)
              (normalizePath a))
    end.
Proof.
  unfold rename. cbv zeta.
  destruct (select_path t (normalizePath a)); reflexivity.
Qed.

Lemma moved_rows_sorted nb np rows :
  StronglySorted (fun a b => chunk_index a <= chunk_index b) rows ->
  StronglySorted (fun a b => chunk_index a <= chunk_index b)
    (moved_row nb np <$> rows).
Proof.
  induction 1 as [|x l _ IH Hx]; simpl; constructor; [exact IH|].
  apply Forall_fmap. exact Hx.
Qed.

(** X9.  [rename] onto a destination that holds no chunk index the
    source lacks (in particular onto an absent path): the destination
    reads as the source did, and the source is gone. *)
Lemma rename_then_read t a b bytes :
  primary_key_ok t ->
  normalizePath a <> normalizePath b ->
  readFile t a = Ok bytes ->
  (forall x, x ∈ t -> path x = normalizePath b ->
     exists y, y ∈ t /\ path y = normalizePath a
               /\ chunk_index y = chunk_index x) ->
  exists t',
    rename t a b = Ok t'
    /\ readFile t' b = Ok bytes
    /\ thrown_code (readFile t' a) = Some ENOENT.
Proof.
  intros Hpk Hneq Hread Hdest.
  set (na := normalizePath a) in *. set (nb := normalizePath b) in *.
  unfold readFile in Hread. cbv zeta in Hread. fold na in Hread.
  destruct (select_chunk0 t na) as [|meta rest] eqn:Hmeta; [discriminate|].
  destruct (negb (is_dir meta =? 0)) eqn:Hdir; [discriminate|].
  set (R := select_path t na) in *.
  assert (meta ∈ t /\ has_key na 0 meta) as [Hmt Hmk].
  { assert (meta ∈ select_chunk0 t na) as H by (rewrite Hmeta; left).
    apply list_elem_of_filter in H. tauto. }
  assert (R ≡ₚ filter (fun r => path r = na) t) as Hperm
    by apply order_by_chunk_perm.
  assert (meta ∈ R) as HmR.
  { rewrite Hperm. apply list_elem_of_filter. split; [apply Hmk|exact Hmt]. }
  assert (Forall (fun r => path r = na) R) as HRp.
  { apply Forall_forall. intros r Hr. rewrite Hperm in Hr.
    apply list_elem_of_filter in Hr. tauto. }
  assert (NoDup (chunk_index <$> R)) as HRnd.
  { rewrite Hperm. apply primary_key_path_indexes, Hpk. }
  assert (filter (fun r => chunk_index r = 0) R = [meta]) as HR0.
  { apply Permutation_singleton_r. rewrite Hperm.
    rewrite list_filter_filter.
    pose proof (select_by_key t meta Hpk Hmt) as Hsel.
    destruct Hmk as [Hp Hi]. rewrite Hp, Hi in Hsel.
    rewrite <- Hsel.
    rewrite (filter_iff_elem (fun x => chunk_index x = 0 /\ path x = na)
               (has_key na 0)); [reflexivity|].
    intros x _. unfold has_key. tauto. }
  assert (StronglySorted (fun a b => chunk_index a <= chunk_index b) R)
    as HRs by apply order_by_chunk_ordered.
  assert (select_path t na = R) as HRdef by reflexivity.
  clearbody R.
  set (M := moved_row nb (parent_of nb) <$> R).
  set (P := fun x => ~ (path x = nb /\ chunk_index x ∈ chunk_index <$> M)).
  assert (rename t a b = Ok (delete_path (filter P t ++ M) na)) as Hren.
  { rewrite rename_eq. fold na nb. rewrite HRdef. unfold P, M.
    destruct R as [|r0 R0]; [inversion HmR|].
    rewrite (fold_left_fmap insert_or_replace).
    rewrite (insert_or_replace_run nb); [reflexivity| |].
    - apply Forall_fmap, Forall_forall. intros; reflexivity.
    - unfold M. rewrite <- list_fmap_compose. exact HRnd. }
  assert (chunk_index <$> M = chunk_index <$> R) as HMi.
  { unfold M. rewrite <- list_fmap_compose. reflexivity. }
  assert (filter (fun r => path r = nb) (delete_path (filter P t ++ M) na) = M)
    as Hrows.
  { unfold delete_path. rewrite list_filter_filter, filter_app.
    rewrite (filter_none _ (filter P t)).
    - apply filter_all, Forall_fmap, Forall_forall.
      intros r _. simpl. split; [reflexivity|]. intros E. apply Hneq.
      symmetry. exact E.
    - apply Forall_forall. intros x Hx [Hxb _].
      apply list_elem_of_filter in Hx as [HPx Hxt]. apply HPx.
      split; [exact Hxb|]. rewrite HMi.
      destruct (Hdest x Hxt Hxb) as (y & Hy & Hyp & Hyi).
      rewrite <- Hyi. apply list_elem_of_fmap. exists y. split; [reflexivity|].
      rewrite Hperm. apply list_elem_of_filter. auto. }
  eexists. split; [exact Hren|]. split.
  - unfold readFile. cbv zeta. fold nb.
    assert (select_chunk0 (delete_path (filter P t ++ M) na) nb
            = [moved_row nb (parent_of nb) meta]) as ->.
    { unfold select_chunk0.
      erewrite (filter_iff_elem (has_key nb 0)
                  (fun x => chunk_index x = 0 /\ path x = nb));
        [|intros; unfold has_key; tauto].
      rewrite <- list_filter_filter, Hrows. unfold M.
      assert (forall l : list Row, filter (fun x => chunk_index x = 0)
                          (moved_row nb (parent_of nb) <$> l)
                        = moved_row nb (parent_of nb)
                            <$> filter (fun x => chunk_index x = 0) l) as Hf.
      { induction l as [|x l IH]; [reflexivity|].
        rewrite fmap_cons, !filter_cons, IH. simpl.
        destruct (decide (chunk_index x = 0)); reflexivity. }
      rewrite Hf, HR0. reflexivity. }
    cbn [is_dir moved_row]. rewrite Hdir.
    unfold select_path. rewrite Hrows.
    rewrite order_by_chunk_sorted by apply moved_rows_sorted, HRs.
    unfold M. rewrite map_result_fmap. exact Hread.
  - unfold readFile. cbv zeta. fold na.
    rewrite path_absent_select_chunk0 by apply delete_path_absent.
    reflexivity.
Qed.

(** C4 at its failing input: the bytes read at the destination are the
    byte of the source followed by the second chunk of the file that was
    there before. *)
Theorem rename_keeps_stale_chunks :
  rename_over_longer = Ok ([x01; xab], 1, Some ENOENT).
Proof. vm_compute. reflexivity. Qed.

(** ** Base64 text *)

(** Arithmetic on [N] with division by constants. *)
Ltac n_arith :=
  zify; Z.div_mod_to_equations; Z.quot_rem_to_equations; lia.

Lemma list_ind3 {A} (P : list A -> Prop) :
  P [] -> (forall a, P [a]) -> (forall a b, P [a; b]) ->
  (forall a b c l, P l -> P (a :: b :: c :: l)) ->
  forall l, P l.
Proof.
  intros H0 H1 H2 H3. fix IH 1.
  intros [|a [|b [|c l]]];
    [apply H0 | apply H1 | apply H2 | apply H3, IH].
Qed.

Lemma list_ind4 {A} (P : list A -> Prop) :
  P [] -> (forall a, P [a]) -> (forall a b, P [a; b]) ->
  (forall a b c, P [a; b; c]) ->
  (forall a b c d l, P l -> P (a :: b :: c :: d :: l)) ->
  forall l, P l.
Proof.
  intros H0 H1 H2 H3 H4. fix IH 1.
  intros [|a [|b [|c [|d l]]]];
    [apply H0 | apply H1 | apply H2 | apply H3 | apply H4, IH].
Qed.

Lemma decode_sextets_length vs :
  Z.of_nat (length (decode_sextets vs))
  = decoded_length (Z.of_nat (length vs)).
Proof.
  induction vs as [| a | a b | a b c | a b c d l IH] using list_ind4;
    try reflexivity.
  cbn [decode_sextets length]. unfold decoded_length in *.
  rewrite !Nat2Z.inj_succ, IH.
  replace (Z.succ (Z.succ (Z.succ (Z.succ (Z.of_nat (length l))))))
    with (Z.of_nat (length l) + 1 * 4) by lia.
  rewrite Z.div_add, Z.mod_add by lia. lia.
Qed.

Lemma b64_value_not_equals : b64_value "=" = None.
Proof. reflexivity. Qed.

Lemma b64_values_Some cs vs :
  b64_values cs = Some vs ->
  length vs = length cs /\ Forall (fun c => c <> "="%char) cs.
Proof.
  revert vs. induction cs as [|c cs IH]; intros vs; simpl.
  - intros [= <-]. split; [reflexivity|constructor].
  - destruct (b64_value c) as [v|] eqn:Hv; [|discriminate].
    destruct (b64_values cs) as [vs'|]; [|discriminate].
    intros [= <-]. destruct (IH vs' eq_refl) as [Hl Hf].
    split; [simpl; congruence|]. constructor; [|exact Hf].
    intros ->. rewrite b64_value_not_equals in Hv. discriminate.
Qed.

Lemma whitespace_not_base64 c :
  is_Some (b64_value c) \/ c = "="%char -> is_ascii_whitespace c = false.
Proof.
  intros [[v Hv]| ->]; [|reflexivity].
  unfold is_ascii_whitespace, b64_value in *.
  destruct (N_of_ascii c =? 9)%N eqn:E1;
    [apply N.eqb_eq in E1; rewrite E1 in Hv; discriminate|].
  destruct (N_of_ascii c =? 10)%N eqn:E2;
    [apply N.eqb_eq in E2; rewrite E2 in Hv; discriminate|].
  destruct (N_of_ascii c =? 12)%N eqn:E3;
    [apply N.eqb_eq in E3; rewrite E3 in Hv; discriminate|].
  destruct (N_of_ascii c =? 13)%N eqn:E4;
    [apply N.eqb_eq in E4; rewrite E4 in Hv; discriminate|].
  destruct (N_of_ascii c =? 32)%N eqn:E5;
    [apply N.eqb_eq in E5; rewrite E5 in Hv; discriminate|].
  reflexivity.
Qed.

Lemma base64_text_no_whitespace s :
  base64_text s ->
  List.filter (fun c => negb (is_ascii_whitespace c)) (list_ascii_of_string s)
  = list_ascii_of_string s.
Proof.
  unfold base64_text. induction 1 as [|c cs Hc _ IH]; [reflexivity|].
  simpl. rewrite (whitespace_not_base64 c Hc). simpl. f_equal. exact IH.
Qed.

Lemma string_length_list s :
  String.length s = length (list_ascii_of_string s).
Proof. induction s; simpl; congruence. Qed.

(** Trailing ['='] of a string given as a list. *)
Lemma trailing_equals_repeat k :
  trailing_equals (string_of_list_ascii (repeat "="%char k)) = Z.of_nat k
  /\ String.length (string_of_list_ascii (repeat "="%char k)) = k.
Proof.
  induction k as [|k [IH1 IH2]]; [split; reflexivity|].
  cbn [repeat string_of_list_ascii trailing_equals String.length].
  rewrite IH1, IH2, Ascii.eqb_refl, Z.eqb_refl. cbn [andb].
  split; [lia|reflexivity].
Qed.

Lemma trailing_equals_app l k :
  Forall (fun c => c <> "="%char) l ->
  trailing_equals (string_of_list_ascii (l ++ repeat "="%char k))
  = Z.of_nat k.
Proof.
  induction 1 as [|c l Hc _ IH]; [apply trailing_equals_repeat|].
  cbn [app string_of_list_ascii trailing_equals]. rewrite IH.
  apply Ascii.eqb_neq in Hc. rewrite Hc. reflexivity.
Qed.

Lemma trailing_equals_list cs l k :
  cs = l ++ repeat "="%char k ->
  Forall (fun c => c <> "="%char) l ->
  trailing_equals (string_of_list_ascii cs) = Z.of_nat k
  /\ Z.of_nat (length cs) = Z.of_nat (length l) + Z.of_nat k.
Proof.
  intros -> Hl. split; [apply trailing_equals_app, Hl|].
  rewrite length_app, repeat_length. lia.
Qed.

(** What [strip_padding] removes is the run of trailing ['='], when the
    rest decodes. *)
Lemma strip_padding_split cs vs :
  b64_values (strip_padding cs) = Some vs ->
  exists k,
    cs = strip_padding cs ++ repeat "="%char k
    /\ (k = 0%nat \/ Z.of_nat (length cs) mod 4 = 0)
    /\ (k <= 2)%nat.
Proof.
  assert (forall l : list ascii,
    exists k, l = l ++ repeat "="%char k
      /\ (k = 0%nat \/ Z.of_nat (length cs) mod 4 = 0) /\ (k <= 2)%nat)
    as Hnone.
  { intros l. exists 0%nat. rewrite app_nil_r. auto. }
  unfold strip_padding.
  destruct (Z.of_nat (length cs) mod 4 =? 0) eqn:Hm; [|intros _; apply Hnone].
  apply Z.eqb_eq in Hm.
  destruct (rev cs) as [|c1 [|c2 r]] eqn:Hr; try (intros _; apply Hnone).
  assert (cs = rev r ++ [c2; c1]) as Hcs.
  { rewrite <- (rev_involutive cs), Hr. simpl.
    rewrite <- !app_assoc. reflexivity. }
  destruct (Ascii.eqb c1 "=") eqn:E1; [|intros _; apply Hnone].
  apply Ascii.eqb_eq in E1. subst c1.
  destruct (Ascii.eqb c2 "=") eqn:E2.
  - apply Ascii.eqb_eq in E2. subst c2. intros _. exists 2%nat.
    split; [exact Hcs | split; [right; exact Hm | lia]].
  - intros _. exists 1%nat. split; [|split; [right; exact Hm | lia]].
    rewrite Hcs. simpl. rewrite <- !app_assoc. reflexivity.
Qed.

(** The size that [stat] computes from the text is the decoded length. *)
Lemma base64_size_formula L k :
  0 <= L -> 0 <= k <= 2 -> L mod 4 <> 1 ->
  k = 0 \/ (L + k) mod 4 = 0 ->
  (L + k) * 3 / 4 - k = decoded_length L.
Proof.
  intros HL Hk Hm Hpad. unfold decoded_length.
  destruct (L mod 4 =? 2) eqn:M2;
    [apply Z.eqb_eq in M2
    | destruct (L mod 4 =? 3) eqn:M3;
      [apply Z.eqb_eq in M3 | apply Z.eqb_neq in M2, M3]];
    (destruct Hpad as [-> | Hpad];
     [rewrite Z.add_0_r|]; Z.div_mod_to_equations; lia).
Qed.

Lemma atob_length s binary :
  base64_text s -> atob s = Ok binary ->
  Z.of_nat (String.length s) * 3 / 4 - trailing_equals s
  = Z.of_nat (String.length binary).
Proof.
  intros Hs. unfold atob. rewrite base64_text_no_whitespace by exact Hs.
  set (cs := list_ascii_of_string s).
  destruct (Z.of_nat (length (strip_padding cs)) mod 4 =? 1) eqn:Hm1;
    [discriminate|]. apply Z.eqb_neq in Hm1.
  destruct (b64_values (strip_padding cs)) as [vs|] eqn:Hv; [|discriminate].
  intros [= <-].
  destruct (strip_padding_split cs vs Hv) as (k & Hcs & Hk & Hk2).
  destruct (b64_values_Some _ _ Hv) as [Hlen Hne].
  destruct (trailing_equals_list cs _ k Hcs Hne) as [Ht Hl].
  rewrite <- (string_of_list_ascii_of_string s). fold cs. rewrite Ht.
  rewrite !string_length_list, !list_ascii_of_string_of_list_ascii.
  rewrite decode_sextets_length, Hlen, Hl.
  apply base64_size_formula; [lia | lia | exact Hm1 |].
  destruct Hk as [-> | Hk]; [left; reflexivity | right].
  rewrite <- Hl. exact Hk.
Qed.

Lemma base64ToUint8Array_length s bytes :
  base64_text s -> base64ToUint8Array s = Ok bytes ->
  Z.of_nat (String.length s) * 3 / 4 - trailing_equals s
  = Z.of_nat (length bytes).
Proof.
  intros Hs. unfold base64ToUint8Array.
  destruct (atob s) as [binary|] eqn:E; [|discriminate].
  simpl. intros [= <-].
  rewrite length_map, <- string_length_list.
  exact (atob_length s binary Hs E).
Qed.

Lemma rowDataToBytes_text s bytes :
  base64ToUint8Array s = Ok bytes -> rowDataToBytes (SqlText s) = Ok bytes.
Proof.
  intros H. unfold rowDataToBytes.
  destruct s as [|c s]; [|exact H].
  simpl. rewrite <- H. reflexivity.
Qed.

Lemma b64_value_char v : (v < 64)%N -> b64_value (b64_char v) = Some v.
Proof.
  intros Hv. unfold b64_char, b64_value.
  destruct (v <? 26)%N eqn:E1; [apply N.ltb_lt in E1|apply N.ltb_ge in E1].
  { rewrite N_ascii_embedding by lia.
    rewrite (proj2 (N.leb_le 65 (v + 65))), (proj2 (N.leb_le (v + 65) 90))
      by lia. simpl. f_equal. lia. }
  destruct (v <? 52)%N eqn:E2; [apply N.ltb_lt in E2|apply N.ltb_ge in E2].
  { rewrite N_ascii_embedding by lia.
    rewrite (proj2 (N.leb_gt (v + 71) 90)) by lia. rewrite andb_false_r.
    rewrite (proj2 (N.leb_le 97 (v + 71))), (proj2 (N.leb_le (v + 71) 122))
      by lia. simpl. f_equal. lia. }
  destruct (v <? 62)%N eqn:E3; [apply N.ltb_lt in E3|apply N.ltb_ge in E3].
  { rewrite N_ascii_embedding by lia.
    rewrite (proj2 (N.leb_gt 65 (v - 4))) by lia. rewrite andb_false_l.
    rewrite (proj2 (N.leb_gt 97 (v - 4))) by lia. rewrite andb_false_l.
    rewrite (proj2 (N.leb_le 48 (v - 4))), (proj2 (N.leb_le (v - 4) 57))
      by lia. simpl. f_equal. lia. }
  destruct (v =? 62)%N eqn:E4; [apply N.eqb_eq in E4|apply N.eqb_neq in E4].
  { subst v. reflexivity. }
  assert (v = 63%N) as -> by lia. reflexivity.
Qed.

Lemma b64_char_not_equals v : (v < 64)%N -> b64_char v <> "="%char.
Proof.
  intros Hv E. pose proof (b64_value_char v Hv) as H.
  rewrite E in H. discriminate.
Qed.

Lemma b64_values_chars vs :
  Forall (fun v => (v < 64)%N) vs ->
  b64_values (List.map b64_char vs) = Some vs.
Proof.
  induction 1 as [|v vs Hv _ IH]; [reflexivity|].
  simpl. rewrite (b64_value_char v Hv), IH. reflexivity.
Qed.

Lemma sextets_of_bound ns :
  Forall (fun n => (n < 256)%N) ns ->
  Forall (fun v => (v < 64)%N) (sextets_of ns).
Proof.
  induction ns as [| x | x y | x y z l IH] using list_ind3; intros H.
  - constructor.
  - inversion H as [|? ? Hx _]; subst. cbn [sextets_of].
    pose proof (N.div_mod x 4 ltac:(discriminate)).
    pose proof (N.mod_lt x 4 ltac:(discriminate)).
    repeat (constructor; [cbv beta; n_arith|]). constructor.
  - inversion H as [|? ? Hx H']; subst.
    inversion H' as [|? ? Hy _]; subst. cbn [sextets_of].
    pose proof (N.div_mod x 4 ltac:(discriminate)).
    pose proof (N.mod_lt x 4 ltac:(discriminate)).
    pose proof (N.div_mod y 16 ltac:(discriminate)).
    pose proof (N.mod_lt y 16 ltac:(discriminate)).
    repeat (constructor; [cbv beta; n_arith|]). constructor.
  - inversion H as [|? ? Hx H']; subst.
    inversion H' as [|? ? Hy H'']; subst.
    inversion H'' as [|? ? Hz Hl]; subst. cbn [sextets_of].
    pose proof (N.div_mod x 4 ltac:(discriminate)).
    pose proof (N.mod_lt x 4 ltac:(discriminate)).
    pose proof (N.div_mod y 16 ltac:(discriminate)).
    pose proof (N.mod_lt y 16 ltac:(discriminate)).
    pose proof (N.div_mod z 64 ltac:(discriminate)).
    pose proof (N.mod_lt z 64 ltac:(discriminate)).
    repeat (constructor; [cbv beta; n_arith|]). apply IH, Hl.
Qed.

Lemma char_of_small n : (n < 256)%N -> char_of n = ascii_of_N n.
Proof. intros H. unfold char_of. rewrite N.mod_small by exact H. reflexivity. Qed.

Lemma group_of_three x y z :
  (x < 256 -> y < 256 -> z < 256 ->
   let n := x / 4 * 262144 + (x mod 4 * 16 + y / 16) * 4096
            + (y mod 16 * 4 + z / 64) * 64 + z mod 64 in
   char_of (n / 65536) = ascii_of_N x
   /\ char_of (n / 256) = ascii_of_N y
   /\ char_of n = ascii_of_N z)%N.
Proof.
  intros Hx Hy Hz n.
  assert (n = x * 65536 + y * 256 + z)%N as ->.
  { unfold n.
    pose proof (N.div_mod x 4 ltac:(discriminate)).
    pose proof (N.div_mod y 16 ltac:(discriminate)).
    pose proof (N.div_mod z 64 ltac:(discriminate)). lia. }
  assert ((x * 65536 + y * 256 + z) / 65536 = x)%N as ->.
  { symmetry. apply (N.div_unique _ _ _ (y * 256 + z)); lia. }
  assert ((x * 65536 + y * 256 + z) / 256 = x * 256 + y)%N as ->.
  { symmetry. apply (N.div_unique _ _ _ z); lia. }
  unfold char_of. repeat split; f_equal.
  - apply N.mod_small; lia.
  - symmetry. apply (N.mod_unique _ _ x); lia.
  - symmetry. apply (N.mod_unique _ _ (x * 256 + y)); lia.
Qed.

Lemma group_of_two x y :
  (x < 256 -> y < 256 ->
   let n := (x / 4 * 4096 + (x mod 4 * 16 + y / 16) * 64 + y mod 16 * 4) / 4 in
   char_of (n / 256) = ascii_of_N x /\ char_of n = ascii_of_N y)%N.
Proof.
  intros Hx Hy n.
  assert (n = x * 256 + y)%N as ->.
  { unfold n. symmetry. apply (N.div_unique _ _ _ 0); [lia|].
    pose proof (N.div_mod x 4 ltac:(discriminate)).
    pose proof (N.div_mod y 16 ltac:(discriminate)). lia. }
  assert ((x * 256 + y) / 256 = x)%N as ->.
  { symmetry. apply (N.div_unique _ _ _ y); lia. }
  unfold char_of. split; f_equal.
  - apply N.mod_small; lia.
  - symmetry. apply (N.mod_unique _ _ x); lia.
Qed.

Lemma group_of_one x :
  (x < 256 -> char_of ((x / 4 * 64 + x mod 4 * 16) / 16) = ascii_of_N x)%N.
Proof.
  intros Hx.
  assert ((x / 4 * 64 + x mod 4 * 16) / 16 = x)%N as ->.
  { symmetry. apply (N.div_unique _ _ _ 0); [lia|].
    pose proof (N.div_mod x 4 ltac:(discriminate)). lia. }
  apply char_of_small, Hx.
Qed.

Lemma decode_sextets_of ns :
  Forall (fun n => (n < 256)%N) ns ->
  decode_sextets (sextets_of ns) = List.map ascii_of_N ns.
Proof.
  induction ns as [| x | x y | x y z l IH] using list_ind3; intros H.
  - reflexivity.
  - inversion H as [|? ? Hx _]; subst. cbn [sextets_of decode_sextets List.map].
    rewrite (group_of_one x Hx). reflexivity.
  - inversion H as [|? ? Hx H']; subst.
    inversion H' as [|? ? Hy _]; subst.
    cbn [sextets_of decode_sextets List.map].
    destruct (group_of_two x y Hx Hy) as [-> ->]. reflexivity.
  - inversion H as [|? ? Hx H']; subst.
    inversion H' as [|? ? Hy H'']; subst.
    inversion H'' as [|? ? Hz Hl]; subst.
    cbn [sextets_of decode_sextets List.map].
    destruct (group_of_three x y z Hx Hy Hz) as (-> & -> & ->).
    rewrite (IH Hl). reflexivity.
Qed.

Lemma sextets_of_length ns :
  length (sextets_of ns)
  = (4 * (length ns / 3)
     + match (length ns mod 3)%nat with
       | 1 => 2
       | 2 => 3
       | _ => 0
       end)%nat.
Proof.
  induction ns as [| x | x y | x y z l IH] using list_ind3;
    try reflexivity.
  cbn [sextets_of length]. rewrite IH.
  replace (S (S (S (length l)))) with (length l + 1 * 3)%nat by lia.
  rewrite Nat.div_add, Nat.Div0.mod_add by lia. lia.
Qed.

Lemma padding_facts n :
  let core :=
    (4 * (n / 3)
     + match (n mod 3)%nat with 1 => 2 | 2 => 3 | _ => 0 end)%nat in
  (padding_of n <= 2)%nat
  /\ Z.of_nat (core + padding_of n) mod 4 = 0
  /\ Z.of_nat core mod 4 <> 1
  /\ (0 < padding_of n -> 2 <= core)%nat.
Proof.
  unfold padding_of. pose proof (Nat.mod_upper_bound n 3 ltac:(lia)) as Hm.
  destruct (n mod 3)%nat as [|[|[|m]]] eqn:E; cbv zeta; try lia.
  - repeat split; try lia.
    + rewrite Nat.add_0_r, Nat.add_0_r, Nat2Z.inj_mul, Z.mul_comm.
      apply Z.mod_mul. lia.
    + rewrite Nat.add_0_r, Nat2Z.inj_mul, Z.mul_comm, Z.mod_mul by lia. lia.
  - repeat split; try lia.
    + replace (Z.of_nat (4 * (n / 3) + 2 + 2))
        with ((Z.of_nat (n / 3) + 1) * 4) by lia.
      apply Z.mod_mul. lia.
    + replace (Z.of_nat (4 * (n / 3) + 2))
        with (2 + Z.of_nat (n / 3) * 4) by lia.
      rewrite Z.mod_add by lia. discriminate.
  - repeat split; try lia.
    + replace (Z.of_nat (4 * (n / 3) + 3 + 1))
        with ((Z.of_nat (n / 3) + 1) * 4) by lia.
      apply Z.mod_mul. lia.
    + replace (Z.of_nat (4 * (n / 3) + 3))
        with (3 + Z.of_nat (n / 3) * 4) by lia.
      rewrite Z.mod_add by lia. discriminate.
Qed.

Lemma rev_repeat {A} (x : A) k : rev (repeat x k) = repeat x k.
Proof.
  induction k as [|k IH]; [reflexivity|].
  simpl. rewrite IH. clear IH.
  induction k as [|k IH]; [reflexivity|]. simpl. rewrite IH. reflexivity.
Qed.

(** [strip_padding] takes the padding off an encoded text. *)
Lemma strip_padding_encoded core k :
  Forall (fun c => c <> "="%char) core ->
  (k <= 2)%nat ->
  Z.of_nat (length core + k) mod 4 = 0 ->
  (0 < k -> 2 <= length core)%nat ->
  strip_padding (core ++ repeat "="%char k) = core.
Proof.
  intros Hcore Hk Hmod Hne. unfold strip_padding.
  rewrite length_app, repeat_length, Hmod. cbn [Z.eqb].
  rewrite rev_app_distr, rev_repeat.
  assert (forall c, c ∈ rev core -> Ascii.eqb c "=" = false) as Hrev.
  { intros c Hc. apply Ascii.eqb_neq. rewrite Forall_forall in Hcore.
    apply Hcore. apply list_elem_of_In, in_rev, list_elem_of_In, Hc. }
  destruct k as [|[|[|k]]]; [| | |lia]; cbn [repeat app].
  - rewrite app_nil_r.
    destruct (rev core) as [|c1 [|c2 r]]; try reflexivity.
    rewrite (Hrev c1) by left. reflexivity.
  - destruct (rev core) as [|c2 r] eqn:E.
    + apply (f_equal (@length _)) in E. rewrite length_rev in E.
      simpl in E. specialize (Hne ltac:(lia)). lia.
    + rewrite Ascii.eqb_refl, (Hrev c2) by left.
      rewrite <- E, rev_involutive. reflexivity.
  - rewrite !Ascii.eqb_refl. apply rev_involutive.
Qed.

(** Encoding and decoding again gives the bytes back: every encoded text
    is base64 text that [atob] accepts. *)
Lemma base64_roundtrip bytes :
  base64_text (base64_encode bytes)
  /\ base64ToUint8Array (base64_encode bytes) = Ok bytes.
Proof.
  unfold base64_encode.
  set (ns := List.map (fun b => N_of_ascii (ascii_of_byte b)) bytes).
  set (k := padding_of (length bytes)).
  assert (Forall (fun n => (n < 256)%N) ns) as Hns.
  { apply Forall_forall. intros n Hn. unfold ns in Hn.
    apply list_elem_of_In, in_map_iff in Hn as (b & <- & _).
    apply N_ascii_bounded. }
  pose proof (sextets_of_bound ns Hns) as Hvs.
  set (vs := sextets_of ns) in *.
  assert (Forall (fun c => c <> "="%char) (List.map b64_char vs)) as Hcore.
  { apply Forall_forall. intros c Hc.
    apply list_elem_of_In, in_map_iff in Hc as (v & <- & Hv).
    rewrite Forall_forall in Hvs. apply b64_char_not_equals, Hvs.
    apply list_elem_of_In, Hv. }
  assert (base64_text
            (string_of_list_ascii
               (List.map b64_char vs ++ repeat "="%char k))) as Htext.
  { unfold base64_text. rewrite list_ascii_of_string_of_list_ascii.
    apply Forall_app. split.
    - apply Forall_forall. intros c Hc.
      apply list_elem_of_In, in_map_iff in Hc as (v & <- & Hv). left.
      rewrite Forall_forall in Hvs. rewrite b64_value_char; [eauto|].
      apply Hvs, list_elem_of_In, Hv.
    - apply Forall_forall. intros c Hc.
      apply list_elem_of_In, repeat_spec in Hc. auto. }
  split; [exact Htext|].
  assert (length ns = length bytes) as Hlen by apply length_map.
  pose proof (sextets_of_length ns) as Hvl. fold vs in Hvl.
  rewrite Hlen in Hvl.
  destruct (padding_facts (length bytes)) as (Hk & Hmod & Hmod1 & Hpos).
  cbv zeta in *. rewrite <- Hvl in *. fold k in Hk, Hmod, Hpos.
  unfold base64ToUint8Array, atob.
  rewrite base64_text_no_whitespace by exact Htext.
  rewrite list_ascii_of_string_of_list_ascii.
  rewrite strip_padding_encoded;
    [|exact Hcore|exact Hk|rewrite length_map; exact Hmod
     |rewrite length_map; exact Hpos].
  rewrite length_map.
  destruct (Z.of_nat (length vs) mod 4 =? 1) eqn:E;
    [apply Z.eqb_eq in E; contradiction|].
  rewrite (b64_values_chars vs Hvs). unfold vs.
  rewrite (decode_sextets_of ns Hns).
  cbn [bind]. f_equal.
  rewrite list_ascii_of_string_of_list_ascii. unfold ns.
  rewrite !List.map_map.
  rewrite <- (List.map_id bytes) at 2. apply List.map_ext.
  intros b. rewrite ascii_N_embedding. apply byte_of_ascii_of_byte.
Qed.

Lemma base64_encode_hello : base64_encode hello = "aGVsbG8=".
Proof. reflexivity. Qed.

(** ** Migration from the v1 schema *)

Lemma migrateV1toV2_inv rows now t :
  migrateV1toV2 rows now = Ok t ->
  t = insert_or_ignore (migrate_row <$> rows) (dir_row "" "" now)
  /\ primary_key_ok t.
Proof.
  unfold migrateV1toV2. rewrite for_each_fmap.
  destruct (for_each insert (migrate_row <$> rows) []) as [v2|] eqn:E;
    [|discriminate].
  simpl. intros [= <-].
  destruct (for_each_insert_inv _ _ _ (NoDup_nil_2 : primary_key_ok []) E)
    as [-> Hpk].
  split; [reflexivity|]. apply insert_or_ignore_primary_key, Hpk.
Qed.

(** A v1 table with at most one row per path migrates. *)
Lemma migrateV1toV2_succeeds rows now :
  NoDup (v1_path <$> rows) -> exists t, init (V1Table rows) now = Ok t.
Proof.
  intros Hnd. simpl. unfold migrateV1toV2. rewrite for_each_fmap.
  rewrite for_each_insert_fresh; [simpl; eauto|].
  unfold primary_key_ok. simpl.
  rewrite <- list_fmap_compose.
  apply (NoDup_fmap_1 fst). rewrite <- list_fmap_compose. exact Hnd.
Qed.

Lemma migrated_chunk_indexes rows now :
  Forall (fun x => chunk_index x = 0)
    (insert_or_ignore (migrate_row <$> rows) (dir_row "" "" now)).
Proof.
  assert (Forall (fun x => chunk_index x = 0) (migrate_row <$> rows)) as H.
  { apply Forall_fmap, Forall_forall. intros; reflexivity. }
  unfold insert_or_ignore. destruct (key_present _ _); [exact H|].
  apply Forall_app. split; [exact H|]. apply Forall_singleton. reflexivity.
Qed.

(** A migrated legacy row reads back as the bytes its text decodes to. *)
Lemma migrated_row_decodes rows now t r s bytes :
  init (V1Table rows) now = Ok t ->
  r ∈ rows ->
  normalizePath (v1_path r) = v1_path r ->
  v1_is_dir r = 0 ->
  v1_data r = SqlText s ->
  base64_text s ->
  base64ToUint8Array s = Ok bytes ->
  readFile t (v1_path r) = Ok bytes
  /\ exists st, stat t (v1_path r) = Ok st
                /\ st_size st = Z.of_nat (length bytes)
                /\ isFile st = true.
Proof.
  intros Hinit Hr Hpath Hdir Hdata Hs Hbytes. simpl in Hinit.
  apply migrateV1toV2_inv in Hinit as [Ht Hpk].
  assert (migrate_row r ∈ t) as Hin.
  { rewrite Ht. apply insert_or_ignore_elem, list_elem_of_fmap. eauto. }
  pose proof (select_by_key t (migrate_row r) Hpk Hin) as Hsel.
  change (path (migrate_row r)) with (v1_path r) in Hsel.
  change (chunk_index (migrate_row r)) with 0 in Hsel.
  assert (filter (fun x => path x = v1_path r) t = [migrate_row r]) as Hall.
  { rewrite <- Hsel. apply filter_iff_elem.
    pose proof (migrated_chunk_indexes rows now) as Hz. rewrite <- Ht in Hz.
    rewrite Forall_forall in Hz. intros x Hx. unfold has_key.
    specialize (Hz x Hx). tauto. }
  split.
  - unfold readFile. cbv zeta. rewrite Hpath.
    unfold select_chunk0. rewrite Hsel.
    cbn [is_dir migrate_row]. rewrite Hdir. cbn [Z.eqb negb].
    unfold select_path. rewrite Hall.
    cbn [order_by_chunk foldr insert_by_chunk map_result data migrate_row].
    rewrite Hdata, (rowDataToBytes_text s bytes Hbytes). reflexivity.
  - unfold stat. cbv zeta. rewrite Hpath.
    unfold select_chunk0. rewrite Hsel.
    eexists. split; [reflexivity|].
    cbn [st_size isFile type is_dir size data migrate_row].
    rewrite Hdir, Hdata. cbn [Z.eqb negb andb].
    split; [|reflexivity].
    apply base64ToUint8Array_length; assumption.
Qed.

(** C3.  After [init] has migrated a v1 table, a legacy file row stored
    under a canonical path reads back as the bytes its base64 text decodes
    to, and [stat] reports their number as the size: for every text over
    the base64 alphabet and ['='] that [atob] accepts, and in particular
    for the standard encoding of any byte sequence. *)
Theorem migrated_row_reads_back rows now t r :
  init (V1Table rows) now = Ok t ->
  r ∈ rows ->
  normalizePath (v1_path r) = v1_path r ->
  v1_is_dir r = 0 ->
  (forall s bytes,
     v1_data r = SqlText s -> base64_text s ->
     base64ToUint8Array s = Ok bytes ->
     reads_as t (v1_path r) bytes)
  /\ (forall bytes,
        v1_data r = SqlText (base64_encode bytes) ->
        reads_as t (v1_path r) bytes).
Proof.
  intros Hinit Hr Hpath Hdir.
  assert (forall s bytes,
     v1_data r = SqlText s -> base64_text s ->
     base64ToUint8Array s = Ok bytes ->
     reads_as t (v1_path r) bytes) as Hgen.
  { intros s bytes Hdata Hs Hbytes.
    exact (migrated_row_decodes rows now t r s bytes
             Hinit Hr Hpath Hdir Hdata Hs Hbytes). }
  split; [exact Hgen|].
  intros bytes Hdata.
  destruct (base64_roundtrip bytes) as [Htext Hdec].
  exact (Hgen _ _ Hdata Htext Hdec).
Qed.

(** Scenario: the legacy row ['readme'] reads back as ['hello'], size 5. *)
Lemma migrated_row_reads_back_witness :
  exists t,
    init (V1Table [legacy_readme]) 2000 = Ok t
    /\ readFile t "readme" = Ok hello
    /\ exists st, stat t "readme" = Ok st
                  /\ st_size st = 5 /\ isFile st = true.
Proof.
  eexists. split; [vm_compute; reflexivity|].
  refine (proj2 (migrated_row_reads_back [legacy_readme] 2000 _ legacy_readme
                   _ _ eq_refl eq_refl) hello eq_refl).
  - vm_compute. reflexivity.
  - apply list_elem_of_singleton. reflexivity.
Defined.

(** ** The primary key is an invariant of every operation *)

Lemma delete_path_primary_key t p :
  primary_key_ok t -> primary_key_ok (delete_path t p).
Proof.
  unfold primary_key_ok. intros H.
  apply (sublist_NoDup _ (key <$> t) H).
  apply fmap_sublist, sublist_filter.
Qed.

Lemma insert_or_replace_primary_key t r :
  primary_key_ok t -> primary_key_ok (insert_or_replace t r).
Proof.
  intros H. unfold insert_or_replace. apply primary_key_snoc.
  - unfold primary_key_ok in *.
    apply (sublist_NoDup _ (key <$> t) H).
    apply fmap_sublist, sublist_filter.
  - apply key_present_false, Forall_forall. intros x Hx E1 E2.
    apply list_elem_of_filter in Hx as [Hx _]. apply Hx. split; assumption.
Qed.

Lemma fold_left_primary_key {X} (f : Table -> X -> Table) xs :
  (forall t x, primary_key_ok t -> primary_key_ok (f t x)) ->
  forall t, primary_key_ok t -> primary_key_ok (fold_left f xs t).
Proof.
  intros Hf. induction xs as [|x xs IH]; intros t Ht; [exact Ht|].
  simpl. apply IH, Hf, Ht.
Qed.

Lemma createSchema_primary_key now : primary_key_ok (createSchema now).
Proof. apply insert_or_ignore_primary_key, NoDup_nil_2. Qed.

Lemma init_primary_key db now t :
  match db with V2Table t0 => primary_key_ok t0 | _ => True end ->
  init db now = Ok t -> primary_key_ok t.
Proof.
  destruct db as [|rows|t0]; simpl; intros Hdb H.
  - injection H as <-. apply createSchema_primary_key.
  - apply migrateV1toV2_inv in H. tauto.
  - injection H as <-. exact Hdb.
Qed.

Lemma writeFile_primary_key t p wdata nd now t' :
  primary_key_ok t -> writeFile t p wdata nd now = Ok t' ->
  primary_key_ok t'.
Proof.
  intros Ht H. pose proof H as H'. apply writeFile_inv in H' as (_ & _ & E).
  rewrite writeFile_eq in H. cbv zeta in H.
  destruct (bool_decide (normalizePath p = "")); [discriminate|].
  destruct (directory_at t (normalizePath p)); [discriminate|].
  assert (primary_key_ok (before_chunks t (normalizePath p) nd)) as Hb.
  { unfold before_chunks. apply delete_path_primary_key.
    destruct (1 <? _); [|exact Ht].
    unfold ensure_parents. apply fold_left_primary_key; [|exact Ht].
    intros. apply insert_or_ignore_primary_key. assumption. }
  pose proof (insert_file_rows _ _ (bytes_of wdata) now
                (before_chunks_absent t (normalizePath p) nd)) as Hins.
  destruct (for_each_insert_inv _ _ _ Hb Hins) as [_ Hpk].
  rewrite E. exact Hpk.
Qed.

Lemma unlink_primary_key t p t' :
  primary_key_ok t -> unlink t p = Ok t' -> primary_key_ok t'.
Proof.
  intros Ht. rewrite unlink_cases.
  destruct (chunk0 t (normalizePath p)) as [r|]; [|discriminate].
  destruct (is_dir r =? 1); [discriminate|].
  intros [= <-]. apply delete_path_primary_key, Ht.
Qed.

Lemma rmdir_primary_key t p t' :
  primary_key_ok t -> rmdir t p = Ok t' -> primary_key_ok t'.
Proof.
  intros Ht. rewrite rmdir_cases.
  case_bool_decide; [discriminate|].
  destruct (chunk0 t (normalizeDirPath p)) as [r|]; [|discriminate].
  destruct (negb (is_dir r =? 1)); [discriminate|].
  case_bool_decide; [|discriminate].
  intros [= <-]. apply delete_path_primary_key, Ht.
Qed.

Lemma mkdir_primary_key t p now t' :
  primary_key_ok t -> mkdir t p now = Ok t' -> primary_key_ok t'.
Proof.
  intros Ht. rewrite mkdir_cases. cbv zeta.
  case_bool_decide; [intros [= <-]; exact Ht|].
  destruct (_ && _); [discriminate|].
  destruct (chunk0 t (normalizeDirPath p)) as [r|] eqn:E.
  - destruct (is_dir r =? 1); [|discriminate]. intros [= <-]. exact Ht.
  - intros [= <-]. apply primary_key_snoc; [exact Ht|].
    apply key_absent_chunk0; [reflexivity|]. apply chunk0_None, E.
Qed.

Lemma rename_primary_key t a b t' :
  primary_key_ok t -> rename t a b = Ok t' -> primary_key_ok t'.
Proof.
  intros Ht. rewrite rename_eq.
  destruct (select_path t (normalizePath a)) as [|r rows]; [discriminate|].
  intros [= <-]. apply delete_path_primary_key.
  apply fold_left_primary_key.
  - intros. apply insert_or_replace_primary_key. assumption.
  - apply insert_or_replace_primary_key, Ht.
Qed.

(** ** MemFS *)

Lemma existsb_all_true {A} (l : list A) :
  existsb (fun _ => true) l = negb (bool_decide (l = [])).
Proof. destruct l; reflexivity. Qed.

Lemma keys_nil {V} (m : gmap string V) : MemFS.keys m = [] <-> m = ∅.
Proof.
  unfold MemFS.keys. rewrite <- map_to_list_empty_iff.
  destruct (map_to_list m); simpl; split; intros; congruence.
Qed.

Lemma root_probe {V} (m : gmap string V) :
  existsb (fun k => startsWith k "") (MemFS.keys m)
  = negb (bool_decide (m = ∅)).
Proof.
  change (fun k => startsWith k "") with (fun _ : string => true).
  rewrite existsb_all_true. f_equal.
  apply bool_decide_ext, keys_nil.
Qed.

Lemma memfs_stat_root_eq fs p now :
  MemPath.normalize p = "" ->
  MemFS.symlinks fs !! "" = None -> MemFS.files fs !! "" = None ->
  MemFS.stat fs p now =
    if bool_decide (MemFS.files fs = ∅) && bool_decide (MemFS.symlinks fs = ∅)
    then Throw (MemFS.enoent
                  (quoted "ENOENT: no such file or directory, stat '" p))
    else Ok (MemFS.makeStat now SqliteFS.TDir 16877 0 false).
Proof.
  intros Hn Hs Hf. unfold MemFS.stat. rewrite Hn, Hs, Hf.
  rewrite bool_decide_eq_true_2 by reflexivity.
  rewrite !root_probe.
  repeat case_bool_decide; simpl; congruence.
Qed.

(** C9, as the specification states it, fails on the freshly constructed
    file system: both loops run over no key and [stat] throws. *)
Lemma memfs_stat_root_empty :
  MemFS.stat MemFS.empty "" 0 =
    Throw (MemFS.enoent "ENOENT: no such file or directory, stat ''")
  /\ MemFS.stat MemFS.empty "/" 0 =
    Throw (MemFS.enoent "ENOENT: no such file or directory, stat '/'").
Proof. split; reflexivity. Qed.

(** C9 (amended).  [stat] on a path that normalises to the root reports a
    directory in every state where some key exists in one of the two maps
    and the empty path is itself no key of either; with both maps empty
    it throws [ENOENT]. *)
Theorem memfs_stat_root fs p now :
  MemPath.normalize p = "" ->
  (MemFS.files fs !! "" = None -> MemFS.symlinks fs !! "" = None ->
   MemFS.files fs <> ∅ \/ MemFS.symlinks fs <> ∅ ->
   MemFS.stat fs p now = Ok (MemFS.makeStat now SqliteFS.TDir 16877 0 false))
  /\ (MemFS.files fs = ∅ -> MemFS.symlinks fs = ∅ ->
      thrown_code (MemFS.stat fs p now) = Some ENOENT).
Proof.
  intros Hn. split.
  - intros Hf Hs Hne. rewrite memfs_stat_root_eq by assumption.
    destruct Hne as [H|H].
    + rewrite (bool_decide_eq_false_2 _ H). reflexivity.
    + rewrite (bool_decide_eq_false_2 _ H), andb_false_r. reflexivity.
  - intros Hf Hs. rewrite memfs_stat_root_eq; try assumption.
    + rewrite !bool_decide_eq_true_2 by assumption. reflexivity.
    + rewrite Hs. apply lookup_empty.
    + rewrite Hf. apply lookup_empty.
Qed.

(** The root of a file system with one file, and of an empty one. *)
Lemma memfs_stat_root_witness :
  MemFS.stat one_file "/" 7 = Ok (MemFS.makeStat 7 SqliteFS.TDir 16877 0 false)
  /\ thrown_code (MemFS.stat MemFS.empty "/" 7) = Some ENOENT.
Proof.
  split.
  - apply (proj1 (memfs_stat_root one_file "/" 7 eq_refl)); try reflexivity.
    left. apply map_non_empty_singleton.
  - apply (proj2 (memfs_stat_root MemFS.empty "/" 7 eq_refl)); reflexivity.
Defined.

(** C10.  [unlink] of the in-memory file system returns on every path,
    present or not; afterwards the normalised path is a key of neither map
    and every other key of both maps is as before. *)
Theorem memfs_unlink_total fs p :
  exists fs',
    MemFS.unlink fs p = Ok fs'
    /\ MemFS.files fs' !! MemPath.normalize p = None
    /\ MemFS.symlinks fs' !! MemPath.normalize p = None
    /\ forall k, k <> MemPath.normalize p ->
         MemFS.files fs' !! k = MemFS.files fs !! k
         /\ MemFS.symlinks fs' !! k = MemFS.symlinks fs !! k.
Proof.
  eexists. split; [reflexivity|]. simpl.
  split; [apply lookup_delete_eq|].
  split; [apply lookup_delete_eq|].
  intros k Hk. split; apply lookup_delete_ne; congruence.
Qed.

(** ** Reading depends on the rows of the path only *)

Lemma select_chunk0_rows_of t q :
  select_chunk0 t q = filter (fun r => chunk_index r = 0) (rows_of t q).
Proof.
  unfold select_chunk0, rows_of. rewrite list_filter_filter.
  apply filter_iff_elem. intros x _. unfold has_key. tauto.
Qed.

Lemma chunk0_rows_of t t' q :
  rows_of t q = rows_of t' q -> chunk0 t q = chunk0 t' q.
Proof.
  intros H. unfold chunk0. rewrite !select_chunk0_rows_of, H. reflexivity.
Qed.

Lemma same_rows t t' q :
  rows_of t (normalizePath q) = rows_of t' (normalizePath q) ->
  readFile t q = readFile t' q /\ stat t q = stat t' q
  /\ exists_ t q = exists_ t' q.
Proof.
  intros H.
  assert (select_chunk0 t (normalizePath q)
          = select_chunk0 t' (normalizePath q)) as H0
    by (rewrite !select_chunk0_rows_of, H; reflexivity).
  unfold exists_, readFile, stat, select_path. fold (rows_of t (normalizePath q)).
  fold (rows_of t' (normalizePath q)). rewrite H0, H. auto.
Qed.

Lemma rows_of_app t u q : rows_of (t ++ u) q = rows_of t q ++ rows_of u q.
Proof. apply filter_app. Qed.

Lemma rows_of_other l p q :
  Forall (fun r => path r = p) l -> q <> p -> rows_of l q = [].
Proof.
  intros H Hq. apply filter_none. eapply Forall_impl; [exact H|].
  simpl. intros r -> E. auto.
Qed.

Lemma rows_of_delete_other t p q :
  q <> p -> rows_of (delete_path t p) q = rows_of t q.
Proof.
  intros Hq. unfold rows_of, delete_path. rewrite list_filter_filter.
  apply filter_iff_elem. intros x _. split; [tauto|].
  intros E. split; [exact E|congruence].
Qed.

Lemma rows_of_delete t p : rows_of (delete_path t p) p = [].
Proof. apply path_absent_select_path, delete_path_absent. Qed.

Lemma rows_of_insert_or_replace_other t r q :
  path r <> q -> rows_of (insert_or_replace t r) q = rows_of t q.
Proof.
  intros Hq. unfold insert_or_replace. rewrite rows_of_app.
  rewrite (rows_of_other [r] (path r)) by (auto using Forall_cons_2, Forall_nil_2).
  rewrite app_nil_r. unfold rows_of. rewrite list_filter_filter.
  apply filter_iff_elem. intros x _. unfold has_key. split; [tauto|].
  intros E. split; [exact E|]. intros [E' _]. congruence.
Qed.

(** Where nothing is stored, every reading operation reports [ENOENT]. *)
Lemma absent_enoent t p :
  rows_of t (normalizePath p) = [] ->
  thrown_code (readFile t p) = Some ENOENT
  /\ thrown_code (stat t p) = Some ENOENT
  /\ exists_ t p = Ok false.
Proof.
  intros H.
  assert (select_chunk0 t (normalizePath p) = []) as H0
    by (rewrite select_chunk0_rows_of, H; reflexivity).
  unfold exists_, readFile, stat. rewrite H0. auto.
Qed.

(** X13.  [exists] never throws: [stat] throws nothing but [ENOENT], so
    the branch that throws the error again is never taken.  The answer
    is [true] exactly when the normalised path has a chunk-0 row. *)
Theorem exists_never_throws t p :
  exists_ t p = Ok (bool_decide (chunk0 t (normalizePath p) <> None)).
Proof.
  unfold exists_, stat, chunk0.
  destruct (select_chunk0 t (normalizePath p)); reflexivity.
Qed.

(** ** What writeFile changes and what it leaves *)

(** The rows that the ancestor loop appends have keys the table lacked. *)
Lemma insert_or_ignore_fresh rows : forall t,
  exists extra,
    fold_left insert_or_ignore rows t = t ++ extra
    /\ Forall (fun x => x ∈ rows /\ key_present t x = false) extra.
Proof.
  induction rows as [|r rows IH]; intros t; simpl.
  - exists []. rewrite app_nil_r. auto.
  - destruct (IH (insert_or_ignore t r)) as (extra & -> & Hex).
    unfold insert_or_ignore in *. destruct (key_present t r) eqn:Ek.
    + exists extra. split; [reflexivity|].
      eapply Forall_impl; [exact Hex|]. simpl. intros x [Hx Hk].
      split; [right; exact Hx|exact Hk].
    + exists (r :: extra). rewrite <- app_assoc. split; [reflexivity|].
      constructor; [split; [left|exact Ek]|].
      eapply Forall_impl; [exact Hex|]. simpl. intros x [Hx Hk].
      split; [right; exact Hx|].
      destruct (key_present t x) eqn:E; [|reflexivity].
      rewrite (key_present_app t [r] x E) in Hk. discriminate.
Qed.

Lemma rows_of_ensure_parents t n nd q :
  chunk0 t q <> None \/ q ∉ ancestors n ->
  rows_of (ensure_parents t (split_slash n) nd) q = rows_of t q.
Proof.
  intros Hq. rewrite ensure_parents_fold.
  destruct (insert_or_ignore_fresh
              (ancestor_row (split_slash n) nd
                 <$> seq 0 (length (split_slash n) - 1)) t)
    as (extra & -> & Hex).
  rewrite rows_of_app.
  replace (rows_of extra q) with (@nil Row); [apply app_nil_r|].
  symmetry. apply filter_none. eapply Forall_impl; [exact Hex|].
  simpl. intros x [Hx Hk] E.
  apply list_elem_of_fmap in Hx as (i & -> & Hi).
  destruct Hq as [Hq|Hq].
  - apply Hq. apply chunk0_None.
    destruct (select_chunk0 t q) as [|r0 rest] eqn:Es; [reflexivity|].
    assert (r0 ∈ select_chunk0 t q) as Hr0 by (rewrite Es; left).
    apply list_elem_of_filter in Hr0 as [[Hp Hc] Hr0].
    unfold key_present in Hk. apply bool_decide_eq_false in Hk.
    exfalso. apply Hk. apply Exists_exists. exists r0. split; [exact Hr0|].
    split; [rewrite E; exact Hp|exact Hc].
  - apply Hq. unfold ancestors. apply list_elem_of_fmap. exists i.
    split; [symmetry; exact E|exact Hi].
Qed.

(** X2.  [writeFile] touches the rows of its own path and creates the
    missing ancestors, nothing else: any other path that was stored, or
    that is not an ancestor of the written one, reads and stats after the
    write as it did before. *)
Theorem writeFile_leaves_others t p wdata nd now t' q :
  writeFile t p wdata nd now = Ok t' ->
  normalizePath q <> normalizePath p ->
  chunk0 t (normalizePath q) <> None
  \/ normalizePath q ∉ ancestors (normalizePath p) ->
  readFile t' q = readFile t q /\ stat t' q = stat t q
  /\ exists_ t' q = exists_ t q.
Proof.
  intros H Hne Hq. apply writeFile_inv in H as (_ & _ & ->).
  apply same_rows. rewrite rows_of_app.
  rewrite (rows_of_other _ (normalizePath p) _ (file_rows_path _ _ _) Hne).
  rewrite app_nil_r. unfold before_chunks.
  rewrite rows_of_delete_other by exact Hne.
  destruct (1 <? _); [|reflexivity].
  apply rows_of_ensure_parents, Hq.
Qed.

Lemma writeFile_leaves_others_witness :
  readFile file_in_d "top" = Throw (makeErrno "ENOENT: no such file or directory, open 'top'" ENOENT (-2) "top")
  /\ exists t',
    writeFile file_in_d "d/g" (Text "2") 4000 4000 = Ok t'
    /\ readFile t' "d/f" = readFile file_in_d "d/f"
    /\ stat t' "d/f" = stat file_in_d "d/f"
    /\ exists_ t' "d/f" = exists_ file_in_d "d/f".
Proof.
  split; [reflexivity|].
  eexists. split; [reflexivity|].
  apply (writeFile_leaves_others file_in_d "d/g" (Text "2") 4000 4000 _ "d/f").
  - reflexivity.
  - vm_compute. discriminate.
  - left. vm_compute. discriminate.
Defined.

(** X3.  [writeFile] fails in two cases only: on the root, and on a path
    stored as a directory.  On any other path and in any table it
    succeeds: missing ancestors are no error, they are created, and the
    chunk rows never collide with rows already there. *)
Theorem writeFile_fails_only_on_root_or_directory t p wdata nd now :
  (normalizePath p = "" ->
   writeFile t p wdata nd now = Throw (PlainError "Cannot write to root"))
  /\ (normalizePath p <> "" ->
      (forall r, chunk0 t (normalizePath p) = Some r -> is_dir r = 1 ->
         thrown_code (writeFile t p wdata nd now) = Some EISDIR)
      /\ ((forall r, chunk0 t (normalizePath p) = Some r -> is_dir r <> 1) ->
          writeFile t p wdata nd now
          = Ok (before_chunks t (normalizePath p) nd
                ++ file_rows (normalizePath p) (bytes_of wdata) now))).
Proof.
  rewrite writeFile_eq. cbv zeta. split.
  - intros ->. reflexivity.
  - intros Hn. rewrite bool_decide_eq_false_2 by exact Hn.
    unfold directory_at, chunk0.
    destruct (select_chunk0 t (normalizePath p)) as [|r0 rest]; simpl.
    + split; [discriminate|reflexivity].
    + split.
      * intros r [= <-] ->. reflexivity.
      * intros H. specialize (H r0 eq_refl).
        destruct (is_dir r0 =? 1) eqn:E; [|reflexivity].
        apply Z.eqb_eq in E. contradiction.
Qed.

(** X4.  The proper ancestors after a write: each has a chunk-0 row.
    Where there was none, the row is a new directory row without data;
    where there was one, it is kept as it was, whether it is a directory
    or a file. *)
Theorem writeFile_creates_ancestors t p wdata nd now t' a :
  writeFile t p wdata nd now = Ok t' ->
  a ∈ ancestors (normalizePath p) ->
  (chunk0 t a = None ->
   exists r, chunk0 t' a = Some r /\ is_dir r = 1 /\ data r = SqlNull)
  /\ (forall r0, chunk0 t a = Some r0 -> chunk0 t' a = Some r0).
Proof.
  intros H Ha.
  destruct (writeFile_ancestors t p wdata nd now t' a H Ha)
    as (r & Hr & Hnew & Hold).
  split.
  - intros Hnone. exists r. split; [exact Hr|]. apply Hnew, Hnone.
  - intros r0 Hr0. rewrite Hr. f_equal. apply Hold, Hr0.
Qed.

Lemma writeFile_creates_ancestors_witness :
  exists t',
    writeFile (createSchema 1000) "a/b/c.txt" (Bytes hello) 2000 2000 = Ok t'
    /\ exists r, chunk0 t' "a/b" = Some r /\ is_dir r = 1 /\ data r = SqlNull.
Proof.
  eexists. split; [reflexivity|].
  refine (proj1 (writeFile_creates_ancestors (createSchema 1000) "a/b/c.txt"
                   (Bytes hello) 2000 2000 _ "a/b" eq_refl _) eq_refl).
  vm_compute. right. left.
Defined.

Lemma parent_in_ancestors n : 1 < depth n -> parent_of n ∈ ancestors n.
Proof.
  unfold depth, parent_of, parent_of_parts, ancestors. intros H.
  destruct (1 <? Z.of_nat (length (split_slash n))) eqn:E;
    [|apply Z.ltb_ge in E; lia].
  apply list_elem_of_fmap. exists (length (split_slash n) - 2)%nat.
  split; [|apply elem_of_seq; lia].
  rewrite removelast_firstn_len. f_equal. f_equal. lia.
Qed.

Lemma parent_of_neq n : n <> "" -> parent_of n <> n.
Proof.
  intros Hn. destruct (Z_lt_dec 1 (depth n)) as [H|H].
  - apply ancestor_neq, parent_in_ancestors, H.
  - unfold depth in H. unfold parent_of, parent_of_parts.
    destruct (1 <? Z.of_nat (length (split_slash n))) eqn:E;
      [apply Z.ltb_lt in E; lia|]. congruence.
Qed.

Lemma insert_by_path_elem r l x :
  x ∈ insert_by_path r l <-> x = r \/ x ∈ l.
Proof.
  induction l as [|y l IH]; simpl.
  - rewrite list_elem_of_singleton, elem_of_nil. tauto.
  - destruct (String.compare (path r) (path y)); rewrite !elem_of_cons;
      tauto.
Qed.

Lemma order_by_path_elem l x : x ∈ order_by_path l <-> x ∈ l.
Proof.
  induction l as [|y l IH]; [reflexivity|]. simpl.
  rewrite insert_by_path_elem, IH, elem_of_cons. tauto.
Qed.

Lemma readdir_cases t p :
  readdir t p =
    match chunk0 t (normalizeDirPath p) with
    | None =>
        Throw (makeErrno
          (quoted "ENOENT: no such file or directory, scandir '" p)
          ENOENT (-2) p)
    | Some r =>
        if is_dir r =? 0 then
          Throw (makeErrno
            (quoted "ENOTDIR: not a directory, scandir '" p)
            ENOTDIR (-20) p)
        else
          Ok (List.map (fun row => last_segment (path row))
                (order_by_path
                   (filter (fun r => parent_path r = normalizeDirPath p
                                     /\ path r <> normalizeDirPath p
                                     /\ chunk_index r = 0) t)))
    end.
Proof.
  unfold readdir, chunk0.
  destruct (select_chunk0 t (normalizeDirPath p)); reflexivity.
Qed.

Lemma chunk0_written t n bytes now :
  path_absent t n ->
  chunk0 (t ++ file_rows n bytes now) n
  = Some (chunk_row n (parent_of n) bytes now 0).
Proof.
  intros H. unfold chunk0. rewrite select_chunk0_written by exact H.
  reflexivity.
Qed.

(** X5.  After [writeFile], [readdir] of the file itself raises [ENOTDIR],
    and [readdir] of its parent lists its last segment, provided the
    parent is a directory: one that [writeFile] has just created, or one
    that was there. *)
Theorem writeFile_then_readdir t p wdata nd now t' d :
  writeFile t p wdata nd now = Ok t' ->
  (normalizeDirPath p = normalizePath p ->
   thrown_code (readdir t' p) = Some ENOTDIR)
  /\ (normalizeDirPath d = parent_of (normalizePath p) ->
      (chunk0 t (normalizeDirPath d) = None /\ 1 < depth (normalizePath p))
      \/ is_directory t (normalizeDirPath d) ->
      exists names,
        readdir t' d = Ok names
        /\ last_segment (normalizePath p) ∈ names).
Proof.
  intros H. pose proof H as Hinv.
  apply writeFile_inv in Hinv as (Hroot & _ & Et').
  set (n := normalizePath p) in *.
  pose proof (before_chunks_absent t n nd) as Habs.
  split.
  - intros Hp. rewrite readdir_cases, Hp. fold n. rewrite Et'.
    rewrite chunk0_written by exact Habs. reflexivity.
  - intros Hd Hparent. rewrite readdir_cases, Hd.
    assert (exists r, chunk0 t' (parent_of n) = Some r /\ is_dir r = 1)
      as (r & -> & Hr).
    { rewrite Hd in Hparent. destruct Hparent as [[Hnone Hdepth]|(r & Hr & Hdir)].
      - destruct (writeFile_ancestors t p wdata nd now t' (parent_of n) H
                    (parent_in_ancestors n Hdepth)) as (r & Hr & Hnew & _).
        exists r. split; [exact Hr|]. apply Hnew, Hnone.
      - exists r. split; [|exact Hdir]. rewrite <- Hr. rewrite Et'.
        apply chunk0_rows_of. rewrite rows_of_app.
        rewrite (rows_of_other _ n _ (file_rows_path _ _ _)
                   (parent_of_neq n Hroot)).
        rewrite app_nil_r. unfold before_chunks.
        rewrite rows_of_delete_other by (apply parent_of_neq, Hroot).
        destruct (1 <? _); [|reflexivity].
        apply rows_of_ensure_parents. left. congruence. }
    rewrite Hr. simpl. eexists. split; [reflexivity|].
    apply list_elem_of_fmap. exists (chunk_row n (parent_of n) (bytes_of wdata) now 0).
    split; [reflexivity|].
    apply (proj2 (order_by_path_elem _ _)), list_elem_of_filter. split.
    + split; [reflexivity|]. split; [|reflexivity]. simpl.
      intros E. symmetry in E. revert E. apply parent_of_neq, Hroot.
    + rewrite Et'. apply elem_of_app. right.
      destruct (file_rows_cons n (bytes_of wdata) now) as (rest & -> & _).
      left.
Qed.

Lemma writeFile_then_readdir_witness :
  exists t',
    writeFile (createSchema 1000) "/src/lib/a.ts" (Text "x") 2000 2000 = Ok t'
    /\ thrown_code (readdir t' "/src/lib/a.ts") = Some ENOTDIR
    /\ exists names,
         readdir t' "src/lib/" = Ok names /\ "a.ts" ∈ names.
Proof.
  eexists. split; [reflexivity|].
  destruct (writeFile_then_readdir (createSchema 1000) "/src/lib/a.ts"
              (Text "x") 2000 2000 _ "src/lib/" eq_refl) as [H1 H2].
  split; [apply H1; reflexivity|].
  apply H2; [reflexivity|]. left. split; [reflexivity|]. vm_compute. reflexivity.
Defined.

(** What [stat] reports has one of two shapes, and never a link. *)
Lemma stat_shape t p s :
  stat t p = Ok s ->
  isSymbolicLink s = false
  /\ isFile s = negb (isDirectory s)
  /\ mode s = (if isDirectory s then 16877 else 33188).
Proof.
  unfold stat. destruct (select_chunk0 t (normalizePath p)) as [|r rest];
    [discriminate|].
  intros [= <-]. unfold isFile, isDirectory. simpl.
  destruct (is_dir r =? 1); auto.
Qed.

(** X12.  [symlink] stores the link as a regular file whose content is the
    UTF-8 text of the target: [readFile] returns those bytes, and [lstat]
    reports a file of that size with [isSymbolicLink()] false. *)
Theorem symlink_is_a_file t target p nd now t' :
  symlink t target p nd now = Ok t' ->
  readFile t' p = Ok (TextEncoder_encode target)
  /\ exists s,
       lstat t' p = Ok s
       /\ isFile s = true /\ isSymbolicLink s = false /\ mode s = 33188
       /\ st_size s = Z.of_nat (length (TextEncoder_encode target)).
Proof.
  unfold symlink, lstat. intros H.
  apply writeFile_inv in H as (_ & _ & ->).
  pose proof (before_chunks_absent t (normalizePath p) nd) as Habs.
  split; [apply readFile_written, Habs|].
  destruct (stat_written _ p (TextEncoder_encode target) now Habs)
    as (s & Hs & Hsize & Hfile & _).
  exists s. split; [exact Hs|].
  destruct (stat_shape _ _ _ Hs) as (Hlink & Hf & Hmode).
  rewrite Hfile in Hf. destruct (isDirectory s); [discriminate|]. auto.
Qed.

Lemma symlink_is_a_file_witness :
  exists t',
    symlink (createSchema 1000) "refs/heads/main" ".git/HEAD" 2000 2000 = Ok t'
    /\ readFile t' ".git/HEAD" = Ok (TextEncoder_encode "refs/heads/main")
    /\ exists s,
         lstat t' ".git/HEAD" = Ok s
         /\ isFile s = true /\ isSymbolicLink s = false /\ mode s = 33188
         /\ st_size s = 15.
Proof.
  eexists. split; [reflexivity|].
  apply (symlink_is_a_file (createSchema 1000) "refs/heads/main" ".git/HEAD"
           2000 2000 _ eq_refl).
Defined.

(** ** unlink, mkdir and rmdir, composed *)

(** X6.  A successful [unlink] removes every row of the path: the path then
    reads as absent, and every other path reads as before. *)
Theorem unlink_removes_file t p t' :
  unlink t p = Ok t' ->
  rows_of t' (normalizePath p) = []
  /\ thrown_code (readFile t' p) = Some ENOENT
  /\ thrown_code (stat t' p) = Some ENOENT
  /\ exists_ t' p = Ok false
  /\ thrown_code (unlink t' p) = Some ENOENT
  /\ forall q, normalizePath q <> normalizePath p ->
       readFile t' q = readFile t q /\ stat t' q = stat t q.
Proof.
  rewrite unlink_cases. destruct (chunk0 t (normalizePath p)) as [r|];
    [|discriminate].
  destruct (is_dir r =? 1); [discriminate|]. intros [= <-].
  pose proof (rows_of_delete t (normalizePath p)) as Hrows.
  destruct (absent_enoent _ p Hrows) as (Hr & Hs & He).
  repeat split; try assumption.
  - rewrite unlink_cases, chunk0_delete_path. reflexivity.
  - apply same_rows, rows_of_delete_other. assumption.
  - apply same_rows, rows_of_delete_other. assumption.
Qed.

Lemma unlink_removes_file_witness :
  exists t',
    unlink file_in_d "/d/f" = Ok t'
    /\ rows_of t' "d/f" = []
    /\ thrown_code (readFile t' "/d/f") = Some ENOENT
    /\ exists_ t' "/d/f" = Ok false.
Proof.
  eexists. split; [reflexivity|].
  pose proof (unlink_removes_file file_in_d "/d/f" _ eq_refl) as H.
  split; [apply H|]. split; apply H.
Defined.

(** X7.  [mkdir] of a path that stores nothing, then [rmdir]: the new
    directory lists as empty and [rmdir] gives back the table as it was. *)
Theorem mkdir_then_rmdir t p now t' :
  mkdir t p now = Ok t' ->
  normalizeDirPath p <> "" ->
  rows_of t (normalizeDirPath p) = [] ->
  select_children t (normalizeDirPath p) = [] ->
  readdir t' p = Ok [] /\ rmdir t' p = Ok t.
Proof.
  intros H Hroot Habs Hkids.
  set (n := normalizeDirPath p) in *.
  assert (chunk0 t n = None) as Hnone.
  { unfold chunk0. rewrite select_chunk0_rows_of, Habs. reflexivity. }
  rewrite mkdir_cases in H. fold n in H. cbv zeta in H.
  rewrite bool_decide_eq_false_2 in H by exact Hroot.
  destruct (_ && _) in H; [discriminate|]. rewrite Hnone in H.
  injection H as <-.
  assert (path_absent t n) as Hpa.
  { apply Forall_forall. intros x Hx E.
    assert (x ∈ rows_of t n) as Hin by (apply list_elem_of_filter; auto).
    rewrite Habs in Hin. inversion Hin. }
  assert (chunk0 (t ++ [dir_row n (parent_of n) now]) n
          = Some (dir_row n (parent_of n) now)) as Hc.
  { unfold chunk0, select_chunk0. rewrite filter_app.
    fold (select_chunk0 t n).
    rewrite (path_absent_select_chunk0 t n Hpa).
    rewrite filter_cons_True by (split; reflexivity). reflexivity. }
  split.
  - rewrite readdir_cases. fold n. rewrite Hc. simpl.
    rewrite filter_app.
    rewrite (filter_cons_False _ _ []) by (simpl; tauto).
    rewrite filter_nil, app_nil_r.
    replace (filter _ t) with (@nil Row); [reflexivity|].
    symmetry. apply filter_none. apply Forall_forall. intros x Hx (Hp & _ & Hi).
    assert (x ∈ select_children t n) as Hin
      by (apply list_elem_of_filter; auto).
    rewrite Hkids in Hin. inversion Hin.
  - rewrite rmdir_cases. fold n.
    rewrite bool_decide_eq_false_2 by exact Hroot. rewrite Hc. simpl.
    assert (select_children (t ++ [dir_row n (parent_of n) now]) n = [])
      as ->.
    { unfold select_children. rewrite filter_app. fold (select_children t n).
      rewrite Hkids. rewrite filter_cons_False; [reflexivity|].
      simpl. intros [E _]. revert E. apply parent_of_neq, Hroot. }
    simpl. f_equal. unfold delete_path. rewrite filter_app.
    rewrite (filter_cons_False _ _ []) by (simpl; tauto).
    rewrite filter_nil, app_nil_r.
    apply filter_all. exact Hpa.
Qed.

Lemma mkdir_then_rmdir_witness :
  exists t',
    mkdir file_in_d "d/sub/" 5000 = Ok t'
    /\ readdir t' "d/sub/" = Ok [] /\ rmdir t' "d/sub/" = Ok file_in_d.
Proof.
  eexists. split; [reflexivity|].
  apply (mkdir_then_rmdir file_in_d "d/sub/" 5000 _ eq_refl).
  - vm_compute. discriminate.
  - reflexivity.
  - reflexivity.
Defined.

Lemma chunk0_snoc t r n :
  chunk0 (t ++ [r]) n
  = match chunk0 t n with
    | Some x => Some x
    | None => if decide (has_key n 0 r) then Some r else None
    end.
Proof.
  unfold chunk0, select_chunk0. rewrite filter_app.
  destruct (filter (has_key n 0) t); [|reflexivity]. simpl.
  destruct (decide (has_key n 0 r)).
  - rewrite filter_cons_True by assumption. reflexivity.
  - rewrite filter_cons_False by assumption. reflexivity.
Qed.

(** X8.  [mkdir] is idempotent: after a [mkdir] that succeeded, a second
    one changes nothing; and unless the path is the root, the path is
    then stored as a directory that [readdir] can list. *)
Theorem mkdir_idempotent t p now t' :
  mkdir t p now = Ok t' ->
  (forall now', mkdir t' p now' = Ok t')
  /\ (normalizeDirPath p <> "" ->
      is_directory t' (normalizeDirPath p)
      /\ exists names, readdir t' p = Ok names).
Proof.
  rewrite mkdir_cases. cbv zeta. set (n := normalizeDirPath p).
  assert (forall u, is_directory u n ->
            exists names, readdir u p = Ok names) as Hlist.
  { intros u (r & Hr & Hdir). rewrite readdir_cases. fold n. rewrite Hr.
    rewrite Hdir. simpl. eauto. }
  destruct (bool_decide (n = "")) eqn:En.
  { intros [= <-]. apply bool_decide_eq_true in En.
    split; [|contradiction].
    intros now'. rewrite mkdir_cases. fold n. cbv zeta.
    rewrite bool_decide_eq_true_2 by exact En. reflexivity. }
  apply bool_decide_eq_false in En.
  destruct (1 <? Z.of_nat (length (split_slash n))) eqn:Ed; simpl.
  - destruct (chunk0 t (join_slash (removelast (split_slash n))))
      as [parent|] eqn:Ep; [|discriminate].
    destruct (negb (is_dir parent =? 1)) eqn:Edir; [discriminate|].
    destruct (chunk0 t n) as [existing|] eqn:Ee.
    + destruct (is_dir existing =? 1) eqn:E1; [|discriminate].
      intros [= <-]. apply Z.eqb_eq in E1.
      assert (is_directory t n) as Hd by (exists existing; auto).
      split; [|auto]. intros now'. rewrite mkdir_cases. fold n. cbv zeta.
      rewrite bool_decide_eq_false_2 by exact En.
      rewrite Ed, Ep, Edir, Ee. simpl.
      rewrite (proj2 (Z.eqb_eq _ _) E1). reflexivity.
    + intros [= <-].
      assert (chunk0 (t ++ [dir_row n (parent_of n) now]) n
              = Some (dir_row n (parent_of n) now)) as Hc.
      { rewrite chunk0_snoc, Ee.
        rewrite decide_True by (split; reflexivity). reflexivity. }
      assert (is_directory (t ++ [dir_row n (parent_of n) now]) n) as Hd
        by (eexists; split; [exact Hc|reflexivity]).
      split; [|auto]. intros now'. rewrite mkdir_cases. fold n. cbv zeta.
      rewrite bool_decide_eq_false_2 by exact En.
      rewrite Ed, chunk0_snoc, Ep, Edir, Hc. reflexivity.
  - destruct (chunk0 t n) as [existing|] eqn:Ee.
    + destruct (is_dir existing =? 1) eqn:E1; [|discriminate].
      intros [= <-]. apply Z.eqb_eq in E1.
      assert (is_directory t n) as Hd by (exists existing; auto).
      split; [|auto]. intros now'. rewrite mkdir_cases. fold n. cbv zeta.
      rewrite bool_decide_eq_false_2 by exact En.
      rewrite Ed, Ee. simpl.
      rewrite (proj2 (Z.eqb_eq _ _) E1). reflexivity.
    + intros [= <-].
      assert (chunk0 (t ++ [dir_row n (parent_of n) now]) n
              = Some (dir_row n (parent_of n) now)) as Hc.
      { rewrite chunk0_snoc, Ee.
        rewrite decide_True by (split; reflexivity). reflexivity. }
      assert (is_directory (t ++ [dir_row n (parent_of n) now]) n) as Hd
        by (eexists; split; [exact Hc|reflexivity]).
      split; [|auto]. intros now'. rewrite mkdir_cases. fold n. cbv zeta.
      rewrite bool_decide_eq_false_2 by exact En.
      rewrite Ed, Hc. reflexivity.
Qed.

Lemma mkdir_idempotent_witness :
  exists t',
    mkdir file_in_d "d/sub/" 5000 = Ok t'
    /\ mkdir t' "d/sub/" 6000 = Ok t'
    /\ exists names, readdir t' "d/sub/" = Ok names.
Proof.
  eexists. split; [reflexivity|].
  destruct (mkdir_idempotent file_in_d "d/sub/" 5000 _ eq_refl) as [H1 H2].
  split; [apply H1|]. apply H2. vm_compute. discriminate.
Defined.

(** ** The primary key, for every operation *)

Lemma file_in_d_primary_key : primary_key_ok file_in_d.
Proof.
  apply (writeFile_primary_key (createSchema 1000) "d/f" (Text "1") 3000 3000);
    [apply createSchema_primary_key|reflexivity].
Qed.

(** X1.  The primary key [(path, chunk_index)] is an invariant of the
    operations that change the table: from a table without two rows of
    the same key, whatever succeeds leaves such a table. *)
Theorem operations_keep_primary_key t :
  primary_key_ok t ->
  (forall p wdata nd now t',
     writeFile t p wdata nd now = Ok t' -> primary_key_ok t')
  /\ (forall p t', unlink t p = Ok t' -> primary_key_ok t')
  /\ (forall p now t', mkdir t p now = Ok t' -> primary_key_ok t')
  /\ (forall p t', rmdir t p = Ok t' -> primary_key_ok t')
  /\ (forall a b t', rename t a b = Ok t' -> primary_key_ok t')
  /\ (forall target p nd now t',
        symlink t target p nd now = Ok t' -> primary_key_ok t').
Proof.
  intros H. repeat split; intros.
  - eapply writeFile_primary_key; eassumption.
  - eapply unlink_primary_key; eassumption.
  - eapply mkdir_primary_key; eassumption.
  - eapply rmdir_primary_key; eassumption.
  - eapply rename_primary_key; eassumption.
  - eapply writeFile_primary_key; eassumption.
Qed.

Lemma operations_keep_primary_key_witness :
  exists t',
    rename file_in_d "d/f" "d/g" = Ok t' /\ primary_key_ok t'.
Proof.
  eexists. split; [reflexivity|].
  destruct (operations_keep_primary_key file_in_d file_in_d_primary_key)
    as (_ & _ & _ & _ & H & _).
  apply (H "d/f" "d/g"). reflexivity.
Defined.

(** ** rename, path by path *)

Lemma rename_then_read_witness :
  exists t',
    rename file_in_d "d/f" "d/g" = Ok t'
    /\ readFile t' "d/g" = Ok [x31]
    /\ thrown_code (readFile t' "d/f") = Some ENOENT.
Proof.
  apply (rename_then_read file_in_d "d/f" "d/g" [x31]).
  - apply file_in_d_primary_key.
  - vm_compute. discriminate.
  - reflexivity.
  - intros x Hx E. apply list_elem_of_In in Hx. simpl in Hx.
    destruct Hx as [<-|[<-|[<-|[]]]]; discriminate.
Defined.

Lemma rows_of_moved t nb np rows q :
  q <> nb ->
  rows_of (fold_left (fun t row => insert_or_replace t (moved_row nb np row))
             rows t) q
  = rows_of t q.
Proof.
  intros Hq. revert t. induction rows as [|r rows IH]; intros t; simpl;
    [reflexivity|].
  rewrite IH. apply rows_of_insert_or_replace_other. simpl. congruence.
Qed.

(** X11.  [rename] rewrites the rows of the two paths only.  A path below a
    renamed directory is not moved with it: it reads and stats afterwards
    exactly as before, under its old name. *)
Theorem rename_leaves_others t a b t' q :
  rename t a b = Ok t' ->
  normalizePath q <> normalizePath a ->
  normalizePath q <> normalizePath b ->
  readFile t' q = readFile t q /\ stat t' q = stat t q
  /\ exists_ t' q = exists_ t q.
Proof.
  rewrite rename_eq. intros H Ha Hb.
  destruct (select_path t (normalizePath a)) as [|r rows] eqn:E;
    [discriminate|].
  injection H as <-. apply same_rows.
  rewrite rows_of_delete_other by exact Ha.
  exact (rows_of_moved t _ _ (r :: rows) _ Hb).
Qed.

Lemma rename_leaves_others_witness :
  exists t',
    rename file_in_d "d" "e" = Ok t'
    /\ readFile t' "d/f" = readFile file_in_d "d/f"
    /\ stat t' "d/f" = stat file_in_d "d/f"
    /\ exists_ t' "d/f" = exists_ file_in_d "d/f".
Proof.
  eexists. split; [reflexivity|].
  apply (rename_leaves_others file_in_d "d" "e" _ "d/f" eq_refl);
    vm_compute; discriminate.
Defined.

(** X10.  Renaming a path onto itself deletes it: the rows are first
    replaced in place and then removed by the [DELETE] of the old path. *)
Theorem rename_onto_itself t a b t' :
  rename t a b = Ok t' ->
  normalizePath a = normalizePath b ->
  rows_of t' (normalizePath a) = []
  /\ thrown_code (readFile t' b) = Some ENOENT
  /\ thrown_code (stat t' b) = Some ENOENT
  /\ exists_ t' b = Ok false.
Proof.
  rewrite rename_eq. intros H Hab.
  destruct (select_path t (normalizePath a)) as [|r rows] eqn:E;
    [discriminate|].
  injection H as <-. rewrite <- Hab.
  match goal with
  | |- rows_of (delete_path ?X _) _ = [] /\ _ =>
      pose proof (rows_of_delete X (normalizePath a)) as Hrows
  end.
  split; [exact Hrows|]. apply absent_enoent. rewrite <- Hab. exact Hrows.
Qed.

Lemma rename_onto_itself_witness :
  exists t',
    rename file_in_d "d/f" "/d/f" = Ok t'
    /\ rows_of t' "d/f" = []
    /\ thrown_code (readFile t' "/d/f") = Some ENOENT
    /\ thrown_code (stat t' "/d/f") = Some ENOENT
    /\ exists_ t' "/d/f" = Ok false.
Proof.
  eexists. split; [reflexivity|].
  apply (rename_onto_itself file_in_d "d/f" "/d/f" _ eq_refl). reflexivity.
Defined.

(** ** exportGitObjects *)

Lemma ascii_compare_refl c : Ascii.compare c c = Eq.
Proof. apply N.compare_refl. Qed.

Lemma string_compare_refl s : String.compare s s = Eq.
Proof.
  induction s as [|c s IH]; [reflexivity|]. simpl.
  rewrite ascii_compare_refl. exact IH.
Qed.

Lemma string_compare_lt_trans a : forall b c,
  String.compare a b = Lt -> String.compare b c = Lt ->
  String.compare a c = Lt.
Proof.
  induction a as [|x a IH]; intros [|y b] [|z c]; simpl; try congruence.
  unfold Ascii.compare.
  destruct (N.compare_spec (N_of_ascii x) (N_of_ascii y)) as [E1|E1|E1];
    destruct (N.compare_spec (N_of_ascii y) (N_of_ascii z)) as [E2|E2|E2];
    destruct (N.compare_spec (N_of_ascii x) (N_of_ascii z)) as [E3|E3|E3];
    try congruence; try lia; try apply IH.
Qed.

Lemma string_compare_lt_le a b c :
  String.compare a b = Lt -> String.compare b c <> Gt ->
  String.compare a c = Lt.
Proof.
  intros H1 H2. destruct (String.compare b c) eqn:E; [| |congruence].
  - apply String.compare_eq_iff in E. congruence.
  - eapply string_compare_lt_trans; eassumption.
Qed.

Lemma string_compare_gt a b :
  String.compare a b = Gt <-> String.compare b a = Lt.
Proof.
  rewrite (String.compare_antisym a b).
  destruct (String.compare b a); simpl; split; congruence.
Qed.

Lemma row_le_path a b : row_le a b -> String.compare (path a) (path b) <> Gt.
Proof.
  unfold row_le, row_leb. destruct (String.compare _ _); congruence.
Qed.

Lemma row_le_trans a b c : row_le a b -> row_le b c -> row_le a c.
Proof.
  unfold row_le, row_leb.
  destruct (String.compare (path a) (path b)) eqn:E1; [| |discriminate];
    destruct (String.compare (path b) (path c)) eqn:E2; try discriminate.
  - apply String.compare_eq_iff in E1, E2. rewrite E1, E2.
    rewrite string_compare_refl. lia.
  - apply String.compare_eq_iff in E1. rewrite E1, E2. auto.
  - apply String.compare_eq_iff in E2. rewrite <- E2, E1. auto.
  - rewrite (string_compare_lt_trans _ _ _ E1 E2). auto.
Qed.

Lemma row_le_total a b : row_leb a b = false -> row_le b a.
Proof.
  unfold row_le, row_leb. rewrite (String.compare_antisym (path b) (path a)).
  destruct (String.compare (path a) (path b)); simpl; try discriminate.
  - lia.
  - reflexivity.
Qed.

Lemma insert_by_path_chunk_elem r l x :
  x ∈ insert_by_path_chunk r l <-> x = r \/ x ∈ l.
Proof.
  induction l as [|y l IH]; simpl.
  - rewrite list_elem_of_singleton, elem_of_nil. tauto.
  - destruct (row_leb r y); rewrite !elem_of_cons; [tauto|].
    rewrite IH. tauto.
Qed.

Lemma order_by_path_chunk_elem l x : x ∈ order_by_path_chunk l <-> x ∈ l.
Proof.
  induction l as [|y l IH]; [reflexivity|]. simpl.
  rewrite insert_by_path_chunk_elem, IH, elem_of_cons. tauto.
Qed.

Lemma insert_by_path_chunk_sorted r l :
  StronglySorted row_le l -> StronglySorted row_le (insert_by_path_chunk r l).
Proof.
  induction 1 as [|x l Hl IH Hx]; simpl.
  - repeat constructor.
  - destruct (row_leb r x) eqn:E.
    + constructor; [constructor; assumption|].
      constructor; [exact E|].
      eapply Forall_impl; [exact Hx|]. intros y Hy.
      eapply row_le_trans; eassumption.
    + constructor; [exact IH|].
      apply Forall_forall. intros y Hy.
      apply insert_by_path_chunk_elem in Hy as [->|Hy].
      * apply row_le_total, E.
      * rewrite Forall_forall in Hx. auto.
Qed.

Lemma order_by_path_chunk_sorted l :
  StronglySorted row_le (order_by_path_chunk l).
Proof.
  induction l; simpl; [constructor|].
  apply insert_by_path_chunk_sorted. assumption.
Qed.

(** Restricted to one path, the two orders agree. *)
Lemma rows_of_insert_by_path_chunk r l p :
  StronglySorted row_le l ->
  rows_of (insert_by_path_chunk r l) p
  = if decide (path r = p) then insert_by_chunk r (rows_of l p)
    else rows_of l p.
Proof.
  unfold rows_of.
  induction 1 as [|x l Hl IH Hx]; simpl.
  - destruct (decide (path r = p)) as [E|E].
    + rewrite filter_cons_True by exact E. reflexivity.
    + rewrite filter_cons_False by exact E. reflexivity.
  - destruct (row_leb r x) eqn:Erx.
    + destruct (decide (path r = p)) as [E|E].
      * rewrite (filter_cons_True _ r) by exact E.
        destruct (decide (path x = p)) as [Ex|Ex].
        -- rewrite (filter_cons_True _ x) by exact Ex. simpl.
           unfold row_leb in Erx. rewrite E, Ex, string_compare_refl in Erx.
           rewrite Erx. reflexivity.
        -- rewrite (filter_cons_False _ x) by exact Ex.
           rewrite filter_none; [reflexivity|].
           apply Forall_forall. intros y Hy Ey.
           rewrite Forall_forall in Hx. specialize (Hx y Hy).
           apply row_le_path in Hx. apply row_le_path in Erx as Hrx.
           rewrite Ey in Hx. rewrite E in Hrx.
           destruct (String.compare p (path x)) eqn:Epx; [| |congruence].
           ++ apply String.compare_eq_iff in Epx. congruence.
           ++ apply Hx. apply string_compare_gt. exact Epx.
      * rewrite (filter_cons_False _ r) by exact E. reflexivity.
    + destruct (decide (path x = p)) as [Ex|Ex].
      * rewrite !(filter_cons_True _ x) by exact Ex. rewrite IH.
        destruct (decide (path r = p)) as [E|E]; [|reflexivity].
        simpl. unfold row_leb in Erx.
        rewrite E, Ex, string_compare_refl in Erx. rewrite Erx. reflexivity.
      * rewrite !(filter_cons_False _ x) by exact Ex. exact IH.
Qed.

Lemma rows_of_order_by_path_chunk l p :
  rows_of (order_by_path_chunk l) p = order_by_chunk (rows_of l p).
Proof.
  induction l as [|a l IH]; [reflexivity|]. simpl.
  rewrite rows_of_insert_by_path_chunk by apply order_by_path_chunk_sorted.
  rewrite IH. unfold rows_of at 3.
  destruct (decide (path a = p)) as [E|E].
  - rewrite filter_cons_True by exact E. reflexivity.
  - rewrite filter_cons_False by exact E. reflexivity.
Qed.

(** In a list sorted by path, the rows of one path are adjacent. *)
Lemma sorted_three_way l p :
  StronglySorted row_le l ->
  l = filter (fun r => String.compare (path r) p = Lt) l
      ++ rows_of l p
      ++ filter (fun r => String.compare (path r) p = Gt) l.
Proof.
  unfold rows_of.
  induction 1 as [|x l Hl IH Hx]; [reflexivity|].
  rewrite Forall_forall in Hx.
  destruct (String.compare (path x) p) eqn:E.
  - apply String.compare_eq_iff in E as Ex.
    rewrite (filter_cons_False _ x) by congruence.
    rewrite (filter_cons_True _ x) by exact Ex.
    rewrite (filter_cons_False _ x) by congruence.
    rewrite (filter_none _ l) in *.
    + simpl in *. f_equal. exact IH.
    + apply Forall_forall. intros y Hy Ey. apply (row_le_path _ _ (Hx y Hy)).
      rewrite Ex. apply string_compare_gt. exact Ey.
    + apply Forall_forall. intros y Hy Ey. apply (row_le_path _ _ (Hx y Hy)).
      rewrite Ex. apply string_compare_gt. exact Ey.
  - rewrite (filter_cons_True _ x) by exact E.
    rewrite (filter_cons_False (fun r => path r = p) x)
      by (intros Ex; rewrite Ex, string_compare_refl in E; discriminate).
    rewrite (filter_cons_False _ x) by congruence.
    simpl. f_equal. exact IH.
  - assert (forall y, y ∈ l -> String.compare (path y) p = Gt) as Hgt.
    { intros y Hy. apply string_compare_gt.
      apply string_compare_gt in E.
      eapply string_compare_lt_le; [exact E|].
      apply row_le_path, Hx, Hy. }
    rewrite (filter_cons_False _ x) by congruence.
    rewrite (filter_cons_False (fun r => path r = p) x)
      by (intros Ex; rewrite Ex, string_compare_refl in E; discriminate).
    rewrite (filter_cons_True _ x) by exact E.
    rewrite (filter_none (fun r => String.compare (path r) p = Lt) l) in *
      by (apply Forall_forall; intros y Hy; rewrite (Hgt y Hy); discriminate).
    rewrite (filter_none (fun r => path r = p) l) in *
      by (apply Forall_forall; intros y Hy Ey;
          specialize (Hgt y Hy); rewrite Ey, string_compare_refl in Hgt;
          discriminate).
    simpl in *. f_equal. exact IH.
Qed.

Lemma for_each_app {S X} (body : S -> X -> result S) xs ys : forall s,
  for_each body (xs ++ ys) s
  = let* s' := for_each body xs s in for_each body ys s'.
Proof.
  induction xs as [|x xs IH]; intros s; simpl; [reflexivity|].
  destruct (body s x); simpl; [apply IH|reflexivity].
Qed.

Lemma flush_exported st e : e ∈ exported st -> e ∈ flush st.
Proof.
  unfold flush. destruct (_ && _); [|auto]. intros H.
  apply elem_of_app. left. exact H.
Qed.

Lemma export_row_inv st row st' :
  export_row st row = Ok st' ->
  exists bytes,
    rowDataToBytes (data row) = Ok bytes
    /\ currentPath st' = path row
    /\ (path row = currentPath st ->
        exported st' = exported st
        /\ currentChunks st' = currentChunks st ++ [bytes])
    /\ (path row <> currentPath st ->
        exported st' = flush st /\ currentChunks st' = [bytes]).
Proof.
  unfold export_row. destruct (rowDataToBytes (data row)) as [bytes|];
    [|discriminate].
  simpl. intros [= <-]. exists bytes. split; [reflexivity|].
  destruct (decide (path row = currentPath st)) as [E|E].
  - rewrite bool_decide_eq_false_2 by tauto. simpl.
    split; [symmetry; exact E|]. split; [auto|]. intros H. contradiction.
  - rewrite bool_decide_eq_true_2 by exact E. simpl.
    split; [reflexivity|]. split; [intros H; contradiction|auto].
Qed.

Lemma exported_kept rows : forall st st' e,
  for_each export_row rows st = Ok st' ->
  e ∈ exported st -> e ∈ flush st'.
Proof.
  induction rows as [|row rows IH]; intros st st' e; simpl.
  - intros [= <-]. apply flush_exported.
  - destruct (export_row st row) as [st1|] eqn:E; [|discriminate]. simpl.
    intros H He. apply (IH _ _ _ H).
    apply export_row_inv in E as (b0 & _ & _ & Hsame & Hnew).
    destruct (decide (path row = currentPath st)) as [Ep|Ep].
    + destruct (Hsame Ep) as [-> _]. exact He.
    + destruct (Hnew Ep) as [-> _]. apply flush_exported, He.
Qed.

Lemma flushed_kept rows : forall st st' e,
  for_each export_row rows st = Ok st' ->
  Forall (fun r => path r <> currentPath st) rows ->
  e ∈ flush st -> e ∈ flush st'.
Proof.
  intros st st' e. destruct rows as [|row rows]; simpl.
  - intros [= <-]. auto.
  - destruct (export_row st row) as [st1|] eqn:E; [|discriminate]. simpl.
    intros H Hne He. apply (exported_kept _ _ _ _ H).
    apply export_row_inv in E as (b0 & _ & _ & _ & Hnew).
    apply Forall_cons_1 in Hne as [Hne _].
    destruct (Hnew Hne) as [-> _]. exact He.
Qed.

Lemma export_path_after rows p : forall st st',
  for_each export_row rows st = Ok st' ->
  Forall (fun r => path r <> p) rows ->
  currentPath st <> p -> currentPath st' <> p.
Proof.
  induction rows as [|row rows IH]; intros st st'; simpl.
  - intros [= <-]. auto.
  - destruct (export_row st row) as [st1|] eqn:E; [|discriminate]. simpl.
    intros H Hne Hp. apply Forall_cons_1 in Hne as [Hrow Hne].
    apply (IH _ _ H Hne).
    apply export_row_inv in E as (b0 & _ & -> & _). exact Hrow.
Qed.

(** The rows of one path, met one after the other, fill [currentChunks]. *)
Lemma export_run p run : forall st st',
  Forall (fun r => path r = p) run ->
  currentPath st = p ->
  for_each export_row run st = Ok st' ->
  exists bs,
    map_result (fun r => rowDataToBytes (data r)) run = Ok bs
    /\ currentPath st' = p
    /\ currentChunks st' = currentChunks st ++ bs.
Proof.
  induction run as [|row run IH]; intros st st' Hrun Hp; simpl.
  - intros [= <-]. exists []. rewrite app_nil_r. auto.
  - destruct (export_row st row) as [st1|] eqn:E; [|discriminate]. simpl.
    apply Forall_cons_1 in Hrun as [Hrow Hrun].
    apply export_row_inv in E as (b & Hb & Hp1 & Hsame & _).
    destruct Hsame as [_ Hchunks]; [congruence|].
    intros H. destruct (IH st1 st' Hrun (eq_trans Hp1 Hrow) H)
      as (bs & Hbs & Hp' & Hc').
    exists (b :: bs). rewrite Hb, Hbs. simpl.
    split; [reflexivity|]. split; [exact Hp'|].
    rewrite Hc', Hchunks, <- app_assoc. reflexivity.
Qed.

Lemma export_first_run p run st st' :
  run <> [] ->
  Forall (fun r => path r = p) run ->
  currentPath st <> p ->
  for_each export_row run st = Ok st' ->
  exists bs,
    map_result (fun r => rowDataToBytes (data r)) run = Ok bs
    /\ bs <> [] /\ currentPath st' = p /\ currentChunks st' = bs.
Proof.
  destruct run as [|row run]; [congruence|]. intros _ Hrun Hp. simpl.
  destruct (export_row st row) as [st1|] eqn:E; [|discriminate]. simpl.
  apply Forall_cons_1 in Hrun as [Hrow Hrun].
  apply export_row_inv in E as (b & Hb & Hp1 & _ & Hnew).
  destruct Hnew as [_ Hchunks]; [congruence|].
  intros H. destruct (export_run p run st1 st' Hrun (eq_trans Hp1 Hrow) H)
    as (bs & Hbs & Hp' & Hc').
  exists (b :: bs). rewrite Hb, Hbs. simpl.
  split; [reflexivity|]. split; [intros ?; discriminate|].
  split; [exact Hp'|]. rewrite Hc', Hchunks. reflexivity.
Qed.

(** What the loop exports for a path whose rows are adjacent. *)
Lemma export_loop_entry pre run post p st0 st' :
  p <> "" -> run <> [] ->
  Forall (fun r => path r <> p) pre ->
  Forall (fun r => path r = p) run ->
  Forall (fun r => path r <> p) post ->
  currentPath st0 <> p ->
  for_each export_row (pre ++ run ++ post) st0 = Ok st' ->
  exists bs,
    map_result (fun r => rowDataToBytes (data r)) run = Ok bs
    /\ (p, concatBuffers bs) ∈ flush st'.
Proof.
  intros Hp Hrun Hpre Hall Hpost H0. rewrite for_each_app.
  destruct (for_each export_row pre st0) as [st1|] eqn:E1; [|discriminate].
  simpl. rewrite for_each_app.
  destruct (for_each export_row run st1) as [st2|] eqn:E2; [|discriminate].
  simpl. intros E3.
  pose proof (export_path_after _ _ _ _ E1 Hpre H0) as H1.
  destruct (export_first_run p run st1 st2 Hrun Hall H1 E2)
    as (bs & Hbs & Hne & Hp2 & Hc2).
  exists bs. split; [exact Hbs|].
  apply (flushed_kept _ _ _ _ E3); [rewrite Hp2; exact Hpost|].
  unfold flush. rewrite Hp2, Hc2.
  rewrite bool_decide_eq_false_2 by exact Hp.
  destruct bs as [|b bs]; [congruence|]. simpl length.
  replace (0 <? Z.of_nat (S (length bs))) with true
    by (symmetry; apply Z.ltb_lt; lia).
  simpl. apply elem_of_app. right. left.
Qed.

(** Only the paths of the rows are exported. *)
Lemma export_paths rows : forall st st' P,
  for_each export_row rows st = Ok st' ->
  Forall (fun r => P (path r)) rows ->
  Forall (fun e => P e.1) (exported st) ->
  (currentChunks st <> [] -> P (currentPath st)) ->
  Forall (fun e => P e.1) (flush st').
Proof.
  assert (forall st (P : string -> Prop),
            Forall (fun e => P e.1) (exported st) ->
            (currentChunks st <> [] -> P (currentPath st)) ->
            Forall (fun e => P e.1) (flush st)) as Hflush.
  { intros st P He Hc. unfold flush. destruct (_ && _) eqn:E; [|exact He].
    apply Forall_app. split; [exact He|]. constructor; [|constructor].
    simpl. apply Hc. apply andb_true_iff in E as [_ E].
    apply Z.ltb_lt in E. destruct (currentChunks st); [simpl in E; lia|].
    discriminate. }
  induction rows as [|row rows IH]; intros st st' P; simpl.
  - intros [= <-] _. apply Hflush.
  - destruct (export_row st row) as [st1|] eqn:E; [|discriminate]. simpl.
    intros H Hrows He Hc. apply Forall_cons_1 in Hrows as [Hrow Hrows].
    apply (IH _ _ _ H Hrows).
    + apply export_row_inv in E as (b0 & _ & _ & Hsame & Hnew).
      destruct (decide (path row = currentPath st)) as [Ep|Ep].
      * destruct (Hsame Ep) as [-> _]. exact He.
      * destruct (Hnew Ep) as [-> _]. apply Hflush; assumption.
    + intros _. apply export_row_inv in E as (b0 & _ & -> & _). exact Hrow.
Qed.

Lemma like_git_normal p :
  like_prefix p ".git/" = true -> p <> "" /\ normalizePath p = p.
Proof.
  intros H. destruct p as [|c0 p]; [discriminate|].
  destruct p as [|c1 p];
    [simpl in H; rewrite andb_false_r in H; discriminate|].
  split; [discriminate|]. apply normalizePath_canonical.
  assert (c0 = "."%char /\ c1 <> "/"%char) as [-> Hc1].
  { simpl in H. apply andb_true_iff in H as [H0 H].
    apply andb_true_iff in H as [H1 _].
    apply Ascii.eqb_eq in H0, H1. split.
    - destruct c0 as [[] [] [] [] [] [] [] []]; vm_compute in H0;
        congruence.
    - intros ->. vm_compute in H1. congruence. }
  unfold canonical_b. simpl.
  replace (Ascii.eqb "." "/") with false by reflexivity.
  replace (Ascii.eqb "." ".") with true by reflexivity.
  replace (Ascii.eqb "/" c1) with false
    by (symmetry; apply Ascii.eqb_neq; congruence).
  reflexivity.
Qed.

(** X14.  [exportGitObjects] agrees with [readFile]: a path matching
    ['.git/%'] whose rows are all file rows is exported with exactly the
    bytes that [readFile] returns for it; and whatever is exported is the
    path of a file row matching ['.git/%']. *)
Theorem export_agrees_with_readFile t l :
  exportGitObjects t = Ok l ->
  (forall p bytes,
     like_prefix p ".git/" = true ->
     Forall (fun r => is_dir r = 0) (rows_of t p) ->
     readFile t p = Ok bytes ->
     (p, bytes) ∈ l)
  /\ (forall q bytes,
        (q, bytes) ∈ l ->
        like_prefix q ".git/" = true
        /\ exists r, r ∈ t /\ path r = q /\ is_dir r = 0).
Proof.
  unfold exportGitObjects.
  set (Q := fun r : Row => like_prefix (path r) ".git/" = true /\ is_dir r = 0).
  set (rows := order_by_path_chunk (filter Q t)).
  set (st0 := {| exported := []; currentPath := ""; currentChunks := [] |}).
  destruct (for_each export_row rows st0) as [st'|] eqn:E; [|discriminate].
  simpl. intros [= <-]. split.
  - intros p bytes Hlike Hfiles Hread.
    destruct (like_git_normal p Hlike) as [Hp Hnorm].
    unfold readFile in Hread. rewrite Hnorm in Hread.
    destruct (select_chunk0 t p) as [|meta rest] eqn:Emeta; [discriminate|].
    destruct (negb (is_dir meta =? 0)); [discriminate|].
    destruct (map_result _ (select_path t p)) as [chunks|] eqn:Echunks;
      [|discriminate].
    injection Hread as <-.
    assert (rows_of rows p = select_path t p) as Hrun.
    { unfold rows. rewrite rows_of_order_by_path_chunk. unfold select_path.
      f_equal. unfold rows_of. rewrite list_filter_filter.
      apply filter_iff_elem. intros x Hx. split; [tauto|]. intros Ex.
      split; [exact Ex|]. split; [rewrite Ex; exact Hlike|].
      rewrite Forall_forall in Hfiles. apply Hfiles.
      apply list_elem_of_filter. auto. }
    assert (select_path t p <> []) as Hne.
    { assert (meta ∈ select_chunk0 t p) as Hm by (rewrite Emeta; left).
      apply list_elem_of_filter in Hm as [[Hm _] Hin].
      assert (meta ∈ select_path t p) as Hin'.
      { unfold select_path. rewrite order_by_chunk_perm.
        apply list_elem_of_filter. auto. }
      intros Hnil. rewrite Hnil in Hin'. inversion Hin'. }
    pose proof (sorted_three_way rows p (order_by_path_chunk_sorted _)) as H3.
    rewrite Hrun in H3. rewrite H3 in E.
    assert (forall o, o <> Eq ->
              Forall (fun r => path r <> p)
                (filter (fun r => String.compare (path r) p = o) rows))
      as Hside.
    { intros o Ho. apply Forall_forall. intros x Hx Ex.
      apply list_elem_of_filter in Hx as [Hx _].
      rewrite Ex, string_compare_refl in Hx. congruence. }
    assert (Forall (fun r => path r = p) (select_path t p)) as Hall.
    { rewrite <- Hrun. apply Forall_forall. intros x Hx.
      apply list_elem_of_filter in Hx as [Hx _]. exact Hx. }
    destruct (export_loop_entry _ _ _ p st0 st' Hp Hne
                (Hside Lt ltac:(discriminate)) Hall
                (Hside Gt ltac:(discriminate)) (not_eq_sym Hp) E)
      as (bs & Hbs & Hin).
    rewrite Echunks in Hbs. injection Hbs as <-. exact Hin.
  - intros q bytes Hin.
    assert (Forall (fun e : string * list byte =>
                      like_prefix e.1 ".git/" = true
                      /\ exists r, r ∈ t /\ path r = e.1 /\ is_dir r = 0)
              (flush st')) as HP.
    { apply (export_paths rows st0 st'
               (fun p => like_prefix p ".git/" = true
                         /\ exists r, r ∈ t /\ path r = p /\ is_dir r = 0) E).
      - apply Forall_forall. intros x Hx. unfold rows in Hx.
        apply (proj1 (order_by_path_chunk_elem _ _)) in Hx.
        apply list_elem_of_filter in Hx as [[H1 H2] Hx].
        split; [exact H1|exists x; auto].
      - constructor.
      - simpl. congruence. }
    rewrite Forall_forall in HP. exact (HP (q, bytes) Hin).
Qed.

Lemma export_agrees_with_readFile_witness :
  exists t l,
    sample_repo = Ok t
    /\ exportGitObjects t = Ok l
    /\ (".GIT/HEAD", TextEncoder_encode "ref: refs/heads/main") ∈ l
    /\ (".git/objects/ab/cdef", hello) ∈ l.
Proof.
  destruct sample_repo as [t|] eqn:Et; [|vm_compute in Et; discriminate].
  destruct (exportGitObjects t) as [l|] eqn:El;
    [|vm_compute in Et; injection Et as <-; vm_compute in El; discriminate].
  exists t, l. split; [reflexivity|]. split; [exact El|].
  pose proof (proj1 (export_agrees_with_readFile t l El)) as H.
  vm_compute in Et. injection Et as <-.
  split; (apply H; [reflexivity|vm_compute; repeat constructor|reflexivity]).
Defined.

(** ** getStorageStats *)

Lemma totalBytes_app t u : totalBytes (t ++ u) = totalBytes t + totalBytes u.
Proof.
  unfold totalBytes. rewrite filter_app, omap_app.
  induction (omap _ (filter _ t)) as [|x l IH]; simpl; [reflexivity|].
  rewrite IH. lia.
Qed.

Lemma totalBytes_dirs u :
  Forall (fun r => is_dir r = 1) u -> totalBytes u = 0.
Proof.
  intros H. unfold totalBytes. rewrite filter_none; [reflexivity|].
  eapply Forall_impl; [exact H|]. simpl. intros r -> . discriminate.
Qed.

Lemma totalObjects_app_dirs t u :
  Forall (fun r => is_dir r = 1) u -> totalObjects (t ++ u) = totalObjects t.
Proof.
  intros H. unfold totalObjects. rewrite filter_app.
  rewrite (filter_none _ u); [rewrite app_nil_r; reflexivity|].
  eapply Forall_impl; [exact H|]. simpl. intros r -> . discriminate.
Qed.

Lemma delete_path_app t u p :
  delete_path (t ++ u) p = delete_path t p ++ delete_path u p.
Proof. apply filter_app. Qed.

Lemma delete_path_Forall (P : Row -> Prop) t p :
  Forall P t -> Forall P (delete_path t p).
Proof.
  rewrite !Forall_forall. intros H x Hx.
  apply list_elem_of_filter in Hx as [_ Hx]. auto.
Qed.

Lemma sum_lengths {X} (f : X -> list byte) l :
  foldr Z.add 0 (List.map (fun i => Z.of_nat (length (f i))) l)
  = Z.of_nat (length (List.concat (List.map f l))).
Proof.
  induction l as [|i l IH]; [reflexivity|].
  cbn [List.map foldr List.concat]. rewrite length_app, IH. lia.
Qed.

Lemma totalBytes_file_rows n bytes now :
  totalBytes (file_rows n bytes now) = Z.of_nat (length bytes).
Proof.
  unfold totalBytes. rewrite filter_all
    by (apply Forall_fmap, Forall_forall; intros; reflexivity).
  rewrite <- (slices_all bytes) at 2. rewrite <- sum_lengths.
  unfold file_rows.
  induction (chunk_indexes (Z.of_nat (length bytes))) as [|i l IH];
    [reflexivity|].
  cbn [fmap list_fmap omap list_omap List.map foldr]. simpl sql_length.
  cbn [foldr]. rewrite <- IH. reflexivity.
Qed.

Lemma totalObjects_file_rows t n bytes now :
  path_absent t n ->
  totalObjects (t ++ file_rows n bytes now) = totalObjects t + 1.
Proof.
  intros Habs. unfold totalObjects. rewrite filter_app, fmap_app.
  rewrite list_to_set_app_L.
  assert (list_to_set (path <$> filter (fun r => is_dir r = 0)
                                  (file_rows n bytes now))
          = ({[ n ]} : gset string)) as ->.
  { rewrite filter_all
      by (apply Forall_fmap, Forall_forall; intros; reflexivity).
    destruct (file_rows_cons n bytes now) as (rest & -> & Hrest).
    apply set_eq. intros x. rewrite elem_of_list_to_set, elem_of_singleton.
    rewrite list_elem_of_fmap. split.
    - intros (r & -> & Hr). apply elem_of_cons in Hr as [->|Hr];
        [reflexivity|].
      rewrite Forall_forall in Hrest. apply Hrest, Hr.
    - intros ->. eexists. split; [|left]. reflexivity. }
  rewrite size_union.
  - rewrite size_singleton. lia.
  - apply disjoint_singleton_r. rewrite elem_of_list_to_set.
    rewrite list_elem_of_fmap. intros (r & Hn & Hr).
    apply list_elem_of_filter in Hr as [_ Hr].
    unfold path_absent in Habs. rewrite Forall_forall in Habs.
    apply (Habs r Hr). auto.
Qed.

Lemma ensure_parents_appends t parts nd :
  exists extra,
    ensure_parents t parts nd = t ++ extra
    /\ Forall (fun r => is_dir r = 1) extra.
Proof.
  rewrite ensure_parents_fold.
  destruct (insert_or_ignore_fresh
              (ancestor_row parts nd <$> seq 0 (length parts - 1)) t)
    as (extra & -> & Hex).
  exists extra. split; [reflexivity|].
  eapply Forall_impl; [exact Hex|]. simpl. intros x [Hx _].
  apply list_elem_of_fmap in Hx as (i & -> & _). reflexivity.
Qed.

Lemma before_chunks_appends t n nd :
  exists extra,
    before_chunks t n nd = delete_path t n ++ extra
    /\ Forall (fun r => is_dir r = 1) extra.
Proof.
  unfold before_chunks. destruct (1 <? _).
  - destruct (ensure_parents_appends t (split_slash n) nd)
      as (extra & -> & Hex).
    exists (delete_path extra n). rewrite delete_path_app.
    split; [reflexivity|]. apply delete_path_Forall, Hex.
  - exists []. rewrite app_nil_r. auto.
Qed.

(** X15.  What a write does to the totals of [getStorageStats]: the
    written path counts as one object holding exactly the bytes written,
    on top of everything stored under the other paths; the directory rows
    that the write creates count for nothing.  Writing to a path that
    stored nothing adds one object and the length of the data. *)
Theorem storage_totals_after_write t p wdata nd now t' :
  writeFile t p wdata nd now = Ok t' ->
  totalObjects t' = totalObjects (delete_path t (normalizePath p)) + 1
  /\ totalBytes t'
     = totalBytes (delete_path t (normalizePath p))
       + Z.of_nat (length (bytes_of wdata))
  /\ (rows_of t (normalizePath p) = [] ->
      totalObjects t' = totalObjects t + 1
      /\ totalBytes t' = totalBytes t + Z.of_nat (length (bytes_of wdata))).
Proof.
  intros H. apply writeFile_inv in H as (_ & _ & ->).
  set (n := normalizePath p).
  pose proof (before_chunks_absent t n nd) as Habs.
  destruct (before_chunks_appends t n nd) as (extra & E & Hex).
  assert (totalObjects (before_chunks t n nd ++ file_rows n (bytes_of wdata) now)
          = totalObjects (delete_path t n) + 1) as HO.
  { rewrite totalObjects_file_rows by exact Habs.
    rewrite E, totalObjects_app_dirs by exact Hex. reflexivity. }
  assert (totalBytes (before_chunks t n nd ++ file_rows n (bytes_of wdata) now)
          = totalBytes (delete_path t n) + Z.of_nat (length (bytes_of wdata)))
    as HB.
  { rewrite totalBytes_app, totalBytes_file_rows, E, totalBytes_app.
    rewrite (totalBytes_dirs extra Hex). lia. }
  split; [exact HO|]. split; [exact HB|].
  intros Hfresh.
  assert (delete_path t n = t) as Ht.
  { apply filter_all, Forall_forall. intros x Hx Ex.
    assert (x ∈ rows_of t n) as Hin by (apply list_elem_of_filter; auto).
    rewrite Hfresh in Hin. inversion Hin. }
  rewrite Ht in HO, HB. auto.
Qed.

Lemma storage_totals_after_write_witness :
  totalObjects file_in_d = 1 /\ totalBytes file_in_d = 1
  /\ exists t',
       writeFile file_in_d "d/e/hello.txt" (Bytes hello) 4000 4000 = Ok t'
       /\ totalObjects t' = 2 /\ totalBytes t' = 6.
Proof.
  split; [reflexivity|]. split; [reflexivity|].
  eexists. split; [reflexivity|].
  destruct (storage_totals_after_write file_in_d "d/e/hello.txt" (Bytes hello)
              4000 4000 _ eq_refl) as (_ & _ & H).
  apply (H eq_refl).
Defined.

(** ** exportGitObjects: when it returns, and in which order *)

Lemma for_each_export_decodes rows : forall st,
  (exists st', for_each export_row rows st = Ok st')
  <-> Forall (fun r => exists b, rowDataToBytes (data r) = Ok b) rows.
Proof.
  induction rows as [|row rows IH]; intros st; simpl.
  - split; [constructor|eauto].
  - split.
    + intros (st' & H).
      destruct (export_row st row) as [st1|] eqn:E; [|discriminate].
      simpl in H. constructor; [|apply (IH st1); eauto].
      apply export_row_inv in E as (b & Hb & _). eauto.
    + intros H. apply Forall_cons_1 in H as [(b & Hb) H].
      unfold export_row at 1. rewrite Hb. simpl. apply IH, H.
Qed.

Lemma export_succeeds_rows t :
  (exists l, exportGitObjects t = Ok l)
  <-> forall r, r ∈ t -> like_prefix (path r) ".git/" = true ->
        is_dir r = 0 -> exists b, rowDataToBytes (data r) = Ok b.
Proof.
  unfold exportGitObjects.
  set (rows := order_by_path_chunk _).
  set (st0 := {| exported := []; currentPath := ""; currentChunks := [] |}).
  assert ((exists st', for_each export_row rows st0 = Ok st')
          <-> (exists l, (let* st := for_each export_row rows st0 in
                          Ok (flush st)) = Ok l)) as <-.
  { destruct (for_each export_row rows st0) as [st'|]; simpl.
    - split; eauto.
    - split; intros [? H]; discriminate. }
  rewrite for_each_export_decodes, Forall_forall. unfold rows.
  split.
  - intros H r Hr Hlike Hdir. apply H.
    apply (proj2 (order_by_path_chunk_elem _ _)), list_elem_of_filter. auto.
  - intros H r Hr. apply (proj1 (order_by_path_chunk_elem _ _)) in Hr.
    apply list_elem_of_filter in Hr as [[Hlike Hdir] Hr]. auto.
Qed.

(** X27.  [exportGitObjects] returns exactly when the data of every file
    row below ['.git/'] decodes; otherwise the error of the decoder
    escapes.  [writeFile] stores blobs only, so it keeps the export
    working: when the export returned before a write, it returns after
    it. *)
Theorem export_succeeds_iff t :
  ((exists l, exportGitObjects t = Ok l)
   <-> forall r, r ∈ t -> like_prefix (path r) ".git/" = true ->
         is_dir r = 0 -> exists b, rowDataToBytes (data r) = Ok b)
  /\ forall p wdata nd now t',
       (exists l, exportGitObjects t = Ok l) ->
       writeFile t p wdata nd now = Ok t' ->
       exists l', exportGitObjects t' = Ok l'.
Proof.
  split; [apply export_succeeds_rows|].
  intros p wdata nd now t' Hl H. apply export_succeeds_rows.
  rewrite export_succeeds_rows in Hl.
  apply writeFile_inv in H as (_ & _ & ->).
  destruct (before_chunks_appends t (normalizePath p) nd)
    as (extra & -> & Hex).
  intros r Hr Hlike Hdir.
  apply elem_of_app in Hr as [Hr|Hr]; [apply elem_of_app in Hr as [Hr|Hr]|].
  - apply list_elem_of_filter in Hr as [_ Hr]. auto.
  - rewrite Forall_forall in Hex. specialize (Hex r Hr). congruence.
  - apply list_elem_of_fmap in Hr as (i & -> & _). simpl. eauto.
Qed.

Lemma path_lt_trans a b c : path_lt a b -> path_lt b c -> path_lt a c.
Proof. apply string_compare_lt_trans. Qed.

Lemma sorted_snoc (l : list string) x :
  StronglySorted path_lt l -> Forall (fun y => path_lt y x) l ->
  StronglySorted path_lt (l ++ [x]).
Proof.
  induction 1 as [|y l Hl IH Hy]; intros Hx; simpl.
  - repeat constructor.
  - apply Forall_cons_1 in Hx as [Hyx Hx].
    constructor; [apply IH, Hx|].
    apply Forall_app. split; [exact Hy|]. repeat constructor. exact Hyx.
Qed.

Lemma sorted_NoDup (l : list string) : StronglySorted path_lt l -> NoDup l.
Proof.
  induction 1 as [|y l Hl IH Hy]; constructor; [|exact IH].
  intros Hin. rewrite Forall_forall in Hy. specialize (Hy y Hin).
  unfold path_lt in Hy. rewrite string_compare_refl in Hy. discriminate.
Qed.

Lemma flush_sorted st :
  StronglySorted path_lt (exported st).*1 ->
  Forall (fun e => path_lt e.1 (currentPath st)) (exported st) ->
  StronglySorted path_lt (flush st).*1.
Proof.
  intros Hs Hlt. unfold flush. destruct (_ && _); [|exact Hs].
  rewrite fmap_app. apply sorted_snoc; [exact Hs|].
  apply Forall_fmap. exact Hlt.
Qed.

Lemma flush_below st x :
  Forall (fun e => path_lt e.1 (currentPath st)) (exported st) ->
  path_lt (currentPath st) x ->
  Forall (fun e => path_lt e.1 x) (flush st).
Proof.
  intros Hlt Hx.
  assert (Forall (fun e : string * list byte => path_lt e.1 x) (exported st))
    as H.
  { eapply Forall_impl; [exact Hlt|]. simpl. intros e He.
    eapply path_lt_trans; eassumption. }
  unfold flush. destruct (_ && _); [|exact H].
  apply Forall_app. split; [exact H|]. repeat constructor. exact Hx.
Qed.

Lemma export_loop_sorted rows : forall st st',
  StronglySorted row_le rows ->
  for_each export_row rows st = Ok st' ->
  StronglySorted path_lt (exported st).*1 ->
  Forall (fun e => path_lt e.1 (currentPath st)) (exported st) ->
  Forall (fun r => String.compare (currentPath st) (path r) <> Gt) rows ->
  StronglySorted path_lt (flush st').*1.
Proof.
  induction rows as [|row rows IH]; intros st st' Hrows; simpl.
  - intros [= <-] Hs Hlt _. apply flush_sorted; assumption.
  - destruct (export_row st row) as [st1|] eqn:E; [|discriminate]. simpl.
    intros H Hs Hlt Hge.
    apply StronglySorted_inv in Hrows as [Hrows Hrow].
    apply Forall_cons_1 in Hge as [Hge0 Hge].
    apply export_row_inv in E as (b & _ & Hp1 & Hsame & Hnew).
    apply (IH st1 st' Hrows H).
    + destruct (decide (path row = currentPath st)) as [Ep|Ep].
      * destruct (Hsame Ep) as [-> _]. exact Hs.
      * destruct (Hnew Ep) as [-> _]. apply flush_sorted; assumption.
    + rewrite Hp1.
      destruct (decide (path row = currentPath st)) as [Ep|Ep].
      * destruct (Hsame Ep) as [-> _]. rewrite Ep. exact Hlt.
      * destruct (Hnew Ep) as [-> _]. apply flush_below; [exact Hlt|].
        unfold path_lt.
        destruct (String.compare (currentPath st) (path row)) eqn:Ec;
          [|reflexivity|congruence].
        apply String.compare_eq_iff in Ec. congruence.
    + rewrite Hp1. eapply Forall_impl; [exact Hrow|]. simpl.
      intros r. apply row_le_path.
Qed.

Lemma empty_least s : String.compare "" s <> Gt.
Proof. destruct s; discriminate. Qed.

(** X28.  [exportGitObjects] lists the paths in strictly increasing
    order (code unit by code unit), so each exported path is listed
    once. *)
Theorem export_each_path_once t l :
  exportGitObjects t = Ok l ->
  StronglySorted path_lt l.*1 /\ NoDup l.*1.
Proof.
  unfold exportGitObjects.
  set (rows := order_by_path_chunk _).
  set (st0 := {| exported := []; currentPath := ""; currentChunks := [] |}).
  destruct (for_each export_row rows st0) as [st'|] eqn:E; [|discriminate].
  simpl. intros [= <-].
  assert (StronglySorted path_lt (flush st').*1) as H.
  { apply (export_loop_sorted rows st0 st'
             (order_by_path_chunk_sorted _) E); simpl.
    - constructor.
    - constructor.
    - apply Forall_forall. intros r _. apply empty_least. }
  split; [exact H|apply sorted_NoDup, H].
Qed.

Lemma export_each_path_once_witness :
  exists t l,
    sample_repo = Ok t
    /\ exportGitObjects t = Ok l
    /\ StronglySorted path_lt l.*1 /\ NoDup l.*1.
Proof.
  destruct sample_repo as [t|] eqn:Et; [|vm_compute in Et; discriminate].
  destruct (exportGitObjects t) as [l|] eqn:El;
    [|vm_compute in Et; injection Et as <-; vm_compute in El; discriminate].
  exists t, l. split; [reflexivity|]. split; [exact El|].
  apply (export_each_path_once t l El).
Defined.

(** ** init on a v1 table *)

(** X16.  [init] on a v1 table succeeds exactly when no two of its rows
    share a path.  It then keeps every row, as the chunk 0 of its path,
    leaves a table on which the root can be stat'ed, and a second [init]
    finds a v2 table and changes nothing. *)
Theorem init_v1_keeps_rows rows now :
  ((exists t, init (V1Table rows) now = Ok t) <-> NoDup (v1_path <$> rows))
  /\ forall t,
       init (V1Table rows) now = Ok t ->
       primary_key_ok t
       /\ (forall r, r ∈ rows ->
             chunk0 t (v1_path r) = Some (migrate_row r))
       /\ (exists s, stat t "/" = Ok s)
       /\ init (V2Table t) now = Ok t.
Proof.
  split.
  - split; [|apply migrateV1toV2_succeeds].
    intros (t & H). simpl in H. unfold migrateV1toV2 in H.
    rewrite for_each_fmap in H.
    destruct (for_each insert (migrate_row <$> rows) []) as [v2|] eqn:E;
      [|discriminate].
    destruct (for_each_insert_inv _ _ _ (NoDup_nil_2 : primary_key_ok []) E)
      as [-> Hpk].
    unfold primary_key_ok in Hpk. simpl in Hpk.
    replace (v1_path <$> rows) with (fst <$> (key <$> (migrate_row <$> rows)))
      by (rewrite <- !list_fmap_compose; reflexivity).
    apply NoDup_fmap_2_strong; [|exact Hpk].
    intros x y Hx Hy Exy.
    apply list_elem_of_fmap in Hx as (rx & -> & Hx).
    apply list_elem_of_fmap in Hy as (ry & -> & Hy).
    apply list_elem_of_fmap in Hx as (vx & -> & _).
    apply list_elem_of_fmap in Hy as (vy & -> & _).
    unfold key in *. simpl in *. congruence.
  - intros t H. simpl in H. apply migrateV1toV2_inv in H as [-> Hpk].
    split; [exact Hpk|]. split; [|split; [|reflexivity]].
    + intros r Hr. unfold chunk0, select_chunk0.
      refine (f_equal head (select_by_key _ (migrate_row r) Hpk _)).
      apply insert_or_ignore_elem, list_elem_of_fmap. eauto.
    + pose proof (key_present_insert_or_ignore (migrate_row <$> rows)
                    (dir_row "" "" now)) as Hk.
      unfold key_present in Hk. apply bool_decide_eq_true in Hk.
      apply Exists_exists in Hk as (x & Hx & Hkey).
      unfold stat. change (normalizePath "/") with "".
      destruct (select_chunk0 _ "") as [|r0 rest] eqn:Es; [|eauto].
      assert (x ∈ select_chunk0
                (insert_or_ignore (migrate_row <$> rows) (dir_row "" "" now))
                "") as Hin by (apply list_elem_of_filter; auto).
      rewrite Es in Hin. inversion Hin.
Qed.

(** ** What the decoder accepts and what it rejects *)

(** X17.  [rowDataToBytes] reads both storage formats alike: a blob gives
    its bytes, a text holding the standard base64 encoding of some bytes
    gives those bytes, and [NULL] and the empty text give no bytes. *)
Theorem rowDataToBytes_both_formats bytes :
  rowDataToBytes (SqlBlob (toBuffer bytes)) = Ok bytes
  /\ rowDataToBytes (SqlText (base64_encode bytes)) = Ok bytes
  /\ rowDataToBytes SqlNull = Ok []
  /\ rowDataToBytes (SqlText "") = Ok [].
Proof.
  split; [reflexivity|]. split; [|split; reflexivity].
  apply rowDataToBytes_text, base64_roundtrip.
Qed.

Lemma b64_values_None cs c :
  c ∈ cs -> b64_value c = None -> b64_values cs = None.
Proof.
  induction cs as [|x cs IH]; intros Hc Hv; [inversion Hc|].
  simpl. apply elem_of_cons in Hc as [<-|Hc].
  - rewrite Hv. reflexivity.
  - rewrite (IH Hc Hv). destruct (b64_value x); reflexivity.
Qed.

Lemma elem_of_rev {A} (x : A) l : x ∈ rev l <-> x ∈ l.
Proof. rewrite !list_elem_of_In. symmetry. apply in_rev. Qed.

Lemma strip_padding_keeps cs c :
  c ∈ cs -> c <> "="%char -> c ∈ strip_padding cs.
Proof.
  intros Hc Hne. unfold strip_padding.
  destruct (Z.of_nat (length cs) mod 4 =? 0); [|exact Hc].
  destruct (rev cs) as [|c1 [|c2 r]] eqn:E; try exact Hc.
  assert (c ∈ c1 :: c2 :: r) as Hin by (rewrite <- E, elem_of_rev; exact Hc).
  destruct (Ascii.eqb c1 "=") eqn:E1; [|exact Hc].
  apply Ascii.eqb_eq in E1. subst c1.
  apply elem_of_cons in Hin as [->|Hin]; [congruence|].
  destruct (Ascii.eqb c2 "=") eqn:E2.
  - apply Ascii.eqb_eq in E2. subst c2.
    apply elem_of_cons in Hin as [->|Hin]; [congruence|].
    rewrite elem_of_rev. exact Hin.
  - rewrite elem_of_rev. exact Hin.
Qed.

(** X18.  What the decoder rejects: a text with a character that is
    neither of the base64 alphabet, nor ['='], nor white space, and a
    text whose length without the white space is 1 modulo 4.  It then
    throws [InvalidCharacterError], which carries no [code]; so does
    [rowDataToBytes] on such a text. *)
Theorem base64_rejects s :
  (exists c, c ∈ list_ascii_of_string s
             /\ is_ascii_whitespace c = false
             /\ b64_value c = None /\ c <> "="%char)
  \/ Z.of_nat (length (List.filter (fun c => negb (is_ascii_whitespace c))
                         (list_ascii_of_string s))) mod 4 = 1 ->
  base64ToUint8Array s = Throw InvalidCharacterError
  /\ rowDataToBytes (SqlText s) = Throw InvalidCharacterError
  /\ thrown_code (rowDataToBytes (SqlText s)) = None.
Proof.
  intros H.
  assert (atob s = Throw InvalidCharacterError) as Hatob.
  { unfold atob.
    set (d := List.filter (fun c => negb (is_ascii_whitespace c))
                (list_ascii_of_string s)) in *.
    destruct H as [(c & Hc & Hws & Hv & Hne)|Hlen].
    - destruct (_ =? 1); [reflexivity|].
      rewrite (b64_values_None (strip_padding d) c); [reflexivity| |exact Hv].
      apply strip_padding_keeps; [|exact Hne].
      apply list_elem_of_In, filter_In. split.
      + apply list_elem_of_In. exact Hc.
      + rewrite Hws. reflexivity.
    - assert (strip_padding d = d) as ->.
      { unfold strip_padding.
        destruct (Z.of_nat (length d) mod 4 =? 0) eqn:E; [|reflexivity].
        apply Z.eqb_eq in E. lia. }
      rewrite Hlen. reflexivity. }
  assert (base64ToUint8Array s = Throw InvalidCharacterError) as Hb
    by (unfold base64ToUint8Array; rewrite Hatob; reflexivity).
  assert (s <> "") as Hs.
  { intros ->. destruct H as [(c & Hc & _)|Hlen]; [inversion Hc|].
    simpl in Hlen. discriminate. }
  split; [exact Hb|].
  assert (rowDataToBytes (SqlText s) = Throw InvalidCharacterError) as ->.
  { unfold rowDataToBytes. destruct s; [congruence|]. exact Hb. }
  auto.
Qed.

Lemma base64_rejects_witness :
  base64ToUint8Array "aGVs*G8=" = Throw InvalidCharacterError
  /\ rowDataToBytes (SqlText "aGVs*G8=") = Throw InvalidCharacterError
  /\ thrown_code (rowDataToBytes (SqlText "aGVs*G8=")) = None.
Proof.
  apply (base64_rejects "aGVs*G8="). left. exists "*"%char.
  split; [|split; [reflexivity|split; [reflexivity|discriminate]]].
  do 4 right. left.
Defined.

(** ** MemFS: files, links and listings *)

Lemma memfs_keys_elem {V} (m : gmap string V) k :
  k ∈ MemFS.keys m <-> is_Some (m !! k).
Proof.
  unfold MemFS.keys. rewrite list_elem_of_fmap. split.
  - intros ([k' v] & -> & H). apply elem_of_map_to_list in H. eauto.
  - intros [v H]. exists (k, v). split; [reflexivity|].
    apply elem_of_map_to_list. exact H.
Qed.

Lemma existsb_elem {A} (f : A -> bool) l :
  existsb f l = true <-> exists x, x ∈ l /\ f x = true.
Proof.
  rewrite existsb_exists. split; intros (x & Hx & Hf); exists x;
    (split; [apply list_elem_of_In; exact Hx|exact Hf]).
Qed.

(** X19.  [writeFile] then [readFile]: the bytes come back under every
    spelling of the path that differs in leading slashes only, every
    other path reads as before, and the links are untouched.  [stat]
    reports a file of the written length unless a link sits at the path:
    links are looked up first. *)
Theorem memfs_write_then_read fs p wdata fs' :
  MemFS.writeFile fs p wdata = Ok fs' ->
  (forall q, MemPath.normalize q = MemPath.normalize p ->
     MemFS.readFile fs' q = Ok (bytes_of wdata)
     /\ (MemFS.symlinks fs !! MemPath.normalize p = None ->
         forall now,
           MemFS.stat fs' q now
           = Ok (MemFS.makeStat now TFile 33188
                   (Z.of_nat (length (bytes_of wdata))) false)))
  /\ (forall q, MemPath.normalize q <> MemPath.normalize p ->
        MemFS.readFile fs' q = MemFS.readFile fs q)
  /\ MemFS.symlinks fs' = MemFS.symlinks fs.
Proof.
  unfold MemFS.writeFile. intros [= <-]. split; [|split; [|reflexivity]].
  - intros q Hq. unfold MemFS.readFile, MemFS.stat. simpl. rewrite Hq.
    rewrite lookup_insert_eq. split; [reflexivity|].
    intros -> now. reflexivity.
  - intros q Hq. unfold MemFS.readFile. simpl.
    rewrite lookup_insert_ne by congruence. reflexivity.
Qed.

Lemma memfs_write_then_read_witness :
  exists fs',
    MemFS.writeFile one_file "//src/a.ts" (Bytes hello) = Ok fs'
    /\ MemFS.readFile fs' "src/a.ts" = Ok hello
    /\ MemFS.readFile fs' "/README.md" = Ok [x68; x69].
Proof.
  eexists. split; [reflexivity|].
  destruct (memfs_write_then_read one_file "//src/a.ts" (Bytes hello) _ eq_refl)
    as (H1 & H2 & _).
  split; [apply (H1 "src/a.ts"); reflexivity|].
  rewrite (H2 "/README.md"); [reflexivity|]. vm_compute. discriminate.
Defined.

(** X20.  [rename] moves the bytes of a file: the new path reads as the
    old one did and the old one is gone.  A missing source is not an
    error: nothing changes.  Renaming a file onto itself deletes it, and
    a link is never moved. *)
Theorem memfs_rename_moves fs a b fs' :
  MemFS.rename fs a b = Ok fs' ->
  (MemFS.files fs !! MemPath.normalize a = None -> fs' = fs)
  /\ (forall data,
        MemFS.files fs !! MemPath.normalize a = Some data ->
        thrown_code (MemFS.readFile fs' a) = Some ENOENT
        /\ (MemPath.normalize a <> MemPath.normalize b ->
            MemFS.readFile fs' b = Ok data)
        /\ (MemPath.normalize a = MemPath.normalize b ->
            thrown_code (MemFS.readFile fs' b) = Some ENOENT))
  /\ MemFS.symlinks fs' = MemFS.symlinks fs.
Proof.
  unfold MemFS.rename.
  destruct (MemFS.files fs !! MemPath.normalize a) as [data|] eqn:E.
  - intros [= <-]. split; [discriminate|]. split; [|reflexivity].
    intros ? [= <-]. unfold MemFS.readFile. simpl.
    rewrite lookup_delete_eq. split; [reflexivity|]. split.
    + intros Hne. rewrite lookup_delete_ne by exact Hne.
      rewrite lookup_insert_eq. reflexivity.
    + intros <-. rewrite lookup_delete_eq. reflexivity.
  - intros [= <-]. split; [reflexivity|]. split; [discriminate|reflexivity].
Qed.

Lemma memfs_rename_moves_witness :
  exists fs',
    MemFS.rename one_file "/README.md" "docs/README.md" = Ok fs'
    /\ thrown_code (MemFS.readFile fs' "/README.md") = Some ENOENT
    /\ MemFS.readFile fs' "docs/README.md" = Ok [x68; x69].
Proof.
  eexists. split; [reflexivity|].
  destruct (memfs_rename_moves one_file "/README.md" "docs/README.md" _ eq_refl)
    as (_ & H & _).
  destruct (H [x68; x69] eq_refl) as (H1 & H2 & _).
  split; [exact H1|]. apply H2. vm_compute. discriminate.
Defined.

(** X21.  [symlink], then the three ways to look at the link.
    [readlink] gives the target back, except for the empty target: it
    tests the target for truthiness, so a link to [''] reads as a
    missing link.  [lstat] reports the link itself (mode [0o120000],
    size 0, [isSymbolicLink()] true); [stat] follows it and reports a
    regular file with the size of the target file, or 0 when the target
    is not a file.  The files are untouched. *)
Theorem memfs_symlink_readlink fs target p fs' :
  MemFS.symlink fs target p = Ok fs' ->
  (target <> "" ->
   forall q, MemPath.normalize q = MemPath.normalize p ->
     MemFS.readlink fs' q = Ok target)
  /\ (target = "" -> thrown_code (MemFS.readlink fs' p) = Some ENOENT)
  /\ (forall now,
        MemFS.lstat fs' p now = Ok (MemFS.makeStat now TFile 40960 0 true)
        /\ MemFS.stat fs' p now
           = Ok (MemFS.makeStat now TFile 33188
                   (match MemFS.files fs !! MemPath.normalize target with
                    | Some data => Z.of_nat (length data)
                    | None => 0
                    end) false))
  /\ (forall q, MemPath.normalize q <> MemPath.normalize p ->
        MemFS.readlink fs' q = MemFS.readlink fs q)
  /\ MemFS.files fs' = MemFS.files fs.
Proof.
  unfold MemFS.symlink. intros [= <-].
  unfold MemFS.readlink, MemFS.lstat, MemFS.stat. simpl.
  split; [|split; [|split; [|split; [|reflexivity]]]].
  - intros Ht q ->. rewrite lookup_insert_eq.
    rewrite bool_decide_eq_false_2 by exact Ht. reflexivity.
  - intros ->. rewrite lookup_insert_eq. reflexivity.
  - intros now. rewrite lookup_insert_eq. split; reflexivity.
  - intros q Hq. rewrite lookup_insert_ne by congruence. reflexivity.
Qed.

Lemma memfs_symlink_readlink_witness :
  exists fs',
    MemFS.symlink one_file "README.md" "/link" = Ok fs'
    /\ MemFS.readlink fs' "link" = Ok "README.md".
Proof.
  eexists. split; [reflexivity|].
  destruct (memfs_symlink_readlink one_file "README.md" "/link" _ eq_refl)
    as (H & _).
  apply H; [discriminate|reflexivity].
Defined.

(** X22.  Directories are implicit.  A path is a directory as soon as
    some file or link lies below it, and only then: [mkdir] stores
    nothing, so after [mkdir] alone the path still does not exist. *)
Theorem memfs_implicit_directories fs d now :
  MemPath.normalize d <> "" ->
  MemFS.symlinks fs !! MemPath.normalize d = None ->
  MemFS.files fs !! MemPath.normalize d = None ->
  ((exists k, (is_Some (MemFS.files fs !! k)
               \/ is_Some (MemFS.symlinks fs !! k))
              /\ startsWith k (String.append (MemPath.normalize d) "/")
                 = true) ->
   MemFS.stat fs d now = Ok (MemFS.makeStat now TDir 16877 0 false))
  /\ ((forall k, is_Some (MemFS.files fs !! k)
                 \/ is_Some (MemFS.symlinks fs !! k) ->
                 startsWith k (String.append (MemPath.normalize d) "/")
                 = false) ->
      forall fs',
        MemFS.mkdir fs d = Ok fs' ->
        thrown_code (MemFS.stat fs' d now) = Some ENOENT).
Proof.
  intros Hd Hl Hf. unfold MemFS.stat, MemFS.mkdir. rewrite Hl, Hf.
  rewrite bool_decide_eq_false_2 by exact Hd.
  set (prefix := String.append (MemPath.normalize d) "/").
  split.
  - intros (k & [Hk|Hk] & Hs).
    + replace (existsb _ (MemFS.keys (MemFS.files fs))) with true;
        [reflexivity|].
      symmetry. apply existsb_elem. exists k.
      split; [apply memfs_keys_elem, Hk|exact Hs].
    + destruct (existsb _ (MemFS.keys (MemFS.files fs))); [reflexivity|].
      replace (existsb _ (MemFS.keys (MemFS.symlinks fs))) with true;
        [reflexivity|].
      symmetry. apply existsb_elem. exists k.
      split; [apply memfs_keys_elem, Hk|exact Hs].
  - intros Hnone fs' [= <-]. rewrite Hl, Hf.
    destruct (existsb _ (MemFS.keys (MemFS.files fs))) eqn:E1.
    { apply existsb_elem in E1 as (k & Hk & Hs).
      apply memfs_keys_elem in Hk. rewrite Hnone in Hs by auto.
      discriminate. }
    destruct (existsb _ (MemFS.keys (MemFS.symlinks fs))) eqn:E2.
    { apply existsb_elem in E2 as (k & Hk & Hs).
      apply memfs_keys_elem in Hk. rewrite Hnone in Hs by auto.
      discriminate. }
    reflexivity.
Qed.

Lemma memfs_implicit_directories_witness :
  (exists fs',
     MemFS.writeFile MemFS.empty "/src/lib/a.ts" (Text "x") = Ok fs'
     /\ MemFS.stat fs' "/src" 7 = Ok (MemFS.makeStat 7 TDir 16877 0 false))
  /\ exists fs',
       MemFS.mkdir MemFS.empty "/src" = Ok fs'
       /\ thrown_code (MemFS.stat fs' "/src" 7) = Some ENOENT.
Proof.
  split.
  - eexists. split; [reflexivity|].
    refine (proj1 (memfs_implicit_directories _ "/src" 7 _ _ _) _).
    + discriminate.
    + reflexivity.
    + reflexivity.
    + exists "src/lib/a.ts". split; [|reflexivity]. left. vm_compute. eauto.
  - eexists. split; [reflexivity|].
    refine (proj2 (memfs_implicit_directories MemFS.empty "/src" 7 _ _ _)
              _ _ eq_refl).
    + discriminate.
    + reflexivity.
    + reflexivity.
    + intros k [[v H]|[v H]]; simpl in H; rewrite lookup_empty in H;
        discriminate.
Defined.

Lemma set_add_elem x y l : x ∈ MemFS.set_add y l <-> x ∈ l \/ x = y.
Proof.
  unfold MemFS.set_add. destruct (bool_decide (y ∈ l)) eqn:E.
  - apply bool_decide_eq_true in E. split; [auto|]. intros [H| ->]; auto.
  - rewrite elem_of_app, list_elem_of_singleton. tauto.
Qed.

Lemma set_add_NoDup y l : NoDup l -> NoDup (MemFS.set_add y l).
Proof.
  unfold MemFS.set_add. destruct (bool_decide (y ∈ l)) eqn:E; [auto|].
  apply bool_decide_eq_false in E. intros H.
  apply NoDup_app. split; [exact H|]. split; [|apply NoDup_singleton].
  intros x Hx Hy. apply list_elem_of_singleton in Hy. congruence.
Qed.

Lemma readdir_visit_fold prefix l : forall acc,
  NoDup acc ->
  NoDup (fold_left (readdir_visit prefix) l acc)
  /\ forall x,
       x ∈ fold_left (readdir_visit prefix) l acc
       <-> x ∈ acc
           \/ (x <> "" /\ exists k, k ∈ l /\ startsWith k prefix = true
                                    /\ child_name prefix k = x).
Proof.
  induction l as [|p l IH]; intros acc Hnd; simpl.
  - split; [exact Hnd|]. intros x. split; [auto|].
    intros [H|(_ & k & Hk & _)]; [exact H|inversion Hk].
  - assert (NoDup (readdir_visit prefix acc p)) as Hnd'.
    { unfold readdir_visit. destruct (startsWith p prefix); [|exact Hnd].
      destruct (bool_decide _); [exact Hnd|]. apply set_add_NoDup, Hnd. }
    destruct (IH _ Hnd') as [H1 H2]. split; [exact H1|].
    intros x. rewrite H2. unfold readdir_visit.
    destruct (startsWith p prefix) eqn:Es.
    + destruct (bool_decide (child_name prefix p = "")) eqn:Ec.
      * apply bool_decide_eq_true in Ec. split.
        -- intros [H|(Hx & k & Hk & Hs & Hn)]; [auto|].
           right. split; [exact Hx|]. exists k. split; [right; exact Hk|auto].
        -- intros [H|(Hx & k & Hk & Hs & Hn)]; [auto|].
           apply elem_of_cons in Hk as [->|Hk]; [congruence|].
           right. split; [exact Hx|]. exists k. auto.
      * apply bool_decide_eq_false in Ec. rewrite set_add_elem. split.
        -- intros [[H| ->]|(Hx & k & Hk & Hs & Hn)]; [auto| |].
           ++ right. split; [exact Ec|]. exists p. split; [left|auto].
           ++ right. split; [exact Hx|]. exists k.
              split; [right; exact Hk|auto].
        -- intros [H|(Hx & k & Hk & Hs & Hn)]; [auto|].
           apply elem_of_cons in Hk as [->|Hk]; [auto|].
           right. split; [exact Hx|]. exists k. auto.
    + split.
      * intros [H|(Hx & k & Hk & Hs & Hn)]; [auto|].
        right. split; [exact Hx|]. exists k. split; [right; exact Hk|auto].
      * intros [H|(Hx & k & Hk & Hs & Hn)]; [auto|].
        apply elem_of_cons in Hk as [->|Hk]; [congruence|].
        right. split; [exact Hx|]. exists k. auto.
Qed.

Lemma split_slash_no_slash s :
  Forall (fun x => includes x "/" = false) (split_slash s).
Proof.
  induction s as [|c s IH]; [repeat constructor|]. simpl.
  destruct (Ascii.eqb c "/") eqn:E; [constructor; [reflexivity|exact IH]|].
  destruct (split_slash s) as [|h t]; [repeat constructor|].
  - simpl. rewrite Ascii.eqb_sym, E. reflexivity.
  - apply Forall_cons_1 in IH as [Hh Ht]. constructor; [|exact Ht].
    simpl. rewrite Ascii.eqb_sym, E. simpl. exact Hh.
Qed.

(** X23.  [readdir] does not throw, whatever the path.  It returns each
    name once; the names are exactly the non-empty first segments, below
    the directory, of the keys of the files and of the links; so no name
    has a slash, and a path with nothing below it lists as empty. *)
Theorem memfs_readdir_names fs d :
  exists names,
  MemFS.readdir fs d = Ok names
  /\ NoDup names
  /\ (forall x,
        x ∈ names
        <-> x <> ""
            /\ exists k, (is_Some (MemFS.files fs !! k)
                          \/ is_Some (MemFS.symlinks fs !! k))
                         /\ startsWith k (dir_prefix d) = true
                         /\ child_name (dir_prefix d) k = x)
  /\ Forall (fun x => includes x "/" = false) names.
Proof.
  unfold MemFS.readdir. fold (dir_prefix d).
  change (fun results p => _) with (readdir_visit (dir_prefix d)).
  eexists. split; [reflexivity|].
  destruct (readdir_visit_fold (dir_prefix d) (MemFS.keys (MemFS.files fs))
              [] (NoDup_nil_2)) as [N1 E1].
  destruct (readdir_visit_fold (dir_prefix d) (MemFS.keys (MemFS.symlinks fs))
              _ N1) as [N2 E2].
  assert (forall x,
    x ∈ fold_left (readdir_visit (dir_prefix d))
          (MemFS.keys (MemFS.symlinks fs))
          (fold_left (readdir_visit (dir_prefix d))
             (MemFS.keys (MemFS.files fs)) [])
    <-> x <> ""
        /\ exists k, (is_Some (MemFS.files fs !! k)
                      \/ is_Some (MemFS.symlinks fs !! k))
                     /\ startsWith k (dir_prefix d) = true
                     /\ child_name (dir_prefix d) k = x) as Hiff.
  { intros x. rewrite E2, E1. split.
    - intros [[H|(Hx & k & Hk & Hs)]|(Hx & k & Hk & Hs)]; [inversion H| |];
        (split; [exact Hx|]); exists k; apply memfs_keys_elem in Hk; auto.
    - intros (Hx & k & [Hk|Hk] & Hs); apply memfs_keys_elem in Hk.
      + left. right. split; [exact Hx|]. exists k. auto.
      + right. split; [exact Hx|]. exists k. auto. }
  split; [exact N2|]. split; [exact Hiff|].
  apply Forall_forall. intros x Hx. apply Hiff in Hx as (_ & k & _ & _ & <-).
  unfold child_name, MemFS.first_part.
  pose proof (split_slash_no_slash
                (slice_from (String.length (dir_prefix d)) k)) as H.
  destruct (split_slash _); [reflexivity|].
  apply Forall_cons_1 in H as [H _]. exact H.
Qed.

Lemma memfs_readdir_names_witness :
  exists names,
    MemFS.readdir one_file "/" = Ok names
    /\ NoDup names /\ "README.md" ∈ names.
Proof.
  destruct (memfs_readdir_names one_file "/") as (names & E & H1 & H2 & _).
  exists names. split; [exact E|].
  split; [exact H1|]. apply H2. split; [discriminate|].
  exists "README.md". split; [left; vm_compute; eauto|].
  split; reflexivity.
Defined.

Lemma working_tree_elem fs x :
  x ∈ MemFS.getWorkingTreeFiles fs
  <-> (exists k, is_Some (MemFS.files fs !! k) /\ MemPath.normalize k = x)
      /\ x <> "" /\ startsWith x ".git/" = false /\ x <> ".git".
Proof.
  unfold MemFS.getWorkingTreeFiles.
  rewrite list_elem_of_In, filter_In, in_map_iff.
  rewrite !andb_true_iff, !negb_true_iff, !bool_decide_eq_false.
  split.
  - intros [(k & Hk & Hin) [[H1 H2] H3]]. split; [|auto].
    exists k. split; [|exact Hk].
    apply memfs_keys_elem, list_elem_of_In, Hin.
  - intros [(k & Hk & Hn) (H1 & H2 & H3)]. split; [|auto].
    exists k. split; [exact Hn|].
    apply list_elem_of_In, memfs_keys_elem, Hk.
Qed.

(** X24.  [getWorkingTreeFiles] after a write: the written path is listed
    exactly when it is not empty, not ['.git'] and not below ['.git/'];
    no listed path is empty, ['.git'] or below ['.git/']; and creating a
    link does not change the list. *)
Theorem memfs_working_tree fs p wdata fs' :
  MemFS.writeFile fs p wdata = Ok fs' ->
  (MemPath.normalize p ∈ MemFS.getWorkingTreeFiles fs'
   <-> MemPath.normalize p <> ""
       /\ startsWith (MemPath.normalize p) ".git/" = false
       /\ MemPath.normalize p <> ".git")
  /\ Forall (fun x => x <> "" /\ startsWith x ".git/" = false
                      /\ x <> ".git")
       (MemFS.getWorkingTreeFiles fs')
  /\ (forall target q fs'',
        MemFS.symlink fs' target q = Ok fs'' ->
        MemFS.getWorkingTreeFiles fs'' = MemFS.getWorkingTreeFiles fs').
Proof.
  unfold MemFS.writeFile. intros [= <-]. split; [|split].
  - rewrite working_tree_elem. simpl. split; [tauto|]. intros H.
    split; [|exact H]. exists (MemPath.normalize p).
    rewrite lookup_insert_eq. split; [eauto|].
    apply mem_normalize_idempotent.
  - apply Forall_forall. intros x Hx. apply working_tree_elem in Hx. tauto.
  - intros target q fs'' [= <-]. reflexivity.
Qed.

Lemma memfs_working_tree_witness :
  exists fs',
    MemFS.writeFile one_file "/.git/HEAD" (Text "ref") = Ok fs'
    /\ Forall (fun x => x <> "" /\ startsWith x ".git/" = false
                        /\ x <> ".git")
         (MemFS.getWorkingTreeFiles fs').
Proof.
  eexists. split; [reflexivity|].
  apply (memfs_working_tree one_file "/.git/HEAD" (Text "ref") _ eq_refl).
Defined.

(** ** Text, encoded and decoded *)

Lemma decode_char c rest :
  TextDecoder_decode (utf8_of_char c ++ rest)
  = option_map (String c) (TextDecoder_decode rest).
Proof.
  destruct c as [[] [] [] [] [] [] [] []]; reflexivity.
Qed.

Lemma decode_encode s : TextDecoder_decode (TextEncoder_encode s) = Some s.
Proof.
  unfold TextEncoder_encode.
  induction s as [|c s IH]; [reflexivity|].
  cbn [list_ascii_of_string List.map List.concat].
  rewrite decode_char, IH. reflexivity.
Qed.

(** X29.  A string written as text reads back as the same string with
    [{ encoding: 'utf8' }], in both file systems; and in [SqliteFS],
    where a link is such a file, [readlink] gives back the target that
    [symlink] stored. *)
Theorem text_round_trip s :
  (forall t p nd now t',
     writeFile t p (Text s) nd now = Ok t' ->
     readFile_utf8 t' p = Ok (Some s))
  /\ (forall t p nd now t',
        symlink t s p nd now = Ok t' -> readlink t' p = Ok (Some s))
  /\ (forall fs p fs',
        MemFS.writeFile fs p (Text s) = Ok fs' ->
        MemFS.readFile_utf8 fs' p = Ok (Some s)).
Proof.
  assert (forall t p nd now t',
            writeFile t p (Text s) nd now = Ok t' ->
            readFile_utf8 t' p = Ok (Some s)) as H.
  { intros t p nd now t' Hw. apply writeFile_inv in Hw as (_ & _ & ->).
    unfold readFile_utf8.
    rewrite readFile_written by apply before_chunks_absent.
    simpl. rewrite decode_encode. reflexivity. }
  split; [exact H|]. split; [exact H|].
  intros fs p fs' [= <-]. unfold MemFS.readFile_utf8, MemFS.readFile. simpl.
  rewrite lookup_insert_eq. simpl. rewrite decode_encode. reflexivity.
Qed.

(** ** Screenshot names *)

Lemma includes_char_false s c :
  includes s (String c EmptyString) = false
  <-> Forall (fun x => x <> c) (list_ascii_of_string s).
Proof.
  induction s as [|a s IH]; simpl.
  - split; [constructor|reflexivity].
  - rewrite andb_true_r, orb_false_iff, IH, Forall_cons, Ascii.eqb_neq.
    split; intros [H1 H2]; split; auto.
Qed.

Lemma split_slash_plain s :
  includes s "/" = false -> split_slash s = [s].
Proof.
  induction s as [|a s IH]; [reflexivity|]. simpl.
  rewrite andb_true_r, orb_false_iff. intros [E H].
  rewrite Ascii.eqb_sym, E, (IH H). reflexivity.
Qed.

Lemma split_slash_append a b :
  includes a "/" = false ->
  split_slash (String.append a (String "/" b)) = a :: split_slash b.
Proof.
  induction a as [|c a IH]; [reflexivity|]. simpl.
  rewrite andb_true_r, orb_false_iff. intros [E H].
  rewrite Ascii.eqb_sym, E, (IH H). reflexivity.
Qed.

Lemma isValidAppId_no_slash id :
  Screenshots.isValidAppId id = true ->
  includes id "/" = false /\ includes id "." = false /\ id <> "".
Proof.
  unfold Screenshots.isValidAppId. rewrite !andb_true_iff.
  intros [[H Hlen] _]. split; [|split].
  - apply includes_char_false, Forall_forall. intros x Hx ->.
    rewrite forallb_forall in H.
    specialize (H _ (proj1 (list_elem_of_In _ _) Hx)). discriminate.
  - apply includes_char_false, Forall_forall. intros x Hx ->.
    rewrite forallb_forall in H.
    specialize (H _ (proj1 (list_elem_of_In _ _) Hx)). discriminate.
  - intros ->. discriminate.
Qed.

Lemma validateFileName_plain file f :
  Screenshots.validateFileName file = Some f ->
  f = file /\ includes file "/" = false /\ includes file ".." = false.
Proof.
  unfold Screenshots.validateFileName.
  destruct (includes file "..") eqn:E1; [discriminate|].
  destruct (includes file "/") eqn:E2; [discriminate|].
  destruct (_ || _); [discriminate|].
  destruct (negb _); [discriminate|].
  destruct (startsWith file "."); [discriminate|].
  destruct (_ || _); [discriminate|].
  destruct (negb _); [discriminate|].
  intros [= <-]. auto.
Qed.

(** X25.  What [validateFileName] lets through: the name itself,
    unchanged; of 1 to 128 characters; without ['/'], ['\'], NUL or
    ['..'] and not starting with a dot; and with an extension for which
    [getMimeByExtension] knows an image type. *)
Theorem validateFileName_safe file f :
  Screenshots.validateFileName file = Some f ->
  f = file
  /\ 1 <= Z.of_nat (String.length file) <= 128
  /\ includes file "/" = false /\ includes file "\" = false
  /\ includes file (String "000" EmptyString) = false
  /\ includes file ".." = false /\ startsWith file "." = false
  /\ exists mime,
       Screenshots.getMimeByExtension file = Some mime
       /\ (mime = "image/png" \/ mime = "image/jpeg" \/ mime = "image/webp").
Proof.
  unfold Screenshots.validateFileName, Screenshots.getMimeByExtension.
  destruct (includes file "..") eqn:E1; [discriminate|].
  destruct (includes file "/") eqn:E2; [discriminate|].
  destruct (includes file "\") eqn:E3; [discriminate|].
  destruct (includes file (String "000" EmptyString)) eqn:E4; [discriminate|].
  cbn [orb].
  destruct (Screenshots.simple_filename file) eqn:E5; [|discriminate].
  cbn [negb].
  destruct (startsWith file ".") eqn:E6; [discriminate|].
  destruct (_ || _); [discriminate|].
  set (ext := toLowerCase _).
  destruct (Screenshots.allowed ext) eqn:E7; [|discriminate].
  cbn [negb]. intros [= <-].
  unfold Screenshots.simple_filename in E5.
  rewrite !andb_true_iff, !Z.leb_le in E5. destruct E5 as [[_ L1] L2].
  repeat (split; [auto; lia|]).
  unfold Screenshots.allowed in E7. apply bool_decide_eq_true in E7.
  destruct E7 as [-> | [-> | [-> | ->]]]; eexists; (split; [reflexivity|]);
    auto.
Qed.

Lemma validateFileName_safe_witness :
  Screenshots.validateFileName "shot-1.JPG" = Some "shot-1.JPG"
  /\ exists mime,
       Screenshots.getMimeByExtension "shot-1.JPG" = Some mime
       /\ (mime = "image/png" \/ mime = "image/jpeg" \/ mime = "image/webp").
Proof.
  split; [reflexivity|].
  apply (validateFileName_safe "shot-1.JPG" "shot-1.JPG" eq_refl).
Defined.

(** X26.  The key that [serveScreenshot] looks up is built from an app id
    that passed [isValidAppId] and a file name that passed
    [validateFileName]: it then has exactly three segments,
    ['screenshots'], the id and the name, so neither parameter can reach
    outside the folder of the app. *)
Theorem screenshot_key_segments appId file f :
  Screenshots.isValidAppId appId = true ->
  Screenshots.validateFileName file = Some f ->
  split_slash (Screenshots.screenshot_key appId f)
  = ["screenshots"; appId; file]
  /\ appId <> "" /\ includes appId "." = false
  /\ includes file ".." = false.
Proof.
  intros Hid Hf. apply validateFileName_plain in Hf as (-> & Hslash & Hdots).
  apply isValidAppId_no_slash in Hid as (Hs & Hd & Hne).
  split; [|auto]. unfold Screenshots.screenshot_key.
  change (split_slash
            (String.append "screenshots"
               (String "/" (String.append appId (String "/" file))))
          = ["screenshots"; appId; file]).
  rewrite (split_slash_append "screenshots") by reflexivity.
  rewrite split_slash_append by exact Hs.
  rewrite split_slash_plain by exact Hslash. reflexivity.
Qed.

Lemma screenshot_key_segments_witness :
  Screenshots.isValidAppId "app_42" = true
  /\ Screenshots.validateFileName "shot-1.JPG" = Some "shot-1.JPG"
  /\ split_slash (Screenshots.screenshot_key "app_42" "shot-1.JPG")
     = ["screenshots"; "app_42"; "shot-1.JPG"].
Proof.
  split; [reflexivity|]. split; [reflexivity|].
  apply (screenshot_key_segments "app_42" "shot-1.JPG" "shot-1.JPG");
    reflexivity.
Defined.
